(** * django-template-preprocessor: lexer engine, block nesting and
      JavaScript minifier

    A shallow embedding of
      - [core/lexer_engine.py]  ([tokenize], [nest_block_level_elements]),
      - [core/js_processor.py]  (the JavaScript grammar, [_validate_javascript],
        [_compress_javascript_whitespace], [_minify_variable_names]),
    together with the properties the specification states about them.

    Python values are modelled as follows.  Text is [string]; a token tree is
    the inductive [node]; Python exceptions are the constructors of [exn];
    every function that can raise or loop returns a [result].  Loops that
    Python writes as [while] take a fuel argument and answer [Diverge] when it
    runs out. *)

From Stdlib Require Import String Ascii List Bool Arith Lia PeanoNat Finite.
Import ListNotations.
Open Scope string_scope.
Open Scope list_scope.
Open Scope nat_scope.

Set Implicit Arguments.

(* ================================================================== *)
(** ** Python strings *)

Module PyStr.

Definition len : string -> nat := String.length.

(** [s[n:]] *)
Fixpoint drop (n : nat) (s : string) : string :=
  match n, s with
  | 0, _ => s
  | S _, EmptyString => EmptyString
  | S n', String _ s' => drop n' s'
  end.

(** [s[:n]] *)
Fixpoint take (n : nat) (s : string) : string :=
  match n, s with
  | 0, _ => EmptyString
  | S _, EmptyString => EmptyString
  | S n', String c s' => String c (take n' s')
  end.

(** [s[a:b]] for non-negative [a], [b]. *)
Definition slice (a b : nat) (s : string) : string :=
  take (b - a) (drop a s).

(** [s[p-20:p+20]]: a negative start index counts from the end of the
    string, as Python slicing does. *)
Definition near (p : nat) (s : string) : string :=
  let start := if p <? 20 then len s - (20 - p) else p - 20 in
  slice start (p + 20) s.

Definition is_space (c : ascii) : bool :=
  match nat_of_ascii c with
  | 9 | 10 | 11 | 12 | 13 | 32 => true
  | _ => false
  end.

Fixpoint lstrip (s : string) : string :=
  match s with
  | String c s' => if is_space c then lstrip s' else s
  | EmptyString => EmptyString
  end.

Fixpoint rev_acc (s acc : string) : string :=
  match s with
  | EmptyString => acc
  | String c s' => rev_acc s' (String c acc)
  end.

Definition rev (s : string) : string := rev_acc s EmptyString.

(** [s.strip()] *)
Definition strip (s : string) : string := rev (lstrip (rev (lstrip s))).

(** [sep.join(l)] *)
Fixpoint join (sep : string) (l : list string) : string :=
  match l with
  | [] => EmptyString
  | [x] => x
  | x :: rest => (x ++ sep ++ join sep rest)%string
  end.

Definition eqb : string -> string -> bool := String.eqb.

(** [x in l] for a list of strings. *)
Definition mem (x : string) (l : list string) : bool :=
  existsb (String.eqb x) l.


End PyStr.

(* ================================================================== *)
(** ** Regular expressions

    The patterns of the grammar tables are compiled by Python's [re] module,
    which is not part of the repository.  They are modelled by a small
    backtracking matcher with Python's priorities: alternatives are tried
    left to right, [*] and [+] are greedy, [(?!r)] is a negative lookahead.
    [alts r s] lists, in the order the backtracking search finds them, the
    remainders of [s] after each way [r] can match a prefix of [s];
    [re_match] keeps the first one, as [compiled_regex.match] does, and
    returns the second component of [match.span()]. *)

Module Re.

Inductive regex : Type :=
| Lit (s : string)
| Cls (p : ascii -> bool)
| Seq (r1 r2 : regex)
| Alt (r1 r2 : regex)
| Star (r : regex)
| NotAhead (r : regex).

Definition Plus (r : regex) : regex := Seq r (Star r).
Definition Opt (r : regex) : regex := Alt r (Lit EmptyString).

Fixpoint strip_prefix (p s : string) : option string :=
  match p, s with
  | EmptyString, _ => Some s
  | String a p', String b s' =>
      if Ascii.eqb a b then strip_prefix p' s' else None
  | String _ _, EmptyString => None
  end.

(** The greedy repetition of a matcher [m]: one more round of [m] first,
    stopping second.  A round that consumes nothing is not repeated; [n]
    bounds the number of rounds and is the length of the text. *)
Fixpoint star_loop (m : string -> list string) (n : nat) (s : string)
  : list string :=
  match n with
  | 0 => [s]
  | S n' =>
      flat_map
        (fun s' =>
           if String.length s' <? String.length s
           then star_loop m n' s' else [])
        (m s) ++ [s]
  end.

Fixpoint alts (r : regex) (s : string) : list string :=
  match r with
  | Lit p => match strip_prefix p s with Some s' => [s'] | None => [] end
  | Cls p => match s with
             | String c s' => if p c then [s'] else []
             | EmptyString => []
             end
  | Seq r1 r2 => flat_map (alts r2) (alts r1 s)
  | Alt r1 r2 => alts r1 s ++ alts r2 s
  | Star r1 => star_loop (alts r1) (String.length s) s
  | NotAhead r1 => match alts r1 s with [] => [s] | _ :: _ => [] end
  end.

(** [compiled_regex.match(s)]: [None] when there is no match, otherwise
    the number of characters matched. *)
Definition re_match (r : regex) (s : string) : option nat :=
  match alts r s with
  | [] => None
  | s' :: _ => Some (String.length s - String.length s')
  end.

(** Character classes used by the grammar tables. *)
Definition chr_in (set : string) (c : ascii) : bool :=
  existsb (Ascii.eqb c) (list_ascii_of_string set).

Definition between (lo hi c : ascii) : bool :=
  (nat_of_ascii lo <=? nat_of_ascii c) && (nat_of_ascii c <=? nat_of_ascii hi).

Definition newline : ascii := ascii_of_nat 10.

(** [\s] *)
Definition space : regex := Cls PyStr.is_space.
(** [.] : any character except a newline *)
Definition dot : regex := Cls (fun c => negb (Ascii.eqb c newline)).
(** [[abc]] *)
Definition oneof (set : string) : regex := Cls (chr_in set).
(** [[^abc]] *)
Definition noneof (set : string) : regex := Cls (fun c => negb (chr_in set c)).

Fixpoint any_lit (l : list string) : regex :=
  match l with
  | [] => NotAhead (Lit EmptyString)
  | [x] => Lit x
  | x :: rest => Alt (Lit x) (any_lit rest)
  end.

End Re.


(* ================================================================== *)
(** ** Exceptions and results *)

(** Modelled from the spec: [CompileException] of [core/lexer.py] (not
    among the sources), the repository's own error.  Both ways the source
    constructs it, from [(line, column, path, message)] and from
    [(token, message)], carry a position and a message.  The other
    constructors are the Python exceptions the modelled code can raise. *)
Inductive exn : Type :=
| CompileException (line column : nat) (path message : string)
| IndexError
| KeyError
| NameError (name : string)
| AttributeError
| TypeError
| AssertionError.

Inductive result (A : Type) : Type :=
| Ok (a : A)
| Raise (e : exn)
| Diverge.

Arguments Ok {A} a.
Arguments Raise {A} e.
Arguments Diverge {A}.

Definition bind {A B : Type} (m : result A) (k : A -> result B) : result B :=
  match m with
  | Ok a => k a
  | Raise e => Raise e
  | Diverge => Diverge
  end.

Notation "x <- m ;; k" := (bind m (fun x => k))
  (at level 61, m at next level, right associativity).
Notation "' p <- m ;; k" := (bind m (fun x => let p := x in k))
  (at level 61, p pattern, m at next level, right associativity).

(* ================================================================== *)
(** ** Token trees *)

(** The Python classes a node can be an instance of.  [UserClass] stands for
    any further subclass of [Token], such as the target classes of a nesting
    mapping. *)
Inductive cls : Type :=
| Token
| DjangoContainer
| DjangoContent
| DjangoTag
| HtmlContent
| JavascriptNode
| JavascriptScope
| JavascriptWhiteSpace
| JavascriptOperator
| JavascriptKeyword
| JavascriptVariable
| JavascriptDoubleQuotedString
| JavascriptSingleQuotedString
| JavascriptRegexObject
| JavascriptNumber
| UserClass (class_name : string).

Definition cls_name (c : cls) : string :=
  match c with
  | Token => "Token"
  | DjangoContainer => "DjangoContainer"
  | DjangoContent => "DjangoContent"
  | DjangoTag => "DjangoTag"
  | HtmlContent => "HtmlContent"
  | JavascriptNode => "JavascriptNode"
  | JavascriptScope => "JavascriptScope"
  | JavascriptWhiteSpace => "JavascriptWhiteSpace"
  | JavascriptOperator => "JavascriptOperator"
  | JavascriptKeyword => "JavascriptKeyword"
  | JavascriptVariable => "JavascriptVariable"
  | JavascriptDoubleQuotedString => "JavascriptDoubleQuotedString"
  | JavascriptSingleQuotedString => "JavascriptSingleQuotedString"
  | JavascriptRegexObject => "JavascriptRegexObject"
  | JavascriptNumber => "JavascriptNumber"
  | UserClass n => n
  end.

Definition cls_eqb (c d : cls) : bool := String.eqb (cls_name c) (cls_name d).

(** The direct base class.  [HtmlContent] is declared in [html_processor.py],
    which is not among the sources; it is taken to derive from [Token]. *)
Definition base (c : cls) : option cls :=
  match c with
  | Token => None
  | JavascriptNode => Some HtmlContent
  | JavascriptScope | JavascriptWhiteSpace | JavascriptOperator
  | JavascriptKeyword | JavascriptVariable | JavascriptDoubleQuotedString
  | JavascriptSingleQuotedString | JavascriptRegexObject | JavascriptNumber =>
      Some JavascriptNode
  | _ => Some Token
  end.

Fixpoint subclass_upto (n : nat) (c d : cls) : bool :=
  cls_eqb c d ||
  match n with
  | 0 => false
  | S n' => match base c with
            | Some b => subclass_upto n' b d
            | None => false
            end
  end.

Definition issubclass (c d : cls) : bool := subclass_upto 3 c d.

(** Modelled from the spec: the class [Token] of [core/lexer.py], which is
    not among the sources.  The spec's Node has a kind ([name]), a position
    ([line], [column], [path]) and an ordered sequence of children, each a raw
    text fragment or another node.  [klass] is the node's Python class, which
    the passes change by assigning [__class__]; [extra] holds the further
    child lists [children1], [children2], ... that the nesting transform
    creates with [setattr]. *)
Record header : Type := mkHeader
  { name : string; line : nat; column : nat; path : string; klass : cls }.

Unset Elimination Schemes.
Inductive node : Type :=
| Text (s : string)
| Tok (h : header) (children : list node) (extra : list (nat * list node)).
Set Elimination Schemes.

(** Modelled from the spec: the constructor
    [Token(name, line, column, path)] of [core/lexer.py] (not among the
    sources); a new token has class [Token] and no children. *)
Definition new_token (n : string) (l c : nat) (p : string) : header :=
  mkHeader n l c p Token.

Definition set_class (h : header) (c : cls) : header :=
  mkHeader (name h) (line h) (column h) (path h) c.

(** [isinstance(n, c)]; a text fragment is an instance of no token class. *)
Definition isinstance (n : node) (c : cls) : bool :=
  match n with
  | Text _ => false
  | Tok h _ _ => issubclass (klass h) c
  end.

(** [any([isinstance(n, c) for c in classes])] *)
Definition isinstance_any (n : node) (classes : list cls) : bool :=
  existsb (isinstance n) classes.

(* ================================================================== *)
(** ** Grammar tables *)

(** Modelled from the spec: the action classes of [core/lexer.py] (not
    among the sources), with the fields [tokenize] reads from them:
    [Record(value)], [Shift()], [Push(state_name)], [Pop()],
    [StartToken(state_name)], [StopToken(state_name)], [Error(message)]. *)
Inductive action : Type :=
| Record_ (value : option string)
| Shift
| Push (state_name : string)
| Pop
| StartToken (state_name : string)
| StopToken (state_name : option string)
| Error (message : string).

Definition transition : Type := (Re.regex * list action)%type.

(** Modelled from the spec: the class [State] of [core/lexer.py] (not
    among the sources); [State(...).transitions()] yields the rules, each a
    compiled pattern and an action list, in declaration order. *)
Definition State : Type := list transition.

(** A dictionary from state names to states. *)
Definition states_table : Type := list (string * State).

Fixpoint lookup {A : Type} (k : string) (d : list (string * A)) : option A :=
  match d with
  | [] => None
  | (k', v) :: rest => if String.eqb k k' then Some v else lookup k rest
  end.

(** The [for ... in transitions: ... if match: ...; break] search: the first
    rule whose pattern matches at the start of [s]. *)
Fixpoint first_match (rules : State) (s : string) : option (nat * list action) :=
  match rules with
  | [] => None
  | (r, acts) :: rest =>
      match Re.re_match r s with
      | Some count => Some (count, acts)
      | None => first_match rest s
      end
  end.

(* ================================================================== *)
(** ** The lexer engine: [tokenize] *)

(** A node that is on the open-token stack.  Python keeps such a node both
    on the stack and, since [StartToken] appended it there, as the last child
    of the node below it; only the top of the stack is ever appended to.  The
    model keeps the node on the stack alone while it is open and hands it to
    the node below when it is popped, which yields the same children in the
    same order. *)
Record frame : Type := mkFrame
  { fheader : header; fchildren : list node; fextra : list (nat * list node) }.

Definition node_of_frame (f : frame) : node :=
  Tok (fheader f) (fchildren f) (fextra f).

(** Modelled from the spec: [Token.append(child)] of [core/lexer.py] (not
    among the sources); children are appended in order. *)
Definition append (f : frame) (child : node) : frame :=
  mkFrame (fheader f) (fchildren f ++ [child]) (fextra f).

(** The open-token stack, top first ([frames]), and, once its bottom node
    has been popped, that node ([detached]). *)
Record tstack : Type := mkTstack
  { frames : list frame; detached : option node }.

(** The variables of one [tokenize] call.  [state_stack] has its top first.
    [advances] is ghost state: the amounts by which [Shift] actions moved the
    cursor, most recent first; nothing reads it. *)
Record lexer : Type := mkLexer
  { state_stack : list string;
    token_stack : tstack;
    cur_line : nat;
    cur_column : nat;
    advances : list nat }.

(** [token_stack[-1].append(child)] *)
Definition append_top (ts : tstack) (child : node) : result tstack :=
  match frames ts with
  | [] => Raise IndexError
  | top :: below => Ok (mkTstack (append top child :: below) (detached ts))
  end.

(** [token_stack.pop()] *)
Definition pop_token (ts : tstack) : result tstack :=
  match frames ts with
  | [] => Raise IndexError
  | [top] => Ok (mkTstack [] (Some (node_of_frame top)))
  | top :: parent :: below =>
      Ok (mkTstack (append parent (node_of_frame top) :: below) (detached ts))
  end.

(** The row/column update of [Shift]: every newline of the shifted text
    starts a new line at column 1, the characters after the last newline
    advance the column.  The second component is what the source leaves in
    [content]: the text after the last newline. *)
Fixpoint advance (l c : nat) (content pending : string) : nat * nat * string :=
  match content with
  | EmptyString => (l, c, pending)
  | String ch rest =>
      if Ascii.eqb ch Re.newline
      then advance (S l) 1 rest rest
      else advance l (S c) rest pending
  end.

(** The variables of the action loop of one match. *)
Record cursor : Type := mkCursor
  { lx : lexer; position : nat; count : nat; content : string }.

(** Python truth of an optional string: [None] and the empty string are
    false. *)
Definition truthy (s : option string) : option string :=
  match s with
  | Some EmptyString => None
  | other => other
  end.

Definition with_tokens (l : lexer) (ts : tstack) : lexer :=
  mkLexer (state_stack l) ts (cur_line l) (cur_column l) (advances l).

Definition with_states (l : lexer) (ss : list string) : lexer :=
  mkLexer ss (token_stack l) (cur_line l) (cur_column l) (advances l).

(** One action of a rule, as the [isinstance] chain of the source runs it.
    [tree_path] is [tree.path], [str] the text being lexed. *)
Definition exec_action (tree_path : string) (str : string) (a : action)
  (cu : cursor) : result cursor :=
  let l := lx cu in
  match a with
  | Record_ value =>
      let text := match truthy value with
                  | Some v => v
                  | None => content cu
                  end in
      ts <- append_top (token_stack l) (Text text) ;;
      Ok (mkCursor (with_tokens l ts) (position cu) (count cu) (content cu))
  | Shift =>
      let '(line', column', content') :=
        advance (cur_line l) (cur_column l) (content cu) (content cu) in
      Ok (mkCursor
            (mkLexer (state_stack l) (token_stack l) line' column'
               (count cu :: advances l))
            (position cu + count cu) 0 content')
  | Push state_name =>
      Ok (mkCursor (with_states l (state_name :: state_stack l))
            (position cu) (count cu) (content cu))
  | Pop =>
      match state_stack l with
      | [] => Raise IndexError
      | _ :: below =>
          Ok (mkCursor (with_states l below)
                (position cu) (count cu) (content cu))
      end
  | StartToken state_name =>
      let token := new_token state_name (cur_line l) (cur_column l) tree_path in
      match frames (token_stack l) with
      | [] => Raise IndexError
      | fs =>
          Ok (mkCursor
                (with_tokens l
                   (mkTstack (mkFrame token [] [] :: fs)
                      (detached (token_stack l))))
                (position cu) (count cu) (content cu))
      end
  | StopToken state_name =>
      match truthy state_name, frames (token_stack l) with
      | Some _, [] => Raise IndexError
      | Some expected, top :: _ =>
          if negb (String.eqb (name (fheader top)) expected)
          then Raise (CompileException (cur_line l) (cur_column l) tree_path
                        "Token mismatch")
          else
            ts <- pop_token (token_stack l) ;;
            Ok (mkCursor (with_tokens l ts)
                  (position cu) (count cu) (content cu))
      | None, _ =>
          ts <- pop_token (token_stack l) ;;
          Ok (mkCursor (with_tokens l ts)
                (position cu) (count cu) (content cu))
      end
  | Error message =>
      Raise (CompileException (cur_line l) (cur_column l) tree_path
               (message ++ "; near: '" ++ PyStr.near (position cu) str ++ "'"))
  end.

(** [for action in action_list: ...] *)
Fixpoint exec_actions (tree_path : string) (str : string)
  (acts : list action) (cu : cursor) : result cursor :=
  match acts with
  | [] => Ok cu
  | a :: rest =>
      cu' <- exec_action tree_path str a cu ;;
      exec_actions tree_path str rest cu'
  end.

(** [while position < len(string): ...].  When no rule of the active state
    matches, the [for] loop ends without a [break] and the [while] loop runs
    again with nothing changed. *)
Fixpoint lex_string (fuel : nat) (states : states_table) (tree_path : string)
  (str : string) (l : lexer) (pos : nat) : result (lexer * nat) :=
  match fuel with
  | 0 => Diverge
  | S fuel' =>
      if pos <? PyStr.len str then
        match state_stack l with
        | [] => Raise IndexError
        | current :: _ =>
            match lookup current states with
            | None => Raise KeyError
            | Some rules =>
                match first_match rules (PyStr.drop pos str) with
                | None => lex_string fuel' states tree_path str l pos
                | Some (cnt, acts) =>
                    cu <- exec_actions tree_path str acts
                            (mkCursor l pos cnt (PyStr.slice pos (pos + cnt) str)) ;;
                    lex_string fuel' states tree_path str (lx cu) (position cu)
                end
            end
        end
      else Ok (l, pos)
  end.

(** Consecutive text children are lexed as one string: the inner
    [while len(input_nodes) and isinstance(input_nodes[0], basestring)] loop
    of the source, done for the whole child list at once. *)
Fixpoint concat_strings (input_nodes : list node) : list node :=
  match input_nodes with
  | [] => []
  | Text a :: rest =>
      match concat_strings rest with
      | Text b :: rest' => Text (a ++ b) :: rest'
      | other => Text a :: other
      end
  | n :: rest => n :: concat_strings rest
  end.

(** The node a token stack has built: its bottom node with every node
    still open above it in place as the last child of the one below. *)
Fixpoint close_onto (top : frame) (below : list frame) : node :=
  match below with
  | [] => node_of_frame top
  | parent :: rest => close_onto (append parent (node_of_frame top)) rest
  end.

Definition close_frames (fs : list frame) : option node :=
  match fs with
  | [] => None
  | top :: below => Some (close_onto top below)
  end.

Definition built (ts : tstack) : option node :=
  match frames ts with
  | [] => detached ts
  | fs => close_frames fs
  end.

(** [x or default] for a list argument: [None] and the empty list are both
    false. *)
Definition list_or {A : Type} (x : option (list A)) (default : list A) : list A :=
  match x with
  | Some ((_ :: _) as l) => l
  | _ => default
  end.

Definition tstack_or (x : option tstack) (default : tstack) : tstack :=
  match x with
  | Some ts => match frames ts with [] => default | _ :: _ => ts end
  | None => default
  end.

Section InputLoop.

Variable states : states_table.
Variable classes_to_replace_by_parsed_content classes_to_enter : list cls.
Variable tree_path : string.

(** The fuel left for the [while position < len(string)] loops. *)
Variable fuel : nat.

(** The recursive call [tokenize(current_input_node, states,
    classes_to_replace_by_parsed_content, classes_to_enter, _state_stack,
    _token_stack, False)]. *)
Variable recurse :
  node -> option (list string) -> option tstack -> result lexer.

(** What the caller sees of a stack it passed down: the callee worked on
    the caller's list unless that list was empty, in which case the callee
    made a list of its own. *)
Definition shared_states (mine callee : list string) : list string :=
  match mine with
  | [] => []
  | _ :: _ => callee
  end.

Definition shared_tokens (mine callee : tstack) : tstack :=
  match frames mine with
  | [] => mine
  | _ :: _ => callee
  end.

(** [while len(input_nodes): ...], on the children with consecutive text
    already concatenated. *)
Fixpoint input_loop (input_nodes : list node) (l : lexer) : result lexer :=
  match input_nodes with
  | [] => Ok l
  | Text str :: rest =>
      '(l', _) <- lex_string fuel states tree_path str l 0 ;;
      input_loop rest l'
  | (Tok _ _ _ as current_input_node) :: rest =>
      if isinstance_any current_input_node classes_to_replace_by_parsed_content
      then
        (* continue with states, token will be replaced by parsed content *)
        r <- recurse current_input_node
               (Some (state_stack l)) (Some (token_stack l)) ;;
        input_loop rest
          (mkLexer (shared_states (state_stack l) (state_stack r))
             (shared_tokens (token_stack l) (token_stack r))
             (cur_line l) (cur_column l) (advances r ++ advances l))
      else if isinstance_any current_input_node classes_to_enter
      then
        (* start parsing again in nested node *)
        r <- recurse current_input_node (Some (state_stack l)) None ;;
        match built (token_stack r) with
        | None => Raise IndexError
        | Some entered =>
            ts <- append_top (token_stack l) entered ;;
            input_loop rest
              (mkLexer (shared_states (state_stack l) (state_stack r))
                 ts (cur_line l) (cur_column l) (advances r ++ advances l))
        end
      else
        (* Any other class, copy in current token *)
        ts <- append_top (token_stack l) current_input_node ;;
        input_loop rest (with_tokens l ts)
  end.

End InputLoop.

(** [tokenize(tree, states, classes_to_replace_by_parsed_content,
    classes_to_enter, _state_stack, _token_stack, _root)].

    A stack argument is shared with the caller when it is a non-empty list:
    the result carries the final stacks, and the caller goes on with them
    (see [input_loop]).  In a [_root] call the stacks are the call's own, so
    the bottom of a non-empty token stack is [tree], and
    [token_stack != [tree]] holds exactly when the stack does not consist of
    one node. *)
Fixpoint tokenize (fuel : nat) (tree : node) (states : states_table)
  (classes_to_replace_by_parsed_content classes_to_enter : list cls)
  (_state_stack : option (list string)) (_token_stack : option tstack)
  (_root : bool) : result lexer :=
  match fuel with
  | 0 => Diverge
  | S fuel' =>
      match tree with
      | Text _ => Raise AttributeError
      | Tok h children extra =>
          let state_stack0 := list_or _state_stack ["root"] in
          let token_stack0 :=
            tstack_or _token_stack (mkTstack [mkFrame h [] extra] None) in
          l <- input_loop states classes_to_replace_by_parsed_content
                 classes_to_enter (path h) fuel'
                 (fun n ss ts =>
                    tokenize fuel' n states
                      classes_to_replace_by_parsed_content classes_to_enter
                      ss ts false)
                 (concat_strings children)
                 (mkLexer state_stack0 token_stack0 (line h) (column h) []) ;;
          if _root then
            match frames (token_stack l) with
            | [_] => Ok l
            | [] => Raise IndexError
            | top :: _ :: _ =>
                Raise (CompileException (line (fheader top)) (column (fheader top))
                         (path (fheader top))
                         (name (fheader top) ++ " not terminated"))
            end
          else Ok l
      end
  end.

(** The tree a top-level call leaves behind. *)
Definition tokenized (r : result lexer) : result node :=
  l <- r ;;
  match built (token_stack l) with
  | Some n => Ok n
  | None => Raise IndexError
  end.

(* ================================================================== *)
(** ** The JavaScript grammar ([js_processor.py]) *)

Module JS.

Import Re.

Definition __JS_KEYWORDS : list string :=
  [ "break"; "catch"; "const"; "continue"; "debugger"; "default"; "delete";
    "do"; "else"; "enum"; "false"; "finally"; "for"; "function"; "gcase";
    "if"; "in"; "instanceof"; "new"; "null"; "return"; "switch"; "this";
    "throw"; "true"; "try"; "typeof"; "var"; "void"; "while"; "with" ].

(** The alternatives of the keyword pattern of the [root] state. *)
Definition keyword_pattern_words : list string :=
  [ "break"; "catch"; "const"; "continue"; "debugger"; "default"; "delete";
    "do"; "else"; "enum"; "false"; "finally"; "for"; "function"; "case";
    "if"; "in"; "instanceof"; "new"; "null"; "return"; "switch"; "this";
    "throw"; "true"; "try"; "typeof"; "var"; "void"; "while"; "with" ].

Definition dquote : string := String (ascii_of_nat 34) EmptyString.
Definition squote : string := "'".
Definition backslash : string := "\".
Definition nl : string := String newline EmptyString.

(** [[a-zA-Z_$]] *)
Definition ident_start (c : ascii) : bool :=
  between "a" "z" c || between "A" "Z" c || chr_in "_$" c.

(** [[a-zA-Z0-9_$]] *)
Definition ident_char (c : ascii) : bool :=
  between "a" "z" c || between "A" "Z" c || between "0" "9" c || chr_in "_$" c.

(** [\s*r\s*] *)
Definition spaced (r : regex) : regex := Seq (Star space) (Seq r (Star space)).

(** [.|\s] *)
Definition anything : regex := Alt dot space.

Definition token (kind : string) : list action :=
  [StartToken kind; Record_ None; Shift; StopToken None].

Definition root_state : State :=
  [ (spaced (Lit "{"), [StartToken "js-scope"; Shift]);
    (spaced (Lit "}"), [StopToken (Some "js-scope"); Shift]);
    (Lit "/*", [Push "multiline-comment"; Shift]);
    (Lit "//", [Push "singleline-comment"; Shift]);
    (Lit dquote, [Push "double-quoted-string";
                  StartToken "js-double-quoted-string"; Record_ None; Shift]);
    (Lit squote, [Push "single-quoted-string";
                  StartToken "js-single-quoted-string"; Record_ None; Shift]);
    (Seq (any_lit keyword_pattern_words) (NotAhead (Cls ident_char)),
     token "js-keyword");
    (spaced (oneof ";,=?:|^&=!<>*%~.[(+-"), token "js-operator");
    (spaced (oneof ")]"), token "js-operator" ++ [Push "after-varname"]);
    (Seq (Cls ident_start) (Star (Cls ident_char)),
     token "js-varname" ++ [Push "after-varname"]);
    (Plus (Cls (fun c => between "0" "9" c || chr_in "." c)),
     token "js-number" ++ [Push "after-varname"]);
    (Plus space, token "js-whitespace");
    (Seq (Star space) (Seq (Lit "/") (NotAhead (oneof "/*"))),
     [StartToken "js-regex-object"; Record_ None; Shift; Push "regex-object"]);
    (anything, [Error "Error in parser #1"]) ].

Definition quoted_string_state (quote : string) (message : string) : State :=
  [ (Lit quote, [Record_ None; Pop; Shift; StopToken None]);
    (Seq (Lit backslash) dot, [Record_ None; Shift]);
    (Plus (noneof (quote ++ backslash)), [Record_ None; Shift]);
    (anything, [Error message]) ].

Definition multiline_comment_state : State :=
  [ (Lit "*/", [Shift; Pop]);
    (Plus (Alt (Seq (Lit "*") (NotAhead (Lit "/"))) (noneof "*")), [Shift]);
    (Plus (Seq (Lit "*") (NotAhead (Lit "/"))), [Shift]);
    (anything, [Error "Error in parser #4"]) ].

Definition singleline_comment_state : State :=
  [ (Lit nl, [Shift; Pop]);
    (Plus (noneof nl), [Shift]);
    (anything, [Error "Error in parser #5"]) ].

Definition after_varname_state : State :=
  [ (Seq (Star space) (Seq (Lit "/") (Seq (NotAhead (oneof "/*")) (Star space))),
     token "js-operator");
    (Lit "/*", [Push "multiline-comment"; Shift]);
    (Seq (Lit "//") (Star (noneof nl)), [Shift]);
    (anything, [Pop]);
    (anything, [Error "Error in parser #6"]) ].

Definition regex_object_state : State :=
  [ (Seq (Lit backslash) dot, [Record_ None; Shift]);
    (Plus (noneof ("/" ++ backslash)), [Record_ None; Shift]);
    (Seq (Lit "/") (Opt (Cls (between "a" "z"))),
     [Record_ None; Shift; StopToken None; Pop]);
    (anything, [Error "Error in parser #7"]) ].

Definition __JS_STATES : states_table :=
  [ ("root", root_state);
    ("double-quoted-string", quoted_string_state dquote "Error in parser #2");
    ("single-quoted-string", quoted_string_state squote "Error in parser #3");
    ("multiline-comment", multiline_comment_state);
    ("singleline-comment", singleline_comment_state);
    ("after-varname", after_varname_state);
    ("regex-object", regex_object_state) ].

(** [tree = Token(name='root', line=1, column=1, path=path);
    tree.children = [js_string]; tokenize(tree, __JS_STATES, [Token])] *)
Definition tokenize_string (fuel : nat) (js_string : string) (path : string)
  : result node :=
  tokenized
    (tokenize fuel (Tok (new_token "root" 1 1 path) [Text js_string] [])
       __JS_STATES [Token] [] None None true).

End JS.


(* ================================================================== *)
(** ** The block nesting transform: [nest_block_level_elements] *)

Section Nesting.

(** [c.process_params(params)]: the hook of the target class, supplied by
    the tag-specific layer.  It may raise; what it stores on the node is its
    own business and is not modelled. *)
Variable process_params : cls -> list node -> result unit.

(** A mapping entry [name: (marker, ..., marker, class_)], split as the
    source does into [m[:-1]] and [m[-1]]. *)
Definition mapping : Type := list (string * (list string * cls)).

(** A node of [moving_to_node].  Python appended it, when it was opened, to
    the list the scan was moving to at that moment, or left it in
    [tree.children] when no block was open; nothing else reaches that list
    while the node is open, so the model puts it there when it is popped.
    [bslot] remembers which list that is: [Some i] for the child list number
    [i] of the block below, [None] for [tree.children]. *)
Record block : Type := mkBlock { bnode : frame; bslot : option nat }.

Fixpoint extra_append (i : nat) (c : node) (extra : list (nat * list node))
  : list (nat * list node) :=
  match extra with
  | [] => [(i, [c])]
  | (j, l) :: rest =>
      if i =? j then (j, l ++ [c]) :: rest
      else (j, l) :: extra_append i c rest
  end.

(** [get_moving_to_list().append(c)]: list number 0 is [children], list
    number [i] is the attribute [children<i>], created when absent. *)
Definition get_moving_to_list_append (f : frame) (list_index : nat) (c : node)
  : frame :=
  match list_index with
  | 0 => append f c
  | _ => mkFrame (fheader f) (fchildren f) (extra_append list_index c (fextra f))
  end.

(** The variables of one call.  [kept] is [tree.children] restricted to the
    children scanned so far; both stacks have their top first. *)
Record nesting : Type := mkNesting
  { kept : list node;
    moving_to_node : list block;
    list_index : nat;
    tags_stack : list (list string) }.

(** Hand a finished or moved node to the list it belongs to. *)
Definition deliver (st : nesting) (slot : option nat) (c : node) : nesting :=
  match slot, moving_to_node st with
  | Some i, b :: below =>
      mkNesting (kept st)
        (mkBlock (get_moving_to_list_append (bnode b) i c) (bslot b) :: below)
        (list_index st) (tags_stack st)
  | _, _ => mkNesting (kept st ++ [c]) (moving_to_node st)
              (list_index st) (tags_stack st)
  end.

(** [l[-1]] *)
Definition last_item (l : list string) : result string :=
  match rev l with
  | [] => Raise IndexError
  | x :: _ => Ok x
  end.

(** [l[:-1]] *)
Definition but_last (l : list string) : list string := removelast l.

Section Scan.

Variable mappings : mapping.
Variable _classes : list cls.
Variable check : header -> string.

(** The recursive call [nest_block_level_elements(c, mappings, _classes,
    check)]. *)
Variable recurse : node -> result node.

(** [for c in tree.children[:]: ...] *)
Fixpoint scan (cs : list node) (st : nesting) : result nesting :=
  match cs with
  | [] => Ok st
  | c :: rest =>
      let is_given_class := isinstance_any c _classes in
      let check_value :=
        match c with
        | Tok h _ _ => if is_given_class then Some (check h) else None
        | Text _ => None
        end in
      let moving := match moving_to_node st with
                    | [] => false
                    | _ :: _ => true
                    end in
      let top_tags := match tags_stack st with
                      | [] => []
                      | t :: _ => t
                      end in
      let mapped :=
        match check_value with
        | Some v => lookup v mappings
        | None => None
        end in
      match c, check_value, mapped with
      | Tok h children extra, Some _, Some (end_, class_) =>
          (* Found the start of a block-level tag *)
          let opened := mkFrame (set_class h class_) [] extra in
          let slot := if moving then Some (list_index st) else None in
          _ <- process_params class_ children ;;
          scan rest
            (mkNesting (kept st)
               (mkBlock opened slot :: moving_to_node st)
               (list_index st)
               (end_ :: tags_stack st))
      | _, _, _ =>
          closing <-
            (match check_value with
             | Some v =>
                 if moving then
                   e <- last_item top_tags ;;
                   Ok (String.eqb v e)
                 else Ok false
             | None => Ok false
             end) ;;
          if closing then
            (* End of this block-level tag *)
            match moving_to_node st, tags_stack st with
            | b :: below, _ :: tags_below =>
                scan rest
                  (deliver
                     (mkNesting (kept st) below (list_index st) tags_below)
                     (bslot b) (node_of_frame (bnode b)))
            | _, _ => Raise IndexError
            end
          else if moving &&
                  match check_value with
                  | Some v => PyStr.mem v (but_last top_tags)
                  | None => false
                  end
          then
            (* Any 'else'-node within: the next statement of the source
               reads the name [end_tag], which is bound nowhere. *)
            Raise (NameError "end_tag")
          else if moving then
            (* Are we moving nodes *)
            c' <- recurse c ;;
            scan rest (deliver st (Some (list_index st)) c')
          else if isinstance c Token then
            c' <- recurse c ;;
            scan rest (deliver st None c')
          else scan rest (deliver st None c)
      end
  end.

End Scan.

Fixpoint nest_block_level_elements (fuel : nat) (tree : node)
  (mappings : mapping) (_classes : list cls)
  (check : option (header -> string)) : result node :=
  match fuel with
  | 0 => Diverge
  | S fuel' =>
      match tree with
      | Text _ => Raise AttributeError
      | Tok tree_header tree_children tree_extra =>
          let check := match check with
                       | Some f => f
                       | None => fun c => name c
                       end in
          st <- scan mappings _classes check
                  (fun c => nest_block_level_elements fuel' c mappings
                              _classes (Some check))
                  tree_children (mkNesting [] [] 0 []) ;;
          match moving_to_node st with
          | b :: _ =>
              let h := fheader (bnode b) in
              Raise (CompileException (line h) (column h) (path h)
                       (cls_name (klass h) ++ " tag not terminated"))
          | [] => Ok (Tok tree_header (kept st) tree_extra)
          end
      end
  end.

End Nesting.

(* ================================================================== *)
(** ** Token objects and their attributes

    The minifier hangs attributes on token objects and lets tokens point at
    one another ([symbol_table] values, [__link_to]).  A token object is
    identified here by its position in the tree, the list of child indexes
    leading to it from the root ([ref]); the attributes live in a store
    indexed by these positions, so that two references to one token see the
    same attributes. *)

Definition ref : Type := list nat.

Fixpoint ref_eqb (p q : ref) : bool :=
  match p, q with
  | [], [] => true
  | a :: p', b :: q' => (a =? b) && ref_eqb p' q'
  | _, _ => false
  end.


(** [node.children[i]] for a position [i] inside the list. *)
Definition child (n : node) (i : nat) : option node :=
  match n with
  | Text _ => None
  | Tok _ cs _ => nth_error cs i
  end.

(** The token object a reference denotes. *)
Fixpoint node_at (root : node) (p : ref) : option node :=
  match p with
  | [] => Some root
  | i :: p' => match child root i with
               | Some c => node_at c p'
               | None => None
               end
  end.

(** The attributes of the [js_processor] classes:
    [symbol_table] of every node (a dictionary from names to the declaring
    token, kept in insertion order; Python leaves the iteration order of a
    dictionary open), [__varname] and [__link_to] of [JavascriptVariable]. *)
Record attrs : Type := mkAttrs
  { symbol_table : ref -> list (string * ref);
    varname : ref -> option string;
    link_to : ref -> option ref }.

(** After [_add_javascript_parser_extensions]: empty tables, nothing
    renamed, nothing linked. *)
Definition no_attrs : attrs :=
  mkAttrs (fun _ => []) (fun _ => None) (fun _ => None).

Definition update {A : Type} (m : ref -> A) (p : ref) (v : A) : ref -> A :=
  fun q => if ref_eqb q p then v else m q.

(** [d[k] = v] *)
Fixpoint dict_set {A : Type} (k : string) (v : A) (d : list (string * A))
  : list (string * A) :=
  match d with
  | [] => [(k, v)]
  | (k', v') :: rest =>
      if String.eqb k k' then (k', v) :: rest else (k', v') :: dict_set k v rest
  end.

(** [scope.symbol_table[name] = token] *)
Definition declare (st : attrs) (scope : ref) (n : string) (token : ref) : attrs :=
  mkAttrs (update (symbol_table st) scope (dict_set n token (symbol_table st scope)))
    (varname st) (link_to st).

(** [token.set_variable_name(varname)] *)
Definition set_variable_name (st : attrs) (token : ref) (n : string) : attrs :=
  mkAttrs (symbol_table st) (update (varname st) token (Some n)) (link_to st).

(** [token.link_to_variable(variable)] *)
Definition link_to_variable (st : attrs) (token variable : ref) : attrs :=
  mkAttrs (symbol_table st) (varname st) (update (link_to st) token (Some variable)).

Section Output.

Variable root : node.
Variable st : attrs.

(** Modelled from the spec: [Token.output(handler)] of [core/lexer.py]
    (not among the sources), which emits text children as they are and asks
    token children for their own output ([token_output] below), with the
    text handed to [handler] concatenated.  The two overriding methods are
    those of [js_processor.py]: [JavascriptScope.output] wraps the token
    output in braces; [JavascriptVariable.output] emits the new name, or the
    output of the token it is linked to, or falls back to [Token.output].
    The [output] methods of the template-tag classes of
    [django_processor.py] are not modelled, trees of JavaScript tokens
    contain none of them. *)
Fixpoint output (fuel : nat) (p : ref) (n : node) : result string :=
  match fuel with
  | 0 => Diverge
  | S fuel' =>
      match n with
      | Text s => Ok s
      | Tok h children _ =>
          let token_output :=
            (fix each (i : nat) (cs : list node) : result string :=
               match cs with
               | [] => Ok EmptyString
               | c :: rest =>
                   a <- output fuel' (p ++ [i]) c ;;
                   b <- each (S i) rest ;;
                   Ok (a ++ b)%string
               end) 0 children in
          if isinstance n JavascriptScope then
            body <- token_output ;;
            Ok ("{" ++ body ++ "}")%string
          else if isinstance n JavascriptVariable then
            match truthy (varname st p), link_to st p with
            | Some v, _ => Ok v
            | None, Some q =>
                match node_at root q with
                | Some target => output fuel' q target
                | None => Raise AttributeError
                end
            | None, None => token_output
            end
          else token_output
      end
  end.

End Output.

(* ================================================================== *)
(** ** JavaScript tokens: class patching, tree queries *)

Definition __JS_EXTENSION_MAPPINGS : list (string * cls) :=
  [ ("js-scope", JavascriptScope);
    ("js-varname", JavascriptVariable);
    ("js-keyword", JavascriptKeyword);
    ("js-whitespace", JavascriptWhiteSpace);
    ("js-operator", JavascriptOperator);
    ("js-double-quoted-string", JavascriptDoubleQuotedString);
    ("js-single-quoted-string", JavascriptSingleQuotedString);
    ("js-regex-object", JavascriptRegexObject);
    ("js-number", JavascriptNumber) ].

(** [_add_javascript_parser_extensions(js_node)]: every token below
    [js_node] whose name is in the table gets the table's class.  The
    attributes it initialises ([symbol_table = {}], [__varname = None],
    [__link_to = None]) are those of [no_attrs]. *)
Fixpoint _add_javascript_parser_extensions (fuel : nat) (js_node : node)
  : result node :=
  match fuel with
  | 0 => Diverge
  | S fuel' =>
      match js_node with
      | Text _ => Raise AttributeError
      | Tok h children extra =>
          cs <- (fix each (cs : list node) : result (list node) :=
                   match cs with
                   | [] => Ok []
                   | Text s :: rest =>
                       rest' <- each rest ;; Ok (Text s :: rest')
                   | Tok ch cc cex :: rest =>
                       let ch' := match lookup (name ch) __JS_EXTENSION_MAPPINGS with
                                  | Some class_ => set_class ch class_
                                  | None => ch
                                  end in
                       c' <- _add_javascript_parser_extensions fuel'
                               (Tok ch' cc cex) ;;
                       rest' <- each rest ;;
                       Ok (c' :: rest')
                   end) children ;;
          Ok (Tok h cs extra)
      end
  end.

(** Modelled from the spec: [Token.child_nodes_of_class(classes)] of
    [core/lexer.py] (not among the sources): the nodes below this one that
    are instances of one of [classes], in document order, each before the
    matching nodes inside it.  Every node comes with its reference. *)
Fixpoint child_nodes_of_class (fuel : nat) (p : ref) (n : node)
  (classes : list cls) : result (list (ref * node)) :=
  match fuel with
  | 0 => Diverge
  | S fuel' =>
      match n with
      | Text _ => Raise AttributeError
      | Tok _ children _ =>
          (fix each (i : nat) (cs : list node) : result (list (ref * node)) :=
             match cs with
             | [] => Ok []
             | c :: rest =>
                 inside <- match c with
                           | Text _ => Ok []
                           | Tok _ _ _ =>
                               child_nodes_of_class fuel' (p ++ [i]) c classes
                           end ;;
                 after <- each (S i) rest ;;
                 Ok ((if isinstance_any c classes then [(p ++ [i], c)] else [])
                       ++ inside ++ after)
             end) 0 children
      end
  end.

(** [CompileException(token, message)]: the position is the token's. *)
Definition compile_exception {A : Type} (token : node) (message : string)
  : result A :=
  match token with
  | Tok h _ _ => Raise (CompileException (line h) (column h) (path h) message)
  | Text _ => Raise AttributeError
  end.

(* ================================================================== *)
(** ** Validation: [_validate_javascript] *)

Section Validation.

Variable fuel : nat.
Variable root : node.
Variable st : attrs.

(** The scope being scanned: its reference and [scope.children]. *)
Variable scope : ref.
Variable children : list node.

(** [scope.children[i]] *)
Definition current_node (i : nat) : result node :=
  match nth_error children i with
  | Some c => Ok c
  | None => Raise IndexError
  end.

(** [scope.children[i].output_as_string()] *)
Definition output_as_string (i : nat) (c : node) : result string :=
  output root st fuel (scope ++ [i]) c.

(** The properties [operator] and [keyword]. *)
Definition operator (i : nat) (c : node) : result string :=
  s <- output_as_string i c ;; Ok (PyStr.strip s).

Definition keyword (i : nat) (c : node) : result string :=
  output_as_string i c.

(** [isinstance(c, JavascriptOperator) and c.operator in ops] *)
Definition is_operator_in (i : nat) (c : node) (ops : list string) : result bool :=
  if isinstance c JavascriptOperator
  then o <- operator i c ;; Ok (PyStr.mem o ops)
  else Ok false.

(** [isinstance(c, JavascriptKeyword) and c.keyword in kws] *)
Definition is_keyword_in (i : nat) (c : node) (kws : list string) : result bool :=
  if isinstance c JavascriptKeyword
  then k <- keyword i c ;; Ok (PyStr.mem k kws)
  else Ok false.

Fixpoint skip_optional_function_name (n : nat) (i : nat) : result nat :=
  match n with
  | 0 => Diverge
  | S n' =>
      if i <? length children then
        c <- current_node i ;;
        if isinstance c JavascriptWhiteSpace
        then skip_optional_function_name n' (S i)
        else if isinstance c JavascriptVariable then Ok (S i)
        else Ok i
      else Ok i
  end.

Fixpoint go_to_open_bracket_loop (n : nat) (c0 : node) (i : nat) : result nat :=
  match n with
  | 0 => Diverge
  | S n' =>
      if i <? length children then
        c <- current_node i ;;
        if isinstance c JavascriptWhiteSpace
        then go_to_open_bracket_loop n' c0 (S i)
        else if isinstance c JavascriptScope then Ok i
        else
          par <- is_operator_in i c ["("] ;;
          if par then Ok i
          else compile_exception c0
                 "Expected opening bracket. Please check your Javascript code."
      else Ok i
  end.

Definition go_to_open_bracket (n : nat) (i : nat) : result nat :=
  c <- current_node i ;;
  go_to_open_bracket_loop n c i.

Fixpoint skip_parameter_list_loop (n : nat) (stack : list string) (i : nat)
  : result nat :=
  match n with
  | 0 => Diverge
  | S n' =>
      if i <? length children then
        match stack with
        | [] => Ok i
        | top :: below =>
            c <- current_node i ;;
            stack' <-
              (if isinstance c JavascriptOperator then
                 o <- operator i c ;;
                 if PyStr.mem o ["("; "["] then Ok (o :: stack)
                 else if String.eqb o ")" then
                   Ok (if String.eqb top "(" then below else stack)
                 else if String.eqb o "]" then
                   Ok (if String.eqb top "[" then below else stack)
                 else Ok stack
               else Ok stack) ;;
            skip_parameter_list_loop n' stack' (S i)
        end
      else Ok i
  end.

Definition skip_parameter_list (n : nat) (i : nat) : result nat :=
  c <- current_node i ;;
  if isinstance c JavascriptOperator then
    o <- operator i c ;;
    skip_parameter_list_loop n [o] (S i)
  else Raise AssertionError.

(** [while j > 0 and isinstance(scope.children[j], JavascriptWhiteSpace): j -= 1] *)
Fixpoint back_over_whitespace (j : nat) : nat :=
  match j with
  | 0 => 0
  | S j' =>
      match nth_error children j with
      | Some c => if isinstance c JavascriptWhiteSpace
                  then back_over_whitespace j' else j
      | None => j
      end
  end.

(** The token found, with its index; [None] is Python's [None]. *)
Definition get_last_non_whitespace_token (i : nat) : option (nat * node) :=
  match i with
  | 0 => None
  | S i' =>
      match back_over_whitespace i' with
      | 0 => None
      | j => match nth_error children j with
             | Some c => Some (j, c)
             | None => None
             end
      end
  end.

Definition found_missing {A : Type} (i : nat) : result A :=
  c <- current_node i ;;
  compile_exception c
    "Missing semicolon detected. Please check your Javascript code.".

(** The [while i[0] < len(scope.children)] loop of the semicolon check. *)
Fixpoint semicolon_scan (n : nat) (i : nat) (semi_colon_required : bool)
  : result unit :=
  match n with
  | 0 => Diverge
  | S n' =>
      if i <? length children then
        c <- current_node i ;;
        block_keyword <- is_keyword_in i c
          ["for"; "if"; "switch"; "function"; "try"; "catch"; "while"] ;;
        if block_keyword then
          _ <- (if semi_colon_required then found_missing i else Ok tt) ;;
          k <- keyword i c ;;
          i1 <- (if String.eqb k "function"
                 then skip_optional_function_name n' (S i)
                 else Ok (S i)) ;;
          i2 <- go_to_open_bracket n' i1 ;;
          c2 <- current_node i2 ;;
          par <- is_operator_in i2 c2 ["("] ;;
          i3 <- (if par then skip_parameter_list n' i2 else Ok i2) ;;
          semicolon_scan n' (S (i3 - 1)) false
        else
          var_keyword <- is_keyword_in i c ["var"] ;;
          if var_keyword then
            _ <- match get_last_non_whitespace_token i with
                 | Some (j, last_token) =>
                     sep <- is_operator_in j last_token ["{"; "}"; ";"] ;;
                     if sep then Ok tt
                     else if isinstance last_token JavascriptScope
                             || isinstance last_token DjangoTag
                     then Ok tt
                     else found_missing i
                 | None => Ok tt
                 end ;;
            semicolon_scan n' (S i) semi_colon_required
          else if isinstance c JavascriptOperator then
            o <- operator i c ;;
            if String.eqb o ";" || String.eqb o EmptyString then
              semicolon_scan n' (S i) false
            else if PyStr.mem o ["("; "["] then
              i1 <- skip_parameter_list n' i ;;
              semicolon_scan n' (S (i1 - 1)) true
            else if PyStr.mem o [")"; "]"] then
              compile_exception c
                "Unexpected closing bracket, did not find an opening match. Please check your Javascript code."
            else semicolon_scan n' (S i) false
          else if isinstance c JavascriptScope then
            semicolon_scan n' (S i) false
          else if isinstance c JavascriptVariable then
            _ <- (if semi_colon_required then found_missing i else Ok tt) ;;
            semicolon_scan n' (S i) true
          else semicolon_scan n' (S i) semi_colon_required
      else Ok tt
  end.

(** The first loop body: no comma at the end of a scope. *)
Definition comma_check : result unit :=
  match rev children with
  | [] => Ok tt
  | last_child :: _ =>
      is_comma <- is_operator_in (length children - 1) last_child [","] ;;
      if is_comma then
        compile_exception last_child
          "Please remove colon at the end of Javascript object (not supported by IE6 and IE7)"
      else Ok tt
  end.

End Validation.

Fixpoint for_each {A : Type} (f : A -> result unit) (l : list A) : result unit :=
  match l with
  | [] => Ok tt
  | x :: rest => _ <- f x ;; for_each f rest
  end.

Definition children_of (n : node) : list node :=
  match n with
  | Tok _ cs _ => cs
  | Text _ => []
  end.

(** [_validate_javascript(js_node)]; [st] holds the attributes at the time
    of the call. *)
Definition _validate_javascript (fuel : nat) (st : attrs) (js_node : node)
  : result unit :=
  scopes <- child_nodes_of_class fuel [] js_node [JavascriptScope] ;;
  _ <- for_each
         (fun s => comma_check fuel js_node st (fst s) (children_of (snd s)))
         scopes ;;
  for_each
    (fun s =>
       semicolon_scan fuel js_node st (fst s) (children_of (snd s)) fuel 0 false)
    scopes.

(* ================================================================== *)
(** ** Whitespace compression: [_compress_javascript_whitespace] *)

(** [u' '.join(children)]; a child that is not text is a [TypeError]. *)
Fixpoint texts (children : list node) : result (list string) :=
  match children with
  | [] => Ok []
  | Text s :: rest => l <- texts rest ;; Ok (s :: l)
  | Tok _ _ _ :: _ => Raise TypeError
  end.

(** [if isinstance(node, JavascriptWhiteSpace): node.children = [u'']] *)
Definition blank_whitespace (n : node) : node :=
  match n with
  | Tok h _ extra =>
      if isinstance n JavascriptWhiteSpace then Tok h [Text EmptyString] extra
      else n
  | Text _ => n
  end.

(** [for i in (0, -1): ...] on a non-empty list *)
Definition blank_ends (children : list node) : list node :=
  match children with
  | [] => []
  | first :: rest =>
      match rev (blank_whitespace first :: rest) with
      | [] => []
      | last :: before => rev (blank_whitespace last :: before)
      end
  end.

Fixpoint _compress_javascript_whitespace (fuel : nat) (js_node : node)
  : result node :=
  match fuel with
  | 0 => Diverge
  | S fuel' =>
      match js_node with
      | Text _ => Raise AttributeError
      | Tok h children extra =>
          cs <- (fix each (cs : list node) : result (list node) :=
                   match cs with
                   | [] => Ok []
                   | Text s :: rest =>
                       rest' <- each rest ;; Ok (Text s :: rest')
                   | (Tok ch cc cex as c) :: rest =>
                       let cc1 := if isinstance c JavascriptWhiteSpace
                                  then [Text " "] else cc in
                       cc2 <- (if String.eqb (name ch) "js-operator"
                               then l <- texts cc1 ;;
                                    Ok [Text (PyStr.strip (PyStr.join " " l))]
                               else Ok cc1) ;;
                       c' <- _compress_javascript_whitespace fuel'
                               (Tok ch cc2 cex) ;;
                       rest' <- each rest ;;
                       Ok (c' :: rest')
                   end) children ;;
          Ok (Tok h (blank_ends cs) extra)
      end
  end.

(* ================================================================== *)
(** ** Variable renaming: [_minify_variable_names] *)

Module Minify.

(** [string.lowercase] *)
Definition lowercase : string := "abcdefghijklmnopqrstuvwxyz".

Definition letter (i : nat) : string :=
  match String.get i lowercase with
  | Some ch => String ch EmptyString
  | None => EmptyString
  end.

(** [''.join([string.lowercase[i] for i in c])]; the counter [c] holds
    numbers below 26 whenever its name is asked for. *)
Definition output_name (c : list nat) : string :=
  String.concat EmptyString (map letter c).

(** The overflow pass [for i in range(0, len(c)): if c[i] == 26: ...].
    [carry] is what the previous round added to [c[i]]; a carry out of the
    last position appends a 0, and the appended position is not visited
    since [range] was computed before. *)
Fixpoint overflow (c : list nat) (carry : nat) : list nat :=
  match c with
  | [] => []
  | d :: rest =>
      if d + carry =? 26 then
        0 :: match rest with
             | [] => [0]
             | _ :: _ => overflow rest 1
             end
      else (d + carry) :: overflow rest 0
  end.

(** One round of the [while] loop: [c[0] += 1], then the overflow pass. *)
Definition increment (c : list nat) : list nat := overflow c 1.

Fixpoint generate_loop (fuel : nat) (avoid_names : list string) (c : list nat)
  : result string :=
  match fuel with
  | 0 => Diverge
  | S fuel' =>
      if PyStr.mem (output_name c) avoid_names
      then generate_loop fuel' avoid_names (increment c)
      else Ok (output_name c)
  end.

(** [generate_varname(avoid_names)].  [avoid_names += __JS_KEYWORDS] extends
    the caller's list in place, so the extended list is returned next to the
    name.  The loop is given one round more than the list has entries, which
    is enough ([generate_varname_returns]). *)
Definition generate_varname (avoid_names : list string)
  : result (string * list string) :=
  let avoid_names := avoid_names ++ JS.__JS_KEYWORDS in
  n <- generate_loop (S (length avoid_names)) avoid_names [0] ;;
  Ok (n, avoid_names).

(** The counter after [k] rounds of the loop, and the name it stands for:
    the [k]-th candidate the loop looks at. *)
Definition counter (k : nat) : list nat := Nat.iter k increment [0].

Definition candidate (k : nat) : string := output_name (counter k).

(** The value of a counter, its first number being the least significant:
    the position of its name among the candidates, counted from 1. *)
Fixpoint rank (c : list nat) : nat :=
  match c with
  | [] => 0
  | d :: rest => S d + 26 * rank rest
  end.



Section Passes.

(** The tree [_minify_variable_names] was called on; references are
    relative to it. *)
Variable root : node.

Definition output_as_string (fuel : nat) (st : attrs) (p : ref) (c : node)
  : result string :=
  output root st fuel p c.

Fixpoint find_variables (fuel : nat) (js_node : node) (p : ref) (scope : ref)
  (in_root_node : bool) (st : attrs) : result attrs :=
  match fuel with
  | 0 => Diverge
  | S fuel' =>
      (fix each (i : nat) (cs : list node) (next_is_variable : bool)
         (st : attrs) : result attrs :=
         match cs with
         | [] => Ok st
         | c :: rest =>
             declares <-
               (if isinstance c JavascriptKeyword then
                  k <- output_as_string fuel' st (p ++ [i]) c ;;
                  Ok (PyStr.mem k ["function"; "var"] && negb in_root_node)
                else Ok false) ;;
             if declares then each (S i) rest true st
             else if isinstance c JavascriptVariable && next_is_variable then
               n <- output_as_string fuel' st (p ++ [i]) c ;;
               each (S i) rest false (declare st scope n (p ++ [i]))
             else if isinstance c JavascriptScope then
               st' <- find_variables fuel' c (p ++ [i]) (p ++ [i]) false st ;;
               each (S i) rest false st'
             else if isinstance c JavascriptWhiteSpace then
               each (S i) rest next_is_variable st
             else if isinstance c Token then
               st' <- find_variables fuel' c (p ++ [i]) scope true st ;;
               each (S i) rest false st'
             else each (S i) rest false st
         end) 0 (children_of js_node) false st
  end.

(** [find_variables_2(js_node, scope)]: the parameters of the functions
    defined directly in [js_node.children] are declared in the scope that
    follows the parameter list.  [p] is the reference of [js_node]. *)
Section Parameters.

Variable fuel : nat.
Variable p : ref.
Variable children : list node.

Definition current_node (i : nat) : result node :=
  match nth_error children i with
  | Some c => Ok c
  | None => Raise IndexError
  end.

(** [raise CompileException(current_node(), message)] *)
Definition exception {A : Type} (i : nat) (message : string) : result A :=
  c <- current_node i ;;
  compile_exception c message.

(** [isinstance(c, JavascriptOperator) and c.output_as_string() == op] *)
Definition is_operator (st : attrs) (i : nat) (c : node) (op : string)
  : result bool :=
  if isinstance c JavascriptOperator
  then o <- output_as_string fuel st (p ++ [i]) c ;; Ok (String.eqb o op)
  else Ok false.

Fixpoint skip_whitespace (n : nat) (i : nat) : result nat :=
  match n with
  | 0 => Diverge
  | S n' =>
      c <- current_node i ;;
      if isinstance c JavascriptWhiteSpace then skip_whitespace n' (S i)
      else Ok i
  end.

Fixpoint skip_whitespace_and_kommas (n : nat) (st : attrs) (i : nat)
  : result nat :=
  match n with
  | 0 => Diverge
  | S n' =>
      c <- current_node i ;;
      if isinstance c JavascriptWhiteSpace
      then skip_whitespace_and_kommas n' st (S i)
      else
        komma <- is_operator st i c "," ;;
        if komma then skip_whitespace_and_kommas n' st (S i) else Ok i
  end.

(** [while isinstance(current_node(), JavascriptVariable): ...] *)
Fixpoint function_parameters (n : nat) (st : attrs) (i : nat)
  (variables : list (nat * node)) : result (nat * list (nat * node)) :=
  match n with
  | 0 => Diverge
  | S n' =>
      c <- current_node i ;;
      if isinstance c JavascriptVariable then
        i' <- skip_whitespace_and_kommas n' st (S i) ;;
        function_parameters n' st i' (variables ++ [(i, c)])
      else Ok (i, variables)
  end.

(** [for v in variables: current_node().symbol_table[v.output_as_string()] = v] *)
Fixpoint bind_parameters (variables : list (nat * node)) (body : ref)
  (st : attrs) : result attrs :=
  match variables with
  | [] => Ok st
  | (i, v) :: rest =>
      n <- output_as_string fuel st (p ++ [i]) v ;;
      bind_parameters rest body (declare st body n (p ++ [i]))
  end.

Fixpoint find_variables_2_loop (n : nat) (i : nat) (st : attrs) : result attrs :=
  match n with
  | 0 => Diverge
  | S n' =>
      if i <? length children then
        c <- current_node i ;;
        is_function <-
          (if isinstance c JavascriptKeyword then
             k <- output_as_string fuel st (p ++ [i]) c ;;
             Ok (String.eqb k "function")
           else Ok false) ;;
        if is_function then
          i1 <- skip_whitespace n' (S i) ;;
          c1 <- current_node i1 ;;
          i2 <- (if isinstance c1 JavascriptVariable
                 then skip_whitespace n' (S i1) else Ok i1) ;;
          c2 <- current_node i2 ;;
          opens <- is_operator st i2 c2 "(" ;;
          if negb opens
          then exception i2 ("Expected " ++ JS.dquote ++ "(" ++ JS.dquote)
          else
            i3 <- skip_whitespace n' (S i2) ;;
            '(i4, variables) <- function_parameters n' st i3 [] ;;
            c4 <- current_node i4 ;;
            closes <- is_operator st i4 c4 ")" ;;
            if negb closes
            then exception i4 ("Expected " ++ JS.dquote ++ "(" ++ JS.dquote)
            else
              i5 <- skip_whitespace n' (S i4) ;;
              c5 <- current_node i5 ;;
              if negb (isinstance c5 JavascriptScope)
              then exception i5 ("Expected " ++ JS.dquote ++ "{" ++ JS.dquote)
              else
                st' <- bind_parameters variables (p ++ [i5]) st ;;
                find_variables_2_loop n' i5 st'
        else find_variables_2_loop n' (S i) st
      else Ok st
  end.

End Parameters.

Definition find_variables_2 (fuel : nat) (js_node : node) (p : ref)
  (st : attrs) : result attrs :=
  find_variables_2_loop fuel p (children_of js_node) fuel 0 st.

(** [for s in parent_scopes: if varname in s.symbol_table: ...; break] *)
Fixpoint innermost_declaration (st : attrs) (n : string)
  (parent_scopes : list ref) : option ref :=
  match parent_scopes with
  | [] => None
  | s :: rest =>
      match lookup n (symbol_table st s) with
      | Some token => Some token
      | None => innermost_declaration st n rest
      end
  end.

(** The state of the walk: the attributes and [global_variable_names]. *)
Fixpoint find_free_variables (fuel : nat) (js_node : node) (p : ref)
  (parent_scopes : list ref) (st : attrs) (global_variable_names : list string)
  : result (attrs * list string) :=
  match fuel with
  | 0 => Diverge
  | S fuel' =>
      (fix each (i : nat) (cs : list node) (skip_next_var : bool)
         (st : attrs) (globals : list string) : result (attrs * list string) :=
         match cs with
         | [] => Ok (st, globals)
         | c :: rest =>
             if isinstance c JavascriptOperator then
               o <- output_as_string fuel' st (p ++ [i]) c ;;
               each (S i) rest (String.eqb (PyStr.strip o) ".") st globals
             else if isinstance c JavascriptVariable then
               if negb skip_next_var then
                 n <- output_as_string fuel' st (p ++ [i]) c ;;
                 match innermost_declaration st n parent_scopes with
                 | Some token =>
                     each (S i) rest skip_next_var
                       (link_to_variable st (p ++ [i]) token) globals
                 | None =>
                     each (S i) rest skip_next_var st (globals ++ [n])
                 end
               else each (S i) rest skip_next_var st globals
             else if isinstance c JavascriptScope then
               '(st', globals') <-
                 find_free_variables fuel' c (p ++ [i])
                   ((p ++ [i]) :: parent_scopes) st globals ;;
               each (S i) rest skip_next_var st' globals'
             else if isinstance c Token then
               '(st', globals') <-
                 find_free_variables fuel' c (p ++ [i]) parent_scopes
                   st globals ;;
               each (S i) rest skip_next_var st' globals'
             else each (S i) rest skip_next_var st globals
         end) 0 (children_of js_node) false st global_variable_names
  end.

(** [for s in js_node.symbol_table: ...]: the new names of one node. *)
Fixpoint rename_symbols (symbols : list (string * ref))
  (avoid_names : list string) (st : attrs) : result (list string * attrs) :=
  match symbols with
  | [] => Ok (avoid_names, st)
  | (_, token) :: rest =>
      '(new_name, extended) <- generate_varname avoid_names ;;
      rename_symbols rest (extended ++ [new_name])
        (set_variable_name st token new_name)
  end.

(** Every token of a tree that went through
    [_add_javascript_parser_extensions] has a [symbol_table], so the
    [hasattr] test holds. *)
Fixpoint rename_variables (fuel : nat) (js_node : node) (p : ref)
  (avoid_names : list string) (st : attrs) : result attrs :=
  match fuel with
  | 0 => Diverge
  | S fuel' =>
      '(avoid_names, st) <- rename_symbols (symbol_table st p) avoid_names st ;;
      (fix each (i : nat) (cs : list node) (st : attrs) : result attrs :=
         match cs with
         | [] => Ok st
         | c :: rest =>
             if isinstance c Token then
               st' <- rename_variables fuel' c (p ++ [i]) avoid_names st ;;
               each (S i) rest st'
             else each (S i) rest st
         end) 0 (children_of js_node) st
  end.

End Passes.

(** [_minify_variable_names(js_node)] *)
Definition _minify_variable_names (fuel : nat) (js_node : node) (st : attrs)
  : result attrs :=
  st1 <- find_variables js_node fuel js_node [] [] true st ;;
  st2 <- find_variables_2 js_node fuel js_node [] st1 ;;
  '(st3, global_variable_names) <-
    find_free_variables js_node fuel js_node [] [[]] st2 [] ;;
  rename_variables fuel js_node [] global_variable_names st3.

End Minify.

(* ================================================================== *)
(** ** [compile_javascript_string], up to the renaming

    The steps of [compile_javascript_string] before [fix_whitespace_bug]:
    the tree and the attributes of its tokens after tokenizing, class
    patching, validation, whitespace compression and renaming. *)
Definition compile_javascript_string (fuel : nat) (js_string : string)
  (path : string) : result (node * attrs) :=
  tree <- JS.tokenize_string fuel js_string path ;;
  tree <- _add_javascript_parser_extensions fuel tree ;;
  _ <- _validate_javascript fuel no_attrs tree ;;
  tree <- _compress_javascript_whitespace fuel tree ;;
  st <- Minify._minify_variable_names fuel tree no_attrs ;;
  Ok (tree, st).

(** [tree.output_as_string()] after these steps. *)
Definition compiled_output (fuel : nat) (js_string : string) : result string :=
  '(tree, st) <- compile_javascript_string fuel js_string EmptyString ;;
  output tree st fuel [] tree.


(* ================================================================== *)
(** ** Inputs used in the statements below *)

(** The spec's nesting scenario: tags [Begin], [A], [Else], [B], [End] on
    line 3 of [page.html], and the mapping
    [Begin -> (["Else", "End"], Container)]. *)
Module NestingExample.

Definition process_params : cls -> list node -> result unit := fun _ _ => Ok tt.

Definition tag (n : string) (column : nat) : node :=
  Tok (mkHeader n 3 column "page.html" Token) [Text n] [].

Definition Begin := tag "Begin" 1.
Definition A := tag "A" 10.
Definition Else := tag "Else" 20.
Definition B := tag "B" 30.
Definition End_ := tag "End" 40.

Definition Container : cls := UserClass "Container".

Definition mappings : mapping := [("Begin", (["Else"; "End"], Container))].

Definition root (children : list node) : node :=
  Tok (mkHeader "root" 1 1 "page.html" Token) children [].

Definition nest (fuel : nat) (children : list node) : result node :=
  nest_block_level_elements process_params fuel (root children)
    mappings [Token] None.

End NestingExample.

(** A script through the first steps of [compile_javascript_string]:
    tokenizing, class patching, validation. *)
Definition validate_string (fuel : nat) (js_string : string) : result unit :=
  tree <- JS.tokenize_string fuel js_string "script.js" ;;
  tree <- _add_javascript_parser_extensions fuel tree ;;
  _validate_javascript fuel no_attrs tree.

(** [global_variable_names] as [_minify_variable_names] has it when it
    starts renaming. *)
Definition global_variable_names (fuel : nat) (js_string : string)
  : result (list string) :=
  tree <- JS.tokenize_string fuel js_string "script.js" ;;
  tree <- _add_javascript_parser_extensions fuel tree ;;
  tree <- _compress_javascript_whitespace fuel tree ;;
  st1 <- Minify.find_variables tree fuel tree [] [] true no_attrs ;;
  st2 <- Minify.find_variables_2 tree fuel tree [] st1 ;;
  '(_, names) <- Minify.find_free_variables tree fuel tree [] [[]] st2 [] ;;
  Ok names.

(** A grammar with digits only, as in the spec's scenario without its
    operator rule: nothing matches at a [+]. *)
Module DigitsOnly.

Definition states : states_table :=
  [ ("root",
     [ (Re.Plus (Re.Cls (Re.between "0" "9")),
        [StartToken "Number"; Record_ None; Shift; StopToken None]) ]) ].

Definition root (children : list node) : node :=
  Tok (new_token "root" 1 1 "input") children [].

End DigitsOnly.

(** A script with a template block inside: the children of the script
    node are text and a [DjangoContainer] node, which [compile_javascript]
    has [tokenize] enter. *)
Module ScriptWithBlock.

Definition container (column : nat) (children : list node) : node :=
  Tok (mkHeader "django-if" 1 column "page.html" DjangoContainer) children [].

Definition root (children : list node) : node :=
  Tok (new_token "script" 1 1 "page.html") children [].

(** [tokenize(js_node, __JS_STATES, [HtmlContent], [DjangoContainer])] *)
Definition run (fuel : nat) (children : list node) (_root : bool) : result lexer :=
  tokenize fuel (root children) JS.__JS_STATES [HtmlContent] [DjangoContainer]
    None None _root.

(** [var s = <block>"</block>abc"]: the string opened inside the block is
    closed by the text after it. *)
Definition string_closed_outside : list node :=
  [ Text "var s = "; container 9 [Text JS.dquote]; Text ("abc" ++ JS.dquote) ].

(** The lexer of a call on [root] before its first child. *)
Definition start : lexer :=
  mkLexer ["root"]
    (mkTstack [mkFrame (new_token "script" 1 1 "page.html") [] []] None) 1 1 [].

End ScriptWithBlock.

(** ** Predicates used in the statements below *)

(** Every character of [s] satisfies [p]. *)
Fixpoint all_chars (p : ascii -> bool) (s : string) : bool :=
  match s with
  | EmptyString => true
  | String c rest => p c && all_chars p rest
  end.

(** A JavaScript identifier as the grammar reads it:
    [[a-zA-Z_$][a-zA-Z_$0-9]*]. *)
Definition is_identifier (w : string) : bool :=
  match w with
  | EmptyString => false
  | String c rest => JS.ident_start c && all_chars JS.ident_char rest
  end.

(** The text after an identifier: empty, or starting with a character that
    cannot continue an identifier. *)
Definition identifier_ends (t : string) : bool :=
  match t with
  | EmptyString => true
  | String c _ => negb (JS.ident_char c)
  end.

(** The tree [tokenize] makes of a script that is one token of kind [kind]
    spanning the text [w]. *)
Definition single_token (kind w path : string) : node :=
  Tok (new_token "root" 1 1 path)
    [Tok (new_token kind 1 1 path) [Text w] []] [].

(** The bottom node of an open-token stack. *)
Fixpoint bottom_is (hb : header) (fs : list frame) : Prop :=
  match fs with
  | [] => True
  | [f] => fheader f = hb
  | _ :: rest => bottom_is hb rest
  end.

(** An open-token stack that was started on the node with header [hb]: that
    node is at its bottom, or has been popped off and is kept aside. *)
Definition rooted (hb : header) (ts : tstack) : Prop :=
  bottom_is hb (frames ts) /\
  (frames ts = [] -> exists cs ex, detached ts = Some (Tok hb cs ex)).


(** A counter of the name generator all of whose numbers are letters. *)
Definition digits (c : list nat) : Prop := Forall (fun d => d < 26) c.


(** What the action loop keeps true: the match ends inside the text, and
    the cursor is where the [Shift] actions so far have moved it. *)
Definition cursor_ok (str : string) (base : nat) (cu : cursor) : Prop :=
  position cu + count cu <= PyStr.len str /\
  list_sum (advances (lx cu)) = base + position cu.

(* ================================================================== *)
(** ** The template grammar ([django_processor.py]) *)

Module Django.

Import Re.

(** [\{%\s*word\s*%\}] *)
Definition block_tag (word : string) : regex :=
  Seq (Lit "{%")
    (Seq (Star space) (Seq (Lit word) (Seq (Star space) (Lit "%}")))).

(** [([^{]|%|{(?![%#{]))+] *)
Definition content_pattern : regex :=
  Plus (Alt (noneof "{")
          (Alt (Lit "%") (Seq (Lit "{") (NotAhead (oneof "%#{"))))).

(** [([^\'"\s%}]+|"[^"]*"|\'[^\']*\')+]: a whole tag element as one token. *)
Definition element_pattern : regex :=
  Plus (Alt (Plus (Cls (fun c =>
                          negb (chr_in (JS.squote ++ JS.dquote ++ "%}") c
                                || PyStr.is_space c))))
          (Alt (Seq (Lit JS.dquote)
                  (Seq (Star (noneof JS.dquote)) (Lit JS.dquote)))
               (Seq (Lit JS.squote)
                  (Seq (Star (noneof JS.squote)) (Lit JS.squote))))).

Definition root_state : State :=
  [ (Lit "{#", [StartToken "django-comment"; Shift; Push "django-comment"]);
    (block_tag "comment",
     [StartToken "django-multiline-comment"; Shift;
      Push "django-multiline-comment"]);
    (Seq (Lit "{%") (Star space),
     [StartToken "django-tag"; Shift; Push "django-tag"]);
    (Seq (Lit "{{") (Star space),
     [StartToken "django-variable"; Shift; Push "django-variable"]);
    (content_pattern,
     [StartToken "content"; Record_ None; Shift; StopToken None]);
    (JS.anything, [Error "Error in parser"]) ].

Definition comment_state : State :=
  [ (Lit "#}", [StopToken None; Shift; Pop]);
    (Plus (noneof (JS.nl ++ "#")), [Record_ None; Shift]);
    (Lit JS.nl, [Error "No newlines allowed in django single line comment"]);
    (Seq (Lit "#") (NotAhead (Lit "}")), [Record_ None; Shift]);
    (JS.anything, [Error "Error in parser: comment"]) ].

(** The fourth pattern is [\{(?!\{%\s*endcomment\s*%\}|#)]: what the
    lookahead excludes after the brace starts with a second brace. *)
Definition multiline_comment_state : State :=
  [ (block_tag "endcomment", [StopToken None; Shift; Pop]);
    (Lit "{#", [StartToken "django-comment"; Shift; Push "django-comment"]);
    (Plus (noneof "{"), [Record_ None; Shift]);
    (Seq (Lit "{") (NotAhead (Alt (block_tag "endcomment") (Lit "#"))),
     [Record_ None; Shift]) ].

Definition tag_state (kind closing message : string) : State :=
  [ (element_pattern,
     [StartToken kind; Record_ None; Shift; StopToken None]);
    (Seq (Star space) (Lit closing), [StopToken None; Shift; Pop]);
    (Plus space, [Shift]);
    (JS.anything, [Error message]) ].

Definition __DJANGO_STATES : states_table :=
  [ ("root", root_state);
    ("django-comment", comment_state);
    ("django-multiline-comment", multiline_comment_state);
    ("django-tag",
     tag_state "django-tag-element" "%}" "Error in parser: django-tag");
    ("django-variable",
     tag_state "django-variable-part" "}}" "Error in parser: django-variable") ].

(** The first step of [parse]:
    [tree = Token(name='root', line=1, column=1, path=path);
    tree.children = [source_code]; tokenize(tree, __DJANGO_STATES, [Token])] *)
Definition tokenize_template (fuel : nat) (source_code : string) (path : string)
  : result node :=
  tokenized
    (tokenize fuel (Tok (new_token "root" 1 1 path) [Text source_code] [])
       __DJANGO_STATES [Token] [] None None true).

End Django.

(** ** Further predicates and measures *)

(** The number of newline characters of a text. *)
Fixpoint newlines (s : string) : nat :=
  match s with
  | EmptyString => 0
  | String ch rest =>
      (if Ascii.eqb ch Re.newline then 1 else 0) + newlines rest
  end.

(** The text after the last newline of [s], when [s] has a newline. *)
Fixpoint last_line (s : string) : option string :=
  match s with
  | EmptyString => None
  | String ch rest =>
      match last_line rest with
      | Some t => Some t
      | None => if Ascii.eqb ch Re.newline then Some rest else None
      end
  end.

(** The column reached from column [c] by reading [s]: the first column
    is 1, a newline starts a new line. *)
Definition column_after (c : nat) (s : string) : nat :=
  match last_line s with
  | Some t => S (String.length t)
  | None => c + String.length s
  end.

(** The text children of a node, concatenated. *)
Fixpoint text_of (input_nodes : list node) : string :=
  match input_nodes with
  | [] => EmptyString
  | Text s :: rest => (s ++ text_of rest)%string
  | Tok _ _ _ :: rest => text_of rest
  end.

(** The text between the quotes of a string literal that needs no escape:
    [[^quote\\]*]. *)
Definition string_body (quote : string) (body : string) : bool :=
  all_chars (fun c => negb (Re.chr_in (quote ++ JS.backslash) c)) body.

(** The body of a block comment without an asterisk: [[^*]*]. *)
Definition comment_body (body : string) : bool :=
  all_chars (fun c => negb (Re.chr_in "*" c)) body.

(** A child the nesting scan moves into the open block: a token that is no
    marker, with [c'] what its own nesting ([recurse]) makes of it. *)
Definition moved (mappings : mapping) (recurse : node -> result node)
  (markers : list string) (c c' : node) : Prop :=
  exists h cs ex,
    c = Tok h cs ex /\
    lookup (name h) mappings = None /\
    ~ In (name h) markers /\
    recurse c = Ok c'.

(** The height of a tree: a text fragment has height 0, a token is one
    higher than its highest child. *)
Fixpoint depth (n : node) : nat :=
  match n with
  | Text _ => 0
  | Tok _ children _ => S (list_max (map depth children))
  end.

(** [mappings[check(c)]] exists for a token [c] of one of [_classes]:
    the token would start a block. *)
Definition starts_block (mappings : mapping) (_classes : list cls)
  (check : header -> string) (c : node) : bool :=
  match c with
  | Text _ => false
  | Tok h _ _ =>
      isinstance_any c _classes &&
      match lookup (check h) mappings with
      | Some _ => true
      | None => false
      end
  end.

(** No token below [n] would start a block. *)
Fixpoint opens_no_block (mappings : mapping) (_classes : list cls)
  (check : header -> string) (n : node) : bool :=
  match n with
  | Text _ => true
  | Tok _ children _ =>
      forallb
        (fun c =>
           negb (starts_block mappings _classes check c)
           && opens_no_block mappings _classes check c)
        children
  end.

Definition is_shift (a : action) : bool :=
  match a with
  | Shift => true
  | _ => false
  end.

(** A grammar none of whose rules has more than one [Shift] action. *)
Definition shifts_once (states : states_table) : bool :=
  forallb
    (fun st =>
       forallb (fun rule => length (filter is_shift (snd rule)) <=? 1) (snd st))
    states.

(** Tokens of a script as [compile_javascript_string] has them after the
    class patching, all on line 1 of [script.js]. *)
Module ScriptTokens.

Definition tok (kind : string) (class_ : cls) (column : nat) (text : string)
  : node :=
  Tok (mkHeader kind 1 column "script.js" class_) [Text text] [].

Definition keyword := tok "js-keyword" JavascriptKeyword.
Definition variable := tok "js-varname" JavascriptVariable.
Definition operator := tok "js-operator" JavascriptOperator.
Definition whitespace := tok "js-whitespace" JavascriptWhiteSpace.

Definition scope (column : nat) (children : list node) : node :=
  Tok (mkHeader "js-scope" 1 column "script.js" JavascriptScope) children [].

Definition root (children : list node) : node :=
  Tok (new_token "root" 1 1 "script.js") children [].

(** [function f(a,b){return a;}] *)
Definition function_with_parameters : node :=
  root [ keyword 1 "function"; whitespace 9 " "; variable 10 "f";
         operator 11 "("; variable 12 "a"; operator 13 ","; variable 14 "b";
         operator 15 ")";
         scope 16 [ keyword 17 "return"; whitespace 23 " "; variable 24 "a";
                    operator 25 ";" ] ].

(** [var x;{var y;}] *)
Definition declarations_at_two_levels : node :=
  root [ keyword 1 "var"; whitespace 4 " "; variable 5 "x"; operator 6 ";";
         scope 7 [ keyword 8 "var"; whitespace 11 " "; variable 12 "y";
                   operator 13 ";" ] ].



End ScriptTokens.

(** What a declaration pass that was called on the node [p] may do to the
    attributes: names and links stay; a token that is in a symbol table
    afterwards was there before or lies below [p], and not directly below
    it when the pass treats [p] as the root node. *)
Definition declares_below (p : ref) (in_root_node : bool) (st st' : attrs)
  : Prop :=
  varname st' = varname st /\
  link_to st' = link_to st /\
  forall scope q,
    In q (map snd (symbol_table st' scope)) ->
    In q (map snd (symbol_table st scope)) \/
    exists i r, q = p ++ i :: r /\ (in_root_node = true -> r <> []).

(** What the pass over the uses of names may do: tables and names stay, the
    list of free names grows at its end, and a link that is new points to a
    token that some symbol table names. *)
Definition links_to_declared (st st' : attrs) (globals globals' : list string)
  : Prop :=
  symbol_table st' = symbol_table st /\
  varname st' = varname st /\
  (exists more, globals' = globals ++ more) /\
  forall q t,
    link_to st' q = Some t ->
    link_to st q = Some t \/
    exists scope, In t (map snd (symbol_table st scope)).

(** The attributes of [ScriptTokens.function_with_parameters] after the
    renaming: both parameters are declared in the scope of the body, the
    use of [a] in the body is linked to the parameter, and the parameters
    are named [c] and [d], the first names that are not free in the
    script. *)
Definition function_with_parameters_renamed : attrs :=
  set_variable_name
    (set_variable_name
       (link_to_variable (declare (declare no_attrs [8] "a" [4]) [8] "b" [6])
          [8; 2] [4])
       [4] "c")
    [6] "d".






(* ================================================================== *)
(** * Properties *)

(** ** Auxiliary facts *)

Lemma mem_In x l : PyStr.mem x l = true <-> In x l.
Proof.
  unfold PyStr.mem. rewrite existsb_exists. split.
  - intros (y & Hy & E). apply String.eqb_eq in E. now subst.
  - intros H. exists x. split; [assumption | apply String.eqb_refl].
Qed.

Lemma mem_false x l : PyStr.mem x l = false <-> ~ In x l.
Proof.
  rewrite <- mem_In. destruct (PyStr.mem x l); split; intros; congruence.
Qed.

Lemma drop_length n s : PyStr.len (PyStr.drop n s) = PyStr.len s - n.
Proof.
  revert s. induction n as [|n IH]; intros s; simpl.
  - unfold PyStr.len. lia.
  - destruct s; simpl; [reflexivity | apply IH].
Qed.

Lemma ref_eqb_eq p q : ref_eqb p q = true <-> p = q.
Proof.
  revert q.
  induction p as [|a p IH]; intros [|b q]; simpl; try (split; congruence).
  rewrite andb_true_iff, Nat.eqb_eq, IH. split.
  - intros [-> ->]. reflexivity.
  - intros E. injection E as -> ->. split; reflexivity.
Qed.


Lemma issubclass_Token c : issubclass c Token = true.
Proof.
  destruct c; try reflexivity.
  unfold issubclass. simpl. apply orb_true_r.
Qed.

Lemma last_item_In l e : last_item l = Ok e -> In e l.
Proof.
  unfold last_item. intros H. apply in_rev.
  destruct (rev l) as [|x r]; [discriminate|].
  injection H as ->. now left.
Qed.

Lemma last_item_nonempty l : l <> [] -> exists e, last_item l = Ok e.
Proof.
  unfold last_item. intros H.
  destruct (rev l) as [|x r] eqn:E.
  - apply (f_equal (@rev string)) in E. rewrite rev_involutive in E.
    contradiction.
  - now exists x.
Qed.

Lemma but_last_In x l : In x (but_last l) -> In x l.
Proof.
  unfold but_last. induction l as [|a l IH]; simpl; [tauto|].
  destruct l as [|b l]; simpl in *; [tauto|].
  intros [->|H]; [now left | right; now apply IH].
Qed.

(* ================================================================== *)
(** ** Block nesting *)

Section NestingFacts.

Variable process_params : cls -> list node -> result unit.
Variable mappings : mapping.
Variable recurse : node -> result node.


End NestingFacts.




(** C1.  On [Begin, A, Else, B, End] the scan reaches the [Else] marker and
    the source then reads the unbound name [end_tag]: the call ends in a
    [NameError] and no [Container] node with two child lists is produced.
    On [Begin, A, End] the result is one [Container] node with children
    [A] and no further child list. *)
Theorem nest_else_marker_raises_name_error (fuel : nat) :
  NestingExample.nest (S (S fuel))
    [NestingExample.Begin; NestingExample.A; NestingExample.Else;
     NestingExample.B; NestingExample.End_]
  = Raise (NameError "end_tag")
  /\
  NestingExample.nest (S (S fuel))
    [NestingExample.Begin; NestingExample.A; NestingExample.End_]
  = Ok (NestingExample.root
          [Tok (mkHeader "Begin" 3 1 "page.html" NestingExample.Container)
             [NestingExample.A] []]).
Proof.
  split; reflexivity.
Qed.

(* ================================================================== *)
(** ** Validation *)

(** C9.  The trailing comma of [var x = { y: 1, }] is rejected, with the
    position of the comma token (line 1, column 15).  The script
    [var x = 1 var y = 2] is accepted: both loops of
    [_validate_javascript] run over the [JavascriptScope] nodes below the
    root only, and this script has none.  The same two declarations inside
    braces are rejected at the second [var] (line 1, column 13). *)
Theorem validation_misses_root_level_statements :
  validate_string 64 "var x = { y: 1, }"
  = Raise (CompileException 1 15 "script.js"
      "Please remove colon at the end of Javascript object (not supported by IE6 and IE7)")
  /\
  validate_string 64 "var x = 1 var y = 2" = Ok tt
  /\
  validate_string 64 "{ var x = 1 var y = 2 }"
  = Raise (CompileException 1 13 "script.js"
      "Missing semicolon detected. Please check your Javascript code.").
Proof.
  repeat split; vm_compute; reflexivity.
Qed.

(* ================================================================== *)
(** ** Scopes and renaming on whole scripts *)

(** C6.  In [q.b in a; { var x = 1; }] the free identifier [a] follows the
    member [b] with no operator token in between.  [skip_next_var], set by
    the dot, is still set when the walk reaches [a], so [a] is not recorded
    in [global_variable_names]; the local [x] is then renamed to [a].  When
    an operator separates the two, as in [window.b = a; ...], [a] is
    recorded and avoided. *)
Theorem free_name_after_member_is_not_avoided :
  global_variable_names 64 "q.b in a; { var x = 1; }" = Ok ["q"]
  /\
  compiled_output 64 "q.b in a; { var x = 1; }" = Ok "q.b in a;{var a=1;}"
  /\
  global_variable_names 64 "window.b = a; { var x = 1; }" = Ok ["window"; "a"]
  /\
  compiled_output 64 "window.b = a; { var x = 1; }" = Ok "window.b=a;{var b=1;}".
Proof.
  repeat split; vm_compute; reflexivity.
Qed.


(* ================================================================== *)
(** ** The name generator *)

Section NameGenerator.

Import Minify.

Lemma overflow_no_carry c : digits c -> overflow c 0 = c.
Proof.
  induction 1 as [|d rest Hd _ IH]; simpl; [reflexivity|].
  rewrite Nat.add_0_r.
  destruct (Nat.eqb_spec d 26); [lia|]. now rewrite IH.
Qed.

(** One round of the loop moves the counter to the next rank and keeps its
    numbers below 26. *)
Lemma increment_rank c :
  digits c -> c <> [] ->
  rank (increment c) = S (rank c) /\ digits (increment c) /\ increment c <> [].
Proof.
  unfold increment. induction 1 as [|d rest Hd Hrest IH]; intros Hne.
  - contradiction.
  - cbn [overflow]. destruct (Nat.eqb_spec (d + 1) 26) as [E|E].
    + destruct rest as [|d' rest'].
      * simpl. repeat split; try lia; try discriminate.
        repeat constructor; lia.
      * destruct IH as (IH1 & IH2 & IH3); [discriminate|].
        cbn [rank]. rewrite IH1. cbn [rank]. repeat split; try lia; try discriminate.
        constructor; [lia | assumption].
    + rewrite (overflow_no_carry Hrest). cbn [rank].
      repeat split; try lia; try discriminate.
      constructor; [lia | assumption].
Qed.

Lemma counter_rank k :
  rank (counter k) = S k /\ digits (counter k) /\ counter k <> [].
Proof.
  induction k as [|k (IH1 & IH2 & IH3)].
  - simpl. repeat split; try discriminate. repeat constructor.
  - change (counter (S k)) with (increment (counter k)).
    destruct (increment_rank IH2 IH3) as (H1 & H2 & H3).
    rewrite H1, IH1. auto.
Qed.

Lemma letter_char d :
  d < 26 -> letter d = String (ascii_of_nat (97 + d)) EmptyString.
Proof.
  intros H. do 26 (destruct d as [|d]; [reflexivity|]). lia.
Qed.

Lemma letter_injective d e : d < 26 -> e < 26 -> letter d = letter e -> d = e.
Proof.
  intros Hd He. rewrite (letter_char Hd), (letter_char He). intros E.
  injection E as E.
  apply (f_equal nat_of_ascii) in E.
  rewrite !nat_ascii_embedding in E by lia. lia.
Qed.

Lemma output_name_cons d rest :
  d < 26 ->
  output_name (d :: rest) = String (ascii_of_nat (97 + d)) (output_name rest).
Proof.
  intros Hd. unfold output_name. cbn [map String.concat].
  rewrite (letter_char Hd). destruct (map letter rest); reflexivity.
Qed.

Lemma output_name_injective c1 c2 :
  digits c1 -> digits c2 -> output_name c1 = output_name c2 -> c1 = c2.
Proof.
  intros H1. revert c2.
  induction H1 as [|d rest Hd _ IH]; intros c2 H2 E.
  - destruct H2 as [|e rest2 He _]; [reflexivity|].
    rewrite (output_name_cons _ He) in E. discriminate.
  - destruct H2 as [|e rest2 He Hrest2].
    + rewrite (output_name_cons _ Hd) in E. discriminate.
    + rewrite (output_name_cons _ Hd), (output_name_cons _ He) in E.
      injection E as E1 E2.
      apply (f_equal nat_of_ascii) in E1.
      rewrite !nat_ascii_embedding in E1 by lia.
      f_equal; [lia | now apply IH].
Qed.

(** The loop never looks at the same name twice. *)
Lemma candidate_injective i j : candidate i = candidate j -> i = j.
Proof.
  unfold candidate. intros E.
  destruct (counter_rank i) as (Ri & Di & _).
  destruct (counter_rank j) as (Rj & Dj & _).
  apply (output_name_injective Di Dj) in E. rewrite E in Ri. lia.
Qed.

Lemma candidates_NoDup n : NoDup (map candidate (seq 0 n)).
Proof.
  apply Injective_map_NoDup.
  - intros i j. apply candidate_injective.
  - apply seq_NoDup.
Qed.

(** Either the first [n] candidates are all in use, or there is a first
    one that is not. *)
Lemma first_free_or_all_used (used : list string) n :
  (forall j, j < n -> In (candidate j) used) \/
  (exists k, k < n /\ ~ In (candidate k) used /\
             forall j, j < k -> In (candidate j) used).
Proof.
  induction n as [|n [IH|(k & Hk & Hfree & Hmin)]].
  - left. intros j Hj. lia.
  - destruct (in_dec string_dec (candidate n) used) as [Hin|Hout].
    + left. intros j Hj. destruct (Nat.eq_dec j n) as [->|]; [assumption|].
      apply IH. lia.
    + right. exists n. repeat split; [lia | assumption |].
      intros j Hj. now apply IH.
  - right. exists k. repeat split; [lia | assumption | assumption].
Qed.

(** A list of [n] names cannot hold the first [n + 1] candidates. *)
Lemma first_free_exists (used : list string) :
  exists k, k < S (length used) /\ ~ In (candidate k) used /\
            forall j, j < k -> In (candidate j) used.
Proof.
  destruct (first_free_or_all_used used (S (length used))) as [Hall|H];
    [exfalso | assumption].
  assert (Hincl : incl (map candidate (seq 0 (S (length used)))) used).
  { intros x Hx. apply in_map_iff in Hx. destruct Hx as (j & <- & Hj).
    apply in_seq in Hj. apply Hall. lia. }
  apply NoDup_incl_length in Hincl; [|apply candidates_NoDup].
  rewrite length_map, length_seq in Hincl. lia.
Qed.

Lemma generate_loop_finds (used : list string) k :
  ~ In (candidate k) used ->
  (forall j, j < k -> In (candidate j) used) ->
  forall fuel i, i <= k -> k - i < fuel ->
    generate_loop fuel used (counter i) = Ok (candidate k).
Proof.
  intros Hfree Hmin. induction fuel as [|fuel IH]; intros i Hi Hfuel; [lia|].
  cbn [generate_loop]. fold (candidate i).
  destruct (Nat.eq_dec i k) as [->|Hne].
  - apply mem_false in Hfree. now rewrite Hfree.
  - assert (Hin : In (candidate i) used) by (apply Hmin; lia).
    apply mem_In in Hin. rewrite Hin.
    change (increment (counter i)) with (counter (S i)).
    apply IH; lia.
Qed.

End NameGenerator.

(** [generate_varname] always returns, and what it returns is the first
    candidate outside the given list and outside [__JS_KEYWORDS]. *)
Lemma generate_varname_returns (avoid_names : list string) :
  exists k,
    Minify.generate_varname avoid_names
    = Ok (Minify.candidate k, avoid_names ++ JS.__JS_KEYWORDS) /\
    ~ In (Minify.candidate k) avoid_names /\
    ~ In (Minify.candidate k) JS.__JS_KEYWORDS /\
    (forall j, j < k ->
       In (Minify.candidate j) (avoid_names ++ JS.__JS_KEYWORDS)).
Proof.
  destruct (first_free_exists (avoid_names ++ JS.__JS_KEYWORDS))
    as (k & Hk & Hfree & Hmin).
  exists k. unfold Minify.generate_varname.
  rewrite (@generate_loop_finds _ k Hfree Hmin _ 0) by lia.
  cbn [bind]. repeat split.
  - intros H. apply Hfree. apply in_or_app. now left.
  - intros H. apply Hfree. apply in_or_app. now right.
  - assumption.
Qed.





(** Renaming the symbols of one table leaves the other tokens alone. *)
Lemma rename_symbols_elsewhere symbols :
  forall avoid_names st avoid_names' st' q,
    Minify.rename_symbols symbols avoid_names st = Ok (avoid_names', st') ->
    ~ In q (map snd symbols) ->
    varname st' q = varname st q.
Proof.
  induction symbols as [|[s token] rest IH]; intros a st a' st' q H Hq.
  - now injection H as _ <-.
  - cbn [Minify.rename_symbols] in H.
    destruct (generate_varname_returns a) as (k & E & _).
    rewrite E in H. cbn [bind] in H.
    rewrite (IH _ _ _ _ q H) by (intros Hin; apply Hq; now right).
    cbn [set_variable_name varname]. unfold update.
    destruct (ref_eqb q token) eqn:Eq; [|reflexivity].
    apply ref_eqb_eq in Eq. subst q. exfalso. apply Hq. now left.
Qed.






(* ================================================================== *)
(** ** The lexer engine: consumption of the text *)

Lemma re_match_le r s n : Re.re_match r s = Some n -> n <= String.length s.
Proof.
  unfold Re.re_match. destruct (Re.alts r s); [discriminate|].
  intros H. injection H as <-. lia.
Qed.

Lemma first_match_le rules s n acts :
  first_match rules s = Some (n, acts) -> n <= String.length s.
Proof.
  induction rules as [|[r a] rules IH]; simpl; [discriminate|].
  destruct (Re.re_match r s) as [m|] eqn:E.
  - intros H. injection H as <- _. now apply re_match_le in E.
  - exact IH.
Qed.

Lemma exec_action_cursor_ok tree_path str base a cu cu' :
  cursor_ok str base cu ->
  exec_action tree_path str a cu = Ok cu' ->
  cursor_ok str base cu'.
Proof.
  unfold cursor_ok. intros [H1 H2] E.
  destruct a; cbn [exec_action] in E.
  - destruct (append_top (token_stack (lx cu)) _); try discriminate.
    injection E as <-. now split.
  - destruct (advance _ _ _ _) as [[l' c'] content'].
    injection E as <-. cbn. fold (list_sum (advances (lx cu))). split; lia.
  - injection E as <-. now split.
  - destruct (state_stack (lx cu)); try discriminate.
    injection E as <-. now split.
  - destruct (frames (token_stack (lx cu))); try discriminate.
    injection E as <-. now split.
  - destruct (truthy state_name), (frames (token_stack (lx cu))) eqn:F;
      try discriminate.
    + destruct (negb _); try discriminate.
      destruct (pop_token _); try discriminate.
      injection E as <-. now split.
    + destruct (pop_token _); try discriminate.
      injection E as <-. now split.
    + destruct (pop_token _); try discriminate.
      injection E as <-. now split.
  - discriminate.
Qed.

Lemma exec_actions_cursor_ok tree_path str base acts :
  forall cu cu',
    cursor_ok str base cu ->
    exec_actions tree_path str acts cu = Ok cu' ->
    cursor_ok str base cu'.
Proof.
  induction acts as [|a acts IH]; intros cu cu' H E; cbn [exec_actions] in E.
  - now injection E as <-.
  - destruct (exec_action tree_path str a cu) as [cu1| |] eqn:E1;
      try discriminate.
    cbn [bind] in E. eapply IH; [|exact E].
    eapply exec_action_cursor_ok; eassumption.
Qed.

(** A text run that is lexed to the end has been shifted over entirely. *)
Lemma lex_string_consumes states tree_path str base fuel :
  forall l pos l' pos',
    pos <= PyStr.len str ->
    list_sum (advances l) = base + pos ->
    lex_string fuel states tree_path str l pos = Ok (l', pos') ->
    pos' = PyStr.len str /\ list_sum (advances l') = base + PyStr.len str.
Proof.
  induction fuel as [|fuel IH]; intros l pos l' pos' Hpos Hsum E;
    [discriminate|].
  cbn [lex_string] in E.
  destruct (Nat.ltb_spec pos (PyStr.len str)) as [Hlt|Hge].
  - destruct (state_stack l) as [|current below]; try discriminate.
    destruct (lookup current states) as [rules|]; try discriminate.
    destruct (first_match rules (PyStr.drop pos str)) as [[cnt acts]|] eqn:M.
    + destruct (exec_actions tree_path str acts _) as [cu| |] eqn:A;
        try discriminate.
      cbn [bind] in E.
      apply first_match_le in M. fold (PyStr.len (PyStr.drop pos str)) in M.
      rewrite drop_length in M.
      apply (@exec_actions_cursor_ok _ _ base) in A;
        [|unfold cursor_ok; cbn; split; [lia | assumption]].
      destruct A as [A1 A2]. eapply IH; [| exact A2 | exact E]. lia.
    + exact (IH l pos l' pos' Hpos Hsum E).
  - injection E as <- <-. split; [lia|]. rewrite Hsum. f_equal. lia.
Qed.

(** Without a matching rule the loop comes back to where it was. *)
Lemma lex_string_stuck states tree_path str l pos current below rules :
  state_stack l = current :: below ->
  lookup current states = Some rules ->
  first_match rules (PyStr.drop pos str) = None ->
  pos < PyStr.len str ->
  forall fuel, lex_string fuel states tree_path str l pos = Diverge.
Proof.
  intros Hs Hl Hm Hpos. induction fuel as [|fuel IH]; [reflexivity|].
  cbn [lex_string]. apply Nat.ltb_lt in Hpos. rewrite Hpos, Hs, Hl, Hm.
  exact IH.
Qed.

Lemma concat_strings_texts fragments :
  concat_strings (map Text fragments)
  = match fragments with
    | [] => []
    | _ :: _ => [Text (String.concat EmptyString fragments)]
    end.
Proof.
  induction fragments as [|a rest IH]; [reflexivity|].
  cbn [map concat_strings]. rewrite IH.
  destruct rest; reflexivity.
Qed.

(** C2, as the code has it.  When a call on a node whose children are text
    fragments returns, the [Shift] actions have advanced the cursor by the
    length of the concatenated fragments in total.  When no rule of the
    active state matches at the cursor and text is left, the loop does not
    end, whatever the fuel: it neither returns nor raises. *)
Theorem tokenize_consumes_text_or_loops :
  (forall fuel h fragments extra states replace enter _root l,
     tokenize fuel (Tok h (map Text fragments) extra) states replace enter
       None None _root = Ok l ->
     list_sum (advances l)
     = String.length (String.concat EmptyString fragments))
  /\
  (forall states tree_path str l pos current below rules,
     state_stack l = current :: below ->
     lookup current states = Some rules ->
     first_match rules (PyStr.drop pos str) = None ->
     pos < PyStr.len str ->
     forall fuel, lex_string fuel states tree_path str l pos = Diverge).
Proof.
  split; [|exact lex_string_stuck].
  intros [|fuel] h fragments extra states replace enter _root l E;
    [discriminate|].
  cbn [tokenize] in E. rewrite concat_strings_texts in E.
  destruct fragments as [|a rest].
  - cbn [input_loop bind list_or tstack_or frames] in E.
    destruct _root; cbn in E; injection E as <-; reflexivity.
  - cbn [input_loop] in E.
    destruct (lex_string fuel states (path h)
                (String.concat EmptyString (a :: rest)) _ 0)
      as [[l1 p1]| |] eqn:L; try discriminate.
    cbn [bind] in E.
    apply (@lex_string_consumes _ _ _ 0) in L; [|lia|reflexivity].
    destruct L as [_ L].
    assert (l = l1) as ->; [|exact L].
    destruct _root; [|now injection E].
    destruct (frames (token_stack l1)) as [|f [|g fs]]; try discriminate.
    now injection E.
Qed.

Lemma tokenize_consumes_text_or_loops_witness :
  (exists l,
     tokenize 5 (DigitsOnly.root [Text "12"; Text "3"]) DigitsOnly.states
       [] [] None None true = Ok l /\
     list_sum (advances l) = 3)
  /\
  lex_string 7 DigitsOnly.states "input" "12+3"
    (mkLexer ["root"] (mkTstack [mkFrame (new_token "root" 1 1 "input") [] []] None)
       1 3 [2]) 2
  = Diverge.
Proof.
  destruct tokenize_consumes_text_or_loops as [Hconsume Hstuck].
  split.
  - destruct (tokenize 5 (DigitsOnly.root [Text "12"; Text "3"])
                DigitsOnly.states [] [] None None true) as [l| |] eqn:E;
      try (vm_compute in E; discriminate).
    exists l. split; [reflexivity|].
    apply (Hconsume 5 (new_token "root" 1 1 "input") ["12"; "3"] []
             DigitsOnly.states [] [] true l E).
  - apply (Hstuck DigitsOnly.states "input" "12+3" _ 2 "root" []
             [ (Re.Plus (Re.Cls (Re.between "0" "9")),
                [StartToken "Number"; Record_ None; Shift; StopToken None]) ]).
    + reflexivity.
    + reflexivity.
    + reflexivity.
    + vm_compute. lia.
Defined.

(** C2, as the claim words it: unconsumed text without a matching rule
    would end in a parser error.  With the digits-only grammar the text
    [12+3] has no rule at [+], and no amount of fuel makes the call raise
    (or return). *)
Lemma tokenize_without_matching_rule_never_raises :
  ~ (exists fuel e,
       tokenize fuel (DigitsOnly.root [Text "12+3"]) DigitsOnly.states
         [] [] None None true = Raise e).
Proof.
  intros (fuel & e & H).
  destruct fuel as [|[|fuel]]; try discriminate.
  cbn [tokenize DigitsOnly.root concat_strings input_loop lex_string] in H.
  change (0 <? PyStr.len "12+3") with true in H.
  cbv iota beta in H.
  cbn [list_or tstack_or frames state_stack lookup DigitsOnly.states String.eqb
       Ascii.eqb Bool.eqb] in H.
  change (first_match _ (PyStr.drop 0 "12+3"))
    with (Some (2, [StartToken "Number"; Record_ None; Shift; StopToken None]))
    in H.
  cbv iota beta in H.
  match type of H with
  | context [exec_actions ?p ?s ?a ?c] =>
      let r := eval vm_compute in (exec_actions p s a c) in
      change (exec_actions p s a c) with r in H
  end.
  cbn [bind lx position] in H.
  rewrite (@lex_string_stuck DigitsOnly.states _ "12+3" _ 2 "root" []
             [ (Re.Plus (Re.Cls (Re.between "0" "9")),
                [StartToken "Number"; Record_ None; Shift; StopToken None]) ])
    in H; try reflexivity; [discriminate | vm_compute; lia].
Qed.

(* ================================================================== *)
(** ** The lexer engine: the open-token stack *)

Lemma bottom_is_push hb f fs :
  fs <> [] -> bottom_is hb fs -> bottom_is hb (f :: fs).
Proof. destruct fs; [contradiction | auto]. Qed.

Lemma bottom_is_append hb top c below :
  bottom_is hb (top :: below) -> bottom_is hb (append top c :: below).
Proof. destruct below; auto. Qed.

Lemma append_top_rooted hb ts c ts' :
  rooted hb ts -> append_top ts c = Ok ts' -> rooted hb ts'.
Proof.
  unfold append_top, rooted. intros [Hb Hd] E.
  destruct (frames ts) as [|top below] eqn:F; [discriminate|].
  injection E as <-. cbn [frames detached]. split.
  - now apply bottom_is_append.
  - discriminate.
Qed.

Lemma pop_token_rooted hb ts ts' :
  rooted hb ts -> pop_token ts = Ok ts' -> rooted hb ts'.
Proof.
  unfold pop_token, rooted. intros [Hb Hd] E.
  destruct (frames ts) as [|top [|parent below]] eqn:F; try discriminate;
    injection E as <-; cbn [frames detached].
  - split; [exact I|]. intros _. cbn in Hb. subst hb.
    exists (fchildren top), (fextra top). reflexivity.
  - split; [|discriminate].
    apply bottom_is_append. exact Hb.
Qed.

Lemma exec_action_rooted hb tree_path str a cu cu' :
  rooted hb (token_stack (lx cu)) ->
  exec_action tree_path str a cu = Ok cu' ->
  rooted hb (token_stack (lx cu')).
Proof.
  intros H E. destruct a; cbn [exec_action] in E.
  - destruct (append_top _ _) as [ts| |] eqn:A; try discriminate.
    injection E as <-. cbn. eapply append_top_rooted; eassumption.
  - destruct (advance _ _ _ _) as [[l' c'] content'].
    injection E as <-. exact H.
  - injection E as <-. exact H.
  - destruct (state_stack (lx cu)); try discriminate.
    injection E as <-. exact H.
  - destruct (frames (token_stack (lx cu))) as [|f fs] eqn:F;
      try discriminate.
    injection E as <-. cbn. destruct H as [Hb Hd]. split.
    + cbn [frames]. apply bottom_is_push; [discriminate|].
      now rewrite F in Hb.
    + discriminate.
  - assert (P : forall ts, pop_token (token_stack (lx cu)) = Ok ts ->
                           rooted hb ts)
      by (intros ts; now apply pop_token_rooted).
    destruct (truthy state_name), (frames (token_stack (lx cu)));
      try discriminate.
    + destruct (negb _); try discriminate.
      destruct (pop_token _) as [ts| |]; try discriminate.
      injection E as <-. now apply P.
    + destruct (pop_token _) as [ts| |]; try discriminate.
      injection E as <-. now apply P.
    + destruct (pop_token _) as [ts| |]; try discriminate.
      injection E as <-. now apply P.
  - discriminate.
Qed.

Lemma exec_actions_rooted hb tree_path str acts :
  forall cu cu',
    rooted hb (token_stack (lx cu)) ->
    exec_actions tree_path str acts cu = Ok cu' ->
    rooted hb (token_stack (lx cu')).
Proof.
  induction acts as [|a acts IH]; intros cu cu' H E; cbn [exec_actions] in E.
  - now injection E as <-.
  - destruct (exec_action tree_path str a cu) as [cu1| |] eqn:E1;
      try discriminate.
    cbn [bind] in E. eapply IH; [|exact E].
    eapply exec_action_rooted; eassumption.
Qed.

Lemma lex_string_rooted hb states tree_path str fuel :
  forall l pos l' pos',
    rooted hb (token_stack l) ->
    lex_string fuel states tree_path str l pos = Ok (l', pos') ->
    rooted hb (token_stack l').
Proof.
  induction fuel as [|fuel IH]; intros l pos l' pos' H E; [discriminate|].
  cbn [lex_string] in E.
  destruct (pos <? PyStr.len str).
  - destruct (state_stack l) as [|current below]; try discriminate.
    destruct (lookup current states) as [rules|]; try discriminate.
    destruct (first_match rules (PyStr.drop pos str)) as [[cnt acts]|].
    + destruct (exec_actions tree_path str acts _) as [cu| |] eqn:A;
        try discriminate.
      cbn [bind] in E. eapply IH; [|exact E].
      eapply exec_actions_rooted; [|exact A]. exact H.
    + eapply IH; eassumption.
  - now injection E as <- _.
Qed.

Section LoopRooted.

Variable states : states_table.
Variable replace enter : list cls.
Variable tree_path : string.
Variable fuel : nat.
Variable recurse : node -> option (list string) -> option tstack -> result lexer.

Hypothesis recurse_rooted :
  forall h cs ex ss ts r hb,
    recurse (Tok h cs ex) ss ts = Ok r ->
    rooted hb (tstack_or ts (mkTstack [mkFrame h [] ex] None)) ->
    rooted hb (token_stack r).

Lemma input_loop_rooted hb input_nodes :
  forall l l',
    rooted hb (token_stack l) ->
    input_loop states replace enter tree_path fuel recurse input_nodes l = Ok l' ->
    rooted hb (token_stack l').
Proof.
  induction input_nodes as [|n rest IH]; intros l l' H E; cbn [input_loop] in E.
  - now injection E as <-.
  - destruct n as [str|h cs ex].
    + destruct (lex_string fuel states tree_path str l 0) as [[l1 p1]| |] eqn:L;
        try discriminate.
      cbn [bind] in E. eapply IH; [|exact E].
      eapply lex_string_rooted; eassumption.
    + destruct (isinstance_any (Tok h cs ex) replace).
      * destruct (recurse _ _ _) as [r| |] eqn:R; try discriminate.
        cbn [bind] in E. eapply IH; [|exact E].
        cbn [token_stack]. unfold shared_tokens.
        destruct (frames (token_stack l)) as [|f fs] eqn:F; [exact H|].
        eapply recurse_rooted; [exact R|].
        unfold tstack_or. now rewrite F.
      * destruct (isinstance_any (Tok h cs ex) enter).
        -- destruct (recurse _ _ _) as [r| |] eqn:R; try discriminate.
           cbn [bind] in E.
           destruct (built (token_stack r)) as [entered|]; try discriminate.
           destruct (append_top (token_stack l) entered) as [ts| |] eqn:A;
             try discriminate.
           cbn [bind] in E. eapply IH; [|exact E].
           cbn [token_stack]. eapply append_top_rooted; eassumption.
        -- destruct (append_top (token_stack l) (Tok h cs ex)) as [ts| |] eqn:A;
             try discriminate.
           cbn [bind] in E. eapply IH; [|exact E].
           cbn. eapply append_top_rooted; eassumption.
Qed.

End LoopRooted.

(** A call leaves the token stack it worked on started on the same node. *)
Lemma tokenize_rooted fuel :
  forall h cs ex states replace enter _state_stack _token_stack _root l hb,
    tokenize fuel (Tok h cs ex) states replace enter
      _state_stack _token_stack _root = Ok l ->
    rooted hb (tstack_or _token_stack (mkTstack [mkFrame h [] ex] None)) ->
    rooted hb (token_stack l).
Proof.
  induction fuel as [|fuel IH];
    intros h cs ex states replace enter ss ts _root l hb E H; [discriminate|].
  cbn [tokenize] in E.
  match type of E with
  | bind (input_loop ?s ?r ?e ?p ?f ?rec ?i ?l0) _ = _ =>
      destruct (input_loop s r e p f rec i l0) as [l1| |] eqn:L;
      try discriminate;
      apply (@input_loop_rooted s r e p f rec) with (hb := hb) in L;
      [| intros; eapply IH; eassumption | exact H]
  end.
  cbn [bind] in E.
  assert (l = l1) as ->; [|exact L].
  destruct _root; [|now injection E].
  destruct (frames (token_stack l1)) as [|f [|g fs]]; try discriminate.
  now injection E.
Qed.

Lemma close_onto_header below :
  forall top hb,
    bottom_is hb (top :: below) ->
    exists cs ex, close_onto top below = Tok hb cs ex.
Proof.
  induction below as [|parent rest IH]; intros top hb H.
  - cbn in *. subst. now exists (fchildren top), (fextra top).
  - cbn [close_onto]. apply IH. apply bottom_is_append. exact H.
Qed.

(** What a token stack has built is the node it was started on. *)
Lemma built_rooted hb ts :
  rooted hb ts -> exists cs ex, built ts = Some (Tok hb cs ex).
Proof.
  unfold built, rooted. intros [Hb Hd].
  destruct (frames ts) as [|top below].
  - now apply Hd.
  - destruct (@close_onto_header below top hb Hb) as (cs & ex & E).
    exists cs, ex. cbn. now rewrite E.
Qed.

(** C8, as the code has it.  A top-level call that returns leaves the
    open-token stack holding one node, the root it was called on.  When the
    run ends with nodes still open above the root, the call raises
    [CompileException] with the position of the innermost open node and the
    message "<kind> not terminated".  (The run before the final check is the
    same call with [_root=False].) *)
Theorem top_level_call_checks_open_tokens :
  (forall fuel h cs ex states replace enter l,
     tokenize fuel (Tok h cs ex) states replace enter None None true = Ok l ->
     exists f, frames (token_stack l) = [f] /\ fheader f = h)
  /\
  (forall fuel h cs ex states replace enter l top next below,
     tokenize fuel (Tok h cs ex) states replace enter None None false = Ok l ->
     frames (token_stack l) = top :: next :: below ->
     tokenize fuel (Tok h cs ex) states replace enter None None true
     = Raise (CompileException (line (fheader top)) (column (fheader top))
                (path (fheader top))
                (name (fheader top) ++ " not terminated"))).
Proof.
  split.
  - intros fuel h cs ex states replace enter l E.
    assert (R : rooted h (token_stack l)).
    { eapply tokenize_rooted; [exact E|]. cbn. split; [reflexivity|discriminate]. }
    destruct fuel as [|fuel]; [discriminate|]. cbn [tokenize] in E.
    match type of E with
    | bind ?m _ = _ => destruct m as [l1| |]; try discriminate
    end.
    cbn [bind] in E.
    destruct (frames (token_stack l1)) as [|f [|g fs]] eqn:F; try discriminate.
    injection E as <-. exists f. split; [assumption|].
    destruct R as [R _]. rewrite F in R. exact R.
  - intros fuel h cs ex states replace enter l top next below E F.
    destruct fuel as [|fuel]; [discriminate|]. cbn [tokenize] in *.
    match type of E with
    | bind ?m _ = _ => destruct m as [l1| |]; try discriminate
    end.
    cbn [bind] in *. injection E as ->. now rewrite F.
Qed.

Lemma top_level_call_checks_open_tokens_witness :
  (exists f,
     frames (token_stack
               {| state_stack := ["root"];
                  token_stack :=
                    mkTstack
                      [mkFrame (new_token "script" 1 1 "page.html")
                         [Tok (new_token "js-scope" 1 1 "page.html") [] []] []]
                      None;
                  cur_line := 1; cur_column := 4; advances := [1; 2] |})
     = [f] /\
     fheader f = new_token "script" 1 1 "page.html")
  /\
  ScriptWithBlock.run 9 [Text "{ a"] true
  = Raise (CompileException 1 1 "page.html" "js-scope not terminated").
Proof.
  destruct top_level_call_checks_open_tokens as [Hok Hopen].
  split.
  - apply (Hok 9 (new_token "script" 1 1 "page.html") [Text "{ }"] []
             JS.__JS_STATES [HtmlContent] [DjangoContainer]).
    vm_compute. reflexivity.
  - exact (Hopen 9 (new_token "script" 1 1 "page.html") [Text "{ a"] []
             JS.__JS_STATES [HtmlContent] [DjangoContainer]
             {| state_stack := ["after-varname"; "root"];
                token_stack :=
                  mkTstack
                    [mkFrame (new_token "js-scope" 1 1 "page.html")
                       [Tok (new_token "js-varname" 1 3 "page.html")
                          [Text "a"] []] [];
                     mkFrame (new_token "script" 1 1 "page.html") [] []]
                    None;
                cur_line := 1; cur_column := 4; advances := [1; 2] |}
             (mkFrame (new_token "js-scope" 1 1 "page.html")
                [Tok (new_token "js-varname" 1 3 "page.html") [Text "a"] []] [])
             (mkFrame (new_token "script" 1 1 "page.html") [] []) []
             ltac:(vm_compute; reflexivity) eq_refl).
Defined.

(** C8, as the claim words it: any imbalance left at the end of a top-level
    call would be reported as "<kind> not terminated".  In
    [var s = <block>"</block>abc"] the closing quote pops the root itself off
    the enclosing stack; the run ends with an empty stack and the final check
    fails with an [IndexError] when it asks for the top of the stack. *)
Lemma emptied_token_stack_is_an_index_error :
  (exists l,
     ScriptWithBlock.run 20 ScriptWithBlock.string_closed_outside false = Ok l /\
     frames (token_stack l) = [])
  /\
  ScriptWithBlock.run 20 ScriptWithBlock.string_closed_outside true
  = Raise IndexError.
Proof.
  split; [|vm_compute; reflexivity].
  destruct (ScriptWithBlock.run 20 ScriptWithBlock.string_closed_outside false)
    as [l| |] eqn:E; try (vm_compute in E; discriminate).
  exists l. split; [reflexivity|].
  vm_compute in E. injection E as <-. reflexivity.
Qed.

(** C3, as the code has it.  A child of a class to enter is tokenized by a
    call that gets no token stack, so it works on a stack started on the
    child alone, and that gets the state stack of the enclosing parse.
    Afterwards the child, under its own header, is appended to the node on
    top of the enclosing token stack, which is otherwise as it was; the
    enclosing parse goes on with the state stack as the nested parse left it
    (unless its own was empty), at its own line and column. *)
Theorem entered_child_has_own_tokens_and_shared_states
  (fuel : nat) (states : states_table) (replace enter : list cls)
  (tree_path : string) (hc : header) (cc : list node)
  (ec : list (nat * list node)) (rest : list node) (l0 l : lexer)
  (Hreplace : isinstance_any (Tok hc cc ec) replace = false)
  (Henter : isinstance_any (Tok hc cc ec) enter = true)
  (Hrun : input_loop states replace enter tree_path fuel
            (fun n ss ts => tokenize fuel n states replace enter ss ts false)
            (Tok hc cc ec :: rest) l0 = Ok l) :
  exists r cs' ex' top below,
    tokenize fuel (Tok hc cc ec) states replace enter
      (Some (state_stack l0)) None false = Ok r /\
    rooted hc (token_stack r) /\
    built (token_stack r) = Some (Tok hc cs' ex') /\
    frames (token_stack l0) = top :: below /\
    input_loop states replace enter tree_path fuel
      (fun n ss ts => tokenize fuel n states replace enter ss ts false)
      rest
      (mkLexer
         (match state_stack l0 with
          | [] => []
          | _ :: _ => state_stack r
          end)
         (mkTstack (append top (Tok hc cs' ex') :: below)
            (detached (token_stack l0)))
         (cur_line l0) (cur_column l0) (advances r ++ advances l0))
    = Ok l.
Proof.
  cbn [input_loop] in Hrun. rewrite Hreplace, Henter in Hrun.
  destruct (tokenize fuel (Tok hc cc ec) states replace enter
              (Some (state_stack l0)) None false) as [r| |] eqn:R;
    try discriminate.
  cbn [bind] in Hrun.
  assert (Hr : rooted hc (token_stack r)).
  { eapply tokenize_rooted; [exact R|]. cbn. split; [reflexivity|discriminate]. }
  destruct (built_rooted Hr) as (cs' & ex' & B). rewrite B in Hrun.
  unfold append_top in Hrun.
  destruct (frames (token_stack l0)) as [|top below] eqn:F; try discriminate.
  cbn [bind] in Hrun.
  exists r, cs', ex', top, below.
  split; [reflexivity|]. split; [exact Hr|].
  split; [exact B|]. split; [reflexivity|]. exact Hrun.
Qed.

Lemma entered_child_has_own_tokens_and_shared_states_witness :
  exists l r cs' ex' top below,
    tokenize 5 (ScriptWithBlock.container 1 [Text "x"]) JS.__JS_STATES
      [HtmlContent] [DjangoContainer] (Some ["root"]) None false = Ok r /\
    rooted (mkHeader "django-if" 1 1 "page.html" DjangoContainer) (token_stack r) /\
    built (token_stack r)
    = Some (Tok (mkHeader "django-if" 1 1 "page.html" DjangoContainer) cs' ex') /\
    frames (token_stack ScriptWithBlock.start) = top :: below /\
    input_loop JS.__JS_STATES [HtmlContent] [DjangoContainer] "page.html" 5
      (fun n ss ts =>
         tokenize 5 n JS.__JS_STATES [HtmlContent] [DjangoContainer] ss ts false)
      []
      (mkLexer
         (match state_stack ScriptWithBlock.start with
          | [] => []
          | _ :: _ => state_stack r
          end)
         (mkTstack
            (append top
               (Tok (mkHeader "django-if" 1 1 "page.html" DjangoContainer) cs' ex')
             :: below)
            (detached (token_stack ScriptWithBlock.start)))
         (cur_line ScriptWithBlock.start) (cur_column ScriptWithBlock.start)
         (advances r ++ advances ScriptWithBlock.start))
    = Ok l.
Proof.
  destruct (input_loop JS.__JS_STATES [HtmlContent] [DjangoContainer]
              "page.html" 5
              (fun n ss ts =>
                 tokenize 5 n JS.__JS_STATES [HtmlContent] [DjangoContainer]
                   ss ts false)
              [ScriptWithBlock.container 1 [Text "x"]] ScriptWithBlock.start)
    as [l| |] eqn:E; try (vm_compute in E; discriminate).
  exists l.
  apply (@entered_child_has_own_tokens_and_shared_states 5 JS.__JS_STATES
           [HtmlContent] [DjangoContainer] "page.html"
           (mkHeader "django-if" 1 1 "page.html" DjangoContainer)
           [Text "x"] [] [] ScriptWithBlock.start l).
  - reflexivity.
  - reflexivity.
  - exact E.
Defined.

(** C3, as the claim words it: the nested parse would have a state stack of
    its own and leave the stacks of the enclosing parse as they were.  In a
    script that consists of a block holding [x], the enclosing parse reads no
    text at all, and yet ends in the state [after-varname] that the nested
    parse pushed. *)
Lemma nested_parse_moves_enclosing_state_stack :
  exists l,
    ScriptWithBlock.run 20 [ScriptWithBlock.container 1 [Text "x"]] true = Ok l /\
    state_stack l = ["after-varname"; "root"] /\
    state_stack l <> state_stack ScriptWithBlock.start.
Proof.
  destruct (ScriptWithBlock.run 20 [ScriptWithBlock.container 1 [Text "x"]] true)
    as [l| |] eqn:E; try (vm_compute in E; discriminate).
  exists l. split; [reflexivity|].
  vm_compute in E. injection E as <-. split; [reflexivity | discriminate].
Qed.

(* ================================================================== *)
(** ** The JavaScript grammar: keywords and identifiers *)

Lemma length_append_string (a b : string) :
  String.length (a ++ b) = String.length a + String.length b.
Proof. induction a as [|c a IH]; cbn; [reflexivity | now rewrite IH]. Qed.

Section Identifiers.

Import Re.

(** What the first character of an identifier is not. *)
Lemma ident_start_facts c :
  JS.ident_start c = true ->
  PyStr.is_space c = false /\
  Ascii.eqb "{" c = false /\
  Ascii.eqb "}" c = false /\
  Ascii.eqb "/" c = false /\
  Ascii.eqb (ascii_of_nat 34) c = false /\
  Ascii.eqb "'" c = false /\
  chr_in ";,=?:|^&=!<>*%~.[(+-" c = false /\
  chr_in ")]" c = false /\
  JS.ident_char c = true.
Proof.
  destruct c as [[] [] [] [] [] [] [] []]; vm_compute; intros H;
    first [discriminate H | repeat split].
Qed.

Lemma ident_char_no_newline c :
  JS.ident_char c = true -> Ascii.eqb c newline = false.
Proof.
  destruct c as [[] [] [] [] [] [] [] []]; vm_compute; intros H;
    first [discriminate H | reflexivity].
Qed.

Lemma strip_prefix_spec p : forall s s',
  strip_prefix p s = Some s' <-> s = (p ++ s')%string.
Proof.
  induction p as [|a p IH]; intros s s'; cbn.
  - split; [intros H; now injection H as -> | intros ->; reflexivity].
  - destruct s as [|b s]; [split; discriminate|].
    destruct (Ascii.eqb_spec a b) as [->|Hne].
    + rewrite IH. split; [intros ->; reflexivity | intros H; now injection H].
    + split; [discriminate | intros H; injection H as -> _; contradiction].
Qed.

Lemma all_chars_app p a b :
  all_chars p (a ++ b) = all_chars p a && all_chars p b.
Proof.
  induction a as [|c a IH]; cbn; [reflexivity|].
  now rewrite IH, andb_assoc.
Qed.

(** [p*] on text whose first character is not in the class matches the
    empty text only. *)
Lemma star_class_stops p c x :
  p c = false -> alts (Star (Cls p)) (String c x) = [String c x].
Proof. intros H. cbn. now rewrite H. Qed.

(** [p*] takes a run of characters of the class whole before it tries
    anything shorter. *)
Lemma star_loop_class_run p t :
  match t with EmptyString => true | String c _ => negb (p c) end = true ->
  forall n w,
    String.length w <= n -> all_chars p w = true ->
    exists shorter, star_loop (alts (Cls p)) n (w ++ t) = t :: shorter.
Proof.
  intros Ht.
  assert (Hstop : alts (Cls p) t = []).
  { destruct t as [|c t']; [reflexivity|]. cbn.
    apply negb_true_iff in Ht. now rewrite Ht. }
  induction n as [|n IH]; intros w Hlen Hall.
  - destruct w; [|cbn in Hlen; lia]. now exists [].
  - destruct w as [|c w].
    + cbn [String.append star_loop]. rewrite Hstop. now exists [].
    + cbn in Hall. apply andb_true_iff in Hall. destruct Hall as [Hc Hw].
      cbn [String.append star_loop alts]. rewrite Hc. cbn [flat_map].
      assert (L : (String.length (w ++ t) <? String.length (String c (w ++ t)))
                  = true) by (apply Nat.ltb_lt; cbn; lia).
      rewrite L.
      destruct (IH w) as (shorter & E); [cbn in Hlen; lia | assumption |].
      cbn [alts] in E. rewrite E. cbn. eexists. reflexivity.
Qed.

Lemma star_class_run p w t :
  match t with EmptyString => true | String c _ => negb (p c) end = true ->
  all_chars p w = true ->
  exists shorter, alts (Star (Cls p)) (w ++ t) = t :: shorter.
Proof.
  intros Ht Hall. cbn [alts].
  apply star_loop_class_run; try assumption.
  rewrite length_append_string. lia.
Qed.

(** The remainders the keyword alternation leaves: one for each word that
    is a prefix of the text. *)
Lemma any_lit_prefix words : forall s s',
  In s' (alts (any_lit words) s) ->
  exists word, In word words /\ s = (word ++ s')%string.
Proof.
  induction words as [|word words IH]; intros s s' H.
  - cbn in H. contradiction.
  - destruct words as [|word2 words].
    + cbn [any_lit alts] in H.
      destruct (strip_prefix word s) as [r|] eqn:E; [|contradiction].
      destruct H as [<-|[]]. apply strip_prefix_spec in E.
      exists word. split; [now left | assumption].
    + cbn [any_lit alts] in H. apply in_app_or in H. destruct H as [H|H].
      * destruct (strip_prefix word s) as [r|] eqn:E; [|contradiction].
        destruct H as [<-|[]]. apply strip_prefix_spec in E.
        exists word. split; [now left | assumption].
      * destruct (IH s s' H) as (w & Hw & E).
        exists w. split; [now right | assumption].
Qed.

Lemma any_lit_finds words : forall word s',
  In word words -> In s' (alts (any_lit words) (word ++ s')).
Proof.
  induction words as [|w words IH]; intros word s' H; [contradiction|].
  assert (Hhere : forall x, strip_prefix x (x ++ s') = Some s')
    by (intros x; now apply strip_prefix_spec).
  destruct words as [|w2 words].
  - destruct H as [->|[]]. cbn [any_lit alts]. rewrite Hhere. now left.
  - cbn [any_lit alts]. apply in_or_app. destruct H as [->|H].
    + left. rewrite Hhere. now left.
    + right. now apply IH.
Qed.

(** A text splits in one way only into identifier characters and a rest
    that cannot continue an identifier. *)
Lemma identifier_split_unique a : forall t a' t',
  all_chars JS.ident_char a = true -> identifier_ends t = true ->
  all_chars JS.ident_char a' = true -> identifier_ends t' = true ->
  (a ++ t)%string = (a' ++ t')%string -> a = a' /\ t = t'.
Proof.
  induction a as [|c a IH]; intros t a' t' Ha Ht Ha' Ht' E.
  - destruct a' as [|c' a']; [now split|].
    cbn in E, Ha'. subst t. cbn in Ht.
    apply andb_true_iff in Ha'. destruct Ha' as [Hc _].
    rewrite Hc in Ht. discriminate.
  - destruct a' as [|c' a'].
    + cbn in E, Ha. subst t'. cbn in Ht'.
      apply andb_true_iff in Ha. destruct Ha as [Hc _].
      rewrite Hc in Ht'. discriminate.
    + cbn in E, Ha, Ha'. injection E as -> E.
      apply andb_true_iff in Ha, Ha'.
      assert (H : a = a' /\ t = t') by (apply IH; tauto).
      destruct H as [-> ->]. now split.
Qed.

Lemma not_ahead_identifier s :
  alts (NotAhead (Cls JS.ident_char)) s
  = if identifier_ends s then [s] else [].
Proof.
  destruct s as [|c s]; [reflexivity|]. cbn.
  destruct (JS.ident_char c); reflexivity.
Qed.

Lemma keyword_words_are_identifiers word :
  In word JS.keyword_pattern_words -> all_chars JS.ident_char word = true.
Proof.
  intros H. cbn in H.
  repeat (destruct H as [<-|H]; [reflexivity|]). contradiction.
Qed.

Lemma is_identifier_chars w :
  is_identifier w = true -> all_chars JS.ident_char w = true.
Proof.
  destruct w as [|c r]; [discriminate|]. cbn.
  intros H. apply andb_true_iff in H. destruct H as [Hc Hr].
  apply ident_start_facts in Hc. now rewrite (proj2 (proj2 (proj2 (proj2
    (proj2 (proj2 (proj2 (proj2 Hc)))))))), Hr.
Qed.

(** The keyword rule: its matches are exactly those of a reserved word that
    is the whole identifier at the cursor. *)
Lemma keyword_rule_matches w t :
  is_identifier w = true -> identifier_ends t = true ->
  forall s',
    In s' (alts (Seq (any_lit JS.keyword_pattern_words)
                   (NotAhead (Cls JS.ident_char))) (w ++ t)) ->
    In w JS.keyword_pattern_words /\ s' = t.
Proof.
  intros Hw Ht s' H.
  change (In s' (flat_map (alts (NotAhead (Cls JS.ident_char)))
                   (alts (any_lit JS.keyword_pattern_words) (w ++ t)))) in H.
  apply in_flat_map in H.
  destruct H as (r & Hr & H).
  rewrite not_ahead_identifier in H.
  destruct (identifier_ends r) eqn:Er; [|contradiction].
  destruct H as [<-|[]].
  apply any_lit_prefix in Hr. destruct Hr as (word & Hword & E).
  destruct (@identifier_split_unique w t word r) as [-> ->];
    auto using is_identifier_chars, keyword_words_are_identifiers.
Qed.

End Identifiers.

Section RootState.

Import Re.

Lemma spaced_literal_fails a c x :
  PyStr.is_space c = false -> Ascii.eqb a c = false ->
  re_match (JS.spaced (Lit (String a EmptyString))) (String c x) = None.
Proof.
  intros Hs Ha. unfold re_match, JS.spaced, space.
  change (alts (Seq ?r1 ?r2) ?s) with (flat_map (alts r2) (alts r1 s)).
  rewrite (@star_class_stops _ _ _ Hs). cbn. now rewrite Ha.
Qed.

Lemma literal_fails a y c x :
  Ascii.eqb a c = false -> re_match (Lit (String a y)) (String c x) = None.
Proof. intros Ha. unfold re_match. cbn. now rewrite Ha. Qed.

Lemma spaced_class_fails set c x :
  PyStr.is_space c = false -> chr_in set c = false ->
  re_match (JS.spaced (oneof set)) (String c x) = None.
Proof.
  intros Hs Hc. unfold re_match, JS.spaced, space, oneof.
  change (alts (Seq ?r1 ?r2) ?s) with (flat_map (alts r2) (alts r1 s)).
  rewrite (@star_class_stops _ _ _ Hs). cbn. now rewrite Hc.
Qed.

Lemma keyword_rule_on_identifier w t :
  is_identifier w = true -> identifier_ends t = true ->
  re_match (Seq (any_lit JS.keyword_pattern_words)
              (NotAhead (Cls JS.ident_char))) (w ++ t)
  = if PyStr.mem w JS.keyword_pattern_words
    then Some (String.length w) else None.
Proof.
  intros Hw Ht. unfold re_match.
  pose proof (@keyword_rule_matches w t Hw Ht) as Honly.
  destruct (PyStr.mem w JS.keyword_pattern_words) eqn:M.
  - apply mem_In in M.
    assert (Hin : In t (alts (Seq (any_lit JS.keyword_pattern_words)
                               (NotAhead (Cls JS.ident_char))) (w ++ t))).
    { change (In t (flat_map (alts (NotAhead (Cls JS.ident_char)))
                      (alts (any_lit JS.keyword_pattern_words) (w ++ t)))).
      apply in_flat_map. exists t. split; [now apply any_lit_finds|].
      rewrite not_ahead_identifier, Ht. now left. }
    destruct (alts _ (w ++ t)) as [|s' rest]; [contradiction|].
    destruct (Honly s' (or_introl eq_refl)) as [_ ->].
    rewrite length_append_string. f_equal. lia.
  - apply mem_false in M.
    destruct (alts _ (w ++ t)) as [|s' rest]; [reflexivity|].
    destruct (Honly s' (or_introl eq_refl)) as [H _]. contradiction.
Qed.

Lemma varname_rule_on_identifier w t :
  is_identifier w = true -> identifier_ends t = true ->
  re_match (Seq (Cls JS.ident_start) (Star (Cls JS.ident_char))) (w ++ t)
  = Some (String.length w).
Proof.
  intros Hw Ht. destruct w as [|c r]; [discriminate|].
  cbn in Hw. apply andb_true_iff in Hw. destruct Hw as [Hc Hr].
  unfold re_match.
  change (alts (Seq ?r1 ?r2) ?s) with (flat_map (alts r2) (alts r1 s)).
  cbn [String.append].
  change (alts (Cls JS.ident_start) (String c (r ++ t)))
    with (if JS.ident_start c then [(r ++ t)%string] else []).
  rewrite Hc. cbn [flat_map].
  destruct (@star_class_run JS.ident_char r t Ht Hr) as (shorter & E).
  rewrite E. cbn [app]. cbn [String.length].
  rewrite length_append_string. f_equal. lia.
Qed.

(** The rule of the [root] state that fires on an identifier: the keyword
    rule when the identifier is a reserved word of the pattern, the varname
    rule otherwise; either way the match is the whole identifier. *)
Lemma root_state_on_identifier w t :
  is_identifier w = true -> identifier_ends t = true ->
  first_match JS.root_state (w ++ t)
  = Some (String.length w,
          if PyStr.mem w JS.keyword_pattern_words
          then JS.token "js-keyword"
          else JS.token "js-varname" ++ [Push "after-varname"]).
Proof.
  intros Hw Ht.
  pose proof (@keyword_rule_on_identifier w t Hw Ht) as Hk.
  pose proof (@varname_rule_on_identifier w t Hw Ht) as Hv.
  destruct w as [|c r]; [discriminate|].
  assert (Hc : JS.ident_start c = true).
  { cbn in Hw. apply andb_true_iff in Hw. tauto. }
  destruct (@ident_start_facts c Hc)
    as (F1 & F2 & F3 & F4 & F5 & F6 & F7 & F8 & _).
  unfold JS.root_state. cbn [String.append] in *.
  cbn [first_match].
  rewrite (@spaced_literal_fails _ _ _ F1 F2), (@spaced_literal_fails _ _ _ F1 F3).
  rewrite (@literal_fails _ _ _ _ F4), (@literal_fails _ _ _ _ F4).
  unfold JS.dquote, JS.squote.
  rewrite (@literal_fails _ _ _ _ F5), (@literal_fails _ _ _ _ F6).
  rewrite Hk.
  destruct (PyStr.mem (String c r) JS.keyword_pattern_words); [reflexivity|].
  rewrite (@spaced_class_fails _ _ _ F1 F7), (@spaced_class_fails _ _ _ F1 F8).
  rewrite Hv. reflexivity.
Qed.

End RootState.

Lemma append_empty_r (s : string) : (s ++ EmptyString)%string = s.
Proof. induction s as [|c s IH]; cbn; [reflexivity | now rewrite IH]. Qed.

Lemma take_whole (s : string) : PyStr.take (String.length s) s = s.
Proof. induction s as [|c s IH]; cbn; [reflexivity | now rewrite IH]. Qed.

Lemma slice_whole (s : string) : PyStr.slice 0 (0 + String.length s) s = s.
Proof. unfold PyStr.slice. cbn. rewrite Nat.sub_0_r. apply take_whole. Qed.

(** Text without a newline moves the column only. *)
Lemma advance_one_line (s : string) :
  all_chars JS.ident_char s = true ->
  forall l c pending,
    advance l c s pending = (l, c + String.length s, pending).
Proof.
  induction s as [|ch s IH]; intros H l c pending; cbn [advance String.length].
  - now rewrite Nat.add_0_r.
  - cbn in H. apply andb_true_iff in H. destruct H as [Hc Hs].
    rewrite (@ident_char_no_newline ch Hc), (IH Hs). f_equal. f_equal. lia.
Qed.

(** The actions of a rule that makes one token of the match. *)
Lemma exec_token_actions kind tree_path str w l pos f fs :
  all_chars JS.ident_char w = true ->
  frames (token_stack l) = f :: fs ->
  exec_actions tree_path str (JS.token kind)
    (mkCursor l pos (String.length w) w)
  = Ok (mkCursor
          (mkLexer (state_stack l)
             (mkTstack
                (append f (Tok (new_token kind (cur_line l) (cur_column l)
                                  tree_path) [Text w] []) :: fs)
                (detached (token_stack l)))
             (cur_line l) (cur_column l + String.length w)
             (String.length w :: advances l))
          (pos + String.length w) 0 w).
Proof.
  intros Hw F. unfold JS.token.
  cbn [exec_actions exec_action lx truthy]. rewrite F.
  cbn [bind with_tokens append_top frames token_stack state_stack cur_line
       cur_column advances lx content count position detached].
  rewrite (@advance_one_line w Hw). reflexivity.
Qed.

Lemma exec_actions_app tree_path str a b cu :
  exec_actions tree_path str (a ++ b) cu
  = (cu' <- exec_actions tree_path str a cu ;; exec_actions tree_path str b cu').
Proof.
  revert cu. induction a as [|x a IH]; intros cu; cbn [app exec_actions bind].
  - reflexivity.
  - destruct (exec_action tree_path str x cu); cbn [bind]; [apply IH | | ];
      reflexivity.
Qed.

(** A script that is one identifier: one round of the loop makes one token
    of it, a keyword token for a reserved word of the pattern and a varname
    token otherwise. *)
Lemma lex_identifier fuel w tree_path l ss f fs :
  is_identifier w = true ->
  state_stack l = "root" :: ss ->
  frames (token_stack l) = f :: fs ->
  exists l',
    lex_string (S (S fuel)) JS.__JS_STATES tree_path w l 0
    = Ok (l', String.length w) /\
    token_stack l'
    = mkTstack
        (append f
           (Tok (new_token
                   (if PyStr.mem w JS.keyword_pattern_words
                    then "js-keyword" else "js-varname")
                   (cur_line l) (cur_column l) tree_path) [Text w] [])
         :: fs)
        (detached (token_stack l)).
Proof.
  intros Hw Hs F.
  pose proof (@root_state_on_identifier w EmptyString Hw eq_refl) as M.
  rewrite append_empty_r in M.
  pose proof (@is_identifier_chars w Hw) as Hchars.
  assert (Hpos : (0 <? PyStr.len w) = true).
  { destruct w; [discriminate | reflexivity]. }
  assert (Hend : (0 + String.length w <? PyStr.len w) = false).
  { apply Nat.ltb_ge. unfold PyStr.len. lia. }
  cbn [lex_string]. rewrite Hpos, Hs.
  change (lookup "root" JS.__JS_STATES) with (Some JS.root_state).
  cbv iota beta. change (PyStr.drop 0 w) with w. rewrite M.
  cbv iota beta. rewrite slice_whole.
  destruct (PyStr.mem w JS.keyword_pattern_words).
  - rewrite (@exec_token_actions _ _ _ _ _ _ f fs Hchars F).
    cbn [bind lx position]. rewrite Hend. eexists. split; reflexivity.
  - rewrite exec_actions_app.
    rewrite (@exec_token_actions _ _ _ _ _ _ f fs Hchars F).
    cbn [bind exec_actions exec_action lx position count content with_states
         state_stack token_stack cur_line cur_column advances].
    rewrite Hend. eexists. split; reflexivity.
Qed.

(** C10.  At an identifier (a maximal run of identifier characters that
    starts with a letter, underscore or dollar sign) the [root] state picks
    the keyword rule exactly when the identifier as a whole is one of the
    reserved words of the pattern, and the varname rule otherwise; in both
    cases the match is the whole identifier.  A script that is one
    identifier becomes one token: [js-keyword] for a reserved word,
    [js-varname] for anything else, such as a name that only begins with a
    reserved word. *)
Theorem reserved_word_is_keyword_only_as_whole_identifier :
  (forall w t,
     is_identifier w = true -> identifier_ends t = true ->
     first_match JS.root_state (w ++ t)
     = Some (String.length w,
             if PyStr.mem w JS.keyword_pattern_words
             then JS.token "js-keyword"
             else JS.token "js-varname" ++ [Push "after-varname"]))
  /\
  (forall fuel w path,
     is_identifier w = true ->
     JS.tokenize_string (S (S (S fuel))) w path
     = Ok (single_token
             (if PyStr.mem w JS.keyword_pattern_words
              then "js-keyword" else "js-varname") w path)).
Proof.
  split; [exact root_state_on_identifier|].
  intros fuel w p Hw.
  unfold JS.tokenize_string, tokenized.
  cbn [tokenize concat_strings input_loop list_or tstack_or path line column].
  match goal with
  | |- context [lex_string _ _ ?tp w ?l 0] =>
      destruct (@lex_identifier fuel w tp l []
                  (mkFrame (new_token "root" 1 1 p) [] []) []
                  Hw eq_refl eq_refl) as (l' & E & T)
  end.
  rewrite E. cbn [bind]. rewrite T. cbn [frames bind].
  unfold built. rewrite T. reflexivity.
Qed.

Lemma reserved_word_is_keyword_only_as_whole_identifier_witness :
  first_match JS.root_state "iffy(x)"
  = Some (4, JS.token "js-varname" ++ [Push "after-varname"])
  /\
  first_match JS.root_state "if(x)" = Some (2, JS.token "js-keyword")
  /\
  JS.tokenize_string 3 "variable" "script.js"
  = Ok (single_token "js-varname" "variable" "script.js")
  /\
  JS.tokenize_string 3 "var" "script.js"
  = Ok (single_token "js-keyword" "var" "script.js").
Proof.
  destruct reserved_word_is_keyword_only_as_whole_identifier as [Hrule Htok].
  split; [|split; [|split]].
  - exact (Hrule "iffy" "(x)" eq_refl eq_refl).
  - exact (Hrule "if" "(x)" eq_refl eq_refl).
  - exact (Htok 0 "variable" "script.js" eq_refl).
  - exact (Htok 0 "var" "script.js" eq_refl).
Defined.

(* ================================================================== *)
(** ** The lexer engine: line and column counters *)

Lemma newlines_app a b : newlines (a ++ b) = newlines a + newlines b.
Proof. induction a as [|c a IH]; cbn; [reflexivity | rewrite IH; lia]. Qed.

Lemma take_add n : forall m s,
  PyStr.take (n + m) s
  = (PyStr.take n s ++ PyStr.take m (PyStr.drop n s))%string.
Proof.
  induction n as [|n IH]; intros m s; cbn.
  - reflexivity.
  - destruct s as [|c s]; cbn.
    + destruct m; reflexivity.
    + now rewrite IH.
Qed.

Lemma take_all n : forall s, String.length s <= n -> PyStr.take n s = s.
Proof.
  induction n as [|n IH]; intros [|c s] H; cbn in *;
    [reflexivity | lia | reflexivity | rewrite IH; [reflexivity | lia]].
Qed.

Lemma slice_from pos cnt str :
  PyStr.slice pos (pos + cnt) str = PyStr.take cnt (PyStr.drop pos str).
Proof. unfold PyStr.slice. f_equal. lia. Qed.

Lemma last_line_app a b :
  last_line (a ++ b)
  = match last_line b with
    | Some t => Some t
    | None => match last_line a with
              | Some t => Some (t ++ b)%string
              | None => None
              end
    end.
Proof.
  induction a as [|ch a IH]; cbn [String.append last_line].
  - destruct (last_line b); reflexivity.
  - rewrite IH.
    destruct (last_line b), (last_line a), (Ascii.eqb ch Re.newline);
      reflexivity.
Qed.

Lemma column_after_app c a b :
  column_after c (a ++ b) = column_after (column_after c a) b.
Proof.
  unfold column_after. rewrite last_line_app.
  destruct (last_line b), (last_line a);
    rewrite ?length_append_string; cbn; lia.
Qed.

Lemma column_after_empty c : column_after c EmptyString = c.
Proof. unfold column_after. cbn. lia. Qed.

(** The text a [Shift] leaves in [content] has no newline. *)
Lemma last_line_newlines s :
  newlines (match last_line s with Some t => t | None => s end) = 0.
Proof.
  induction s as [|ch s IH]; [reflexivity|].
  cbn [last_line]. destruct (last_line s) as [t|]; [exact IH|].
  destruct (Ascii.eqb ch Re.newline) eqn:E; [exact IH|].
  cbn [newlines]. rewrite E. exact IH.
Qed.

(** The row/column loop of [Shift] in closed form. *)
Lemma advance_spec s : forall l c pending,
  advance l c s pending
  = (l + newlines s, column_after c s,
     match last_line s with Some t => t | None => pending end).
Proof.
  unfold column_after.
  induction s as [|ch s IH]; intros l c pending;
    cbn [advance newlines last_line String.length].
  - now rewrite !Nat.add_0_r.
  - destruct (Ascii.eqb ch Re.newline); rewrite IH;
      destruct (last_line s); f_equal; f_equal; lia.
Qed.

(** Every action but [Shift] leaves the cursor and the counters alone. *)
Lemma exec_action_keeps tree_path str a cu cu' :
  is_shift a = false ->
  exec_action tree_path str a cu = Ok cu' ->
  position cu' = position cu /\ count cu' = count cu /\
  content cu' = content cu /\
  cur_line (lx cu') = cur_line (lx cu) /\
  cur_column (lx cu') = cur_column (lx cu).
Proof.
  intros Ha E. destruct a; try discriminate Ha; cbn [exec_action] in E.
  - destruct (append_top (token_stack (lx cu)) _); try discriminate.
    injection E as <-. now repeat split.
  - injection E as <-. now repeat split.
  - destruct (state_stack (lx cu)); try discriminate.
    injection E as <-. now repeat split.
  - destruct (frames (token_stack (lx cu))); try discriminate.
    injection E as <-. now repeat split.
  - destruct (truthy state_name), (frames (token_stack (lx cu)));
      try discriminate.
    + destruct (negb _); try discriminate.
      destruct (pop_token _); try discriminate.
      injection E as <-. now repeat split.
    + destruct (pop_token _); try discriminate.
      injection E as <-. now repeat split.
    + destruct (pop_token _); try discriminate.
      injection E as <-. now repeat split.
  - discriminate.
Qed.

(** The position an exception of the action loop carries is that of the
    counters when it is raised. *)
Lemma exec_action_raises tree_path str a cu ln col p msg :
  exec_action tree_path str a cu = Raise (CompileException ln col p msg) ->
  ln = cur_line (lx cu) /\ col = cur_column (lx cu) /\ p = tree_path.
Proof.
  intros E. destruct a; cbn [exec_action] in E.
  - unfold append_top in E. destruct (frames _); discriminate.
  - destruct (advance _ _ _ _) as [[l' c'] content']. discriminate.
  - discriminate.
  - destruct (state_stack (lx cu)); discriminate.
  - destruct (frames (token_stack (lx cu))); discriminate.
  - assert (P : forall ts (k : tstack -> result cursor),
               (forall t, k t <> Raise (CompileException ln col p msg)) ->
               bind (pop_token ts) k <> Raise (CompileException ln col p msg)).
    { intros ts k Hk. unfold pop_token.
      destruct (frames ts) as [|f [|g fs]]; cbn [bind];
        [discriminate | apply Hk | apply Hk]. }
    destruct (truthy state_name), (frames (token_stack (lx cu)));
      try discriminate.
    + destruct (negb _).
      * injection E as <- <- <- _. now repeat split.
      * exfalso. revert E. apply P. discriminate.
    + exfalso. revert E. apply P. discriminate.
    + exfalso. revert E. apply P. discriminate.
  - injection E as <- <- <- _. now repeat split.
Qed.

(** The line counter, for any grammar. *)
Lemma exec_action_line tree_path str line0 a cu cu' :
  cur_line (lx cu) = line0 + newlines (PyStr.take (position cu) str) ->
  newlines (content cu)
  = newlines (PyStr.take (count cu) (PyStr.drop (position cu) str)) ->
  exec_action tree_path str a cu = Ok cu' ->
  cur_line (lx cu') = line0 + newlines (PyStr.take (position cu') str) /\
  newlines (content cu')
  = newlines (PyStr.take (count cu') (PyStr.drop (position cu') str)).
Proof.
  intros H1 H2 E.
  destruct (is_shift a) eqn:Ha.
  - destruct a; try discriminate Ha. cbn [exec_action] in E.
    rewrite advance_spec in E. injection E as <-.
    cbn [lx position count content cur_line]. split.
    + rewrite take_add, newlines_app, H1, H2. lia.
    + apply last_line_newlines.
  - destruct (exec_action_keeps _ _ _ _ Ha E) as (-> & -> & -> & -> & _).
    now split.
Qed.

Lemma exec_actions_line tree_path str line0 acts :
  forall cu cu',
    cur_line (lx cu) = line0 + newlines (PyStr.take (position cu) str) ->
    newlines (content cu)
    = newlines (PyStr.take (count cu) (PyStr.drop (position cu) str)) ->
    exec_actions tree_path str acts cu = Ok cu' ->
    cur_line (lx cu') = line0 + newlines (PyStr.take (position cu') str).
Proof.
  induction acts as [|a acts IH]; intros cu cu' H1 H2 E;
    cbn [exec_actions] in E.
  - now injection E as <-.
  - destruct (exec_action tree_path str a cu) as [cu1| |] eqn:E1;
      try discriminate.
    cbn [bind] in E.
    destruct (exec_action_line _ _ _ _ _ H1 H2 E1) as [K1 K2].
    exact (IH cu1 cu' K1 K2 E).
Qed.

Lemma lex_string_line states tree_path str line0 fuel :
  forall l pos l' pos',
    cur_line l = line0 + newlines (PyStr.take pos str) ->
    lex_string fuel states tree_path str l pos = Ok (l', pos') ->
    cur_line l' = line0 + newlines str.
Proof.
  induction fuel as [|fuel IH]; intros l pos l' pos' H E; [discriminate|].
  cbn [lex_string] in E.
  destruct (Nat.ltb_spec pos (PyStr.len str)) as [Hlt|Hge].
  - destruct (state_stack l) as [|current below]; try discriminate.
    destruct (lookup current states) as [rules|]; try discriminate.
    destruct (first_match rules (PyStr.drop pos str)) as [[cnt acts]|] eqn:M.
    + destruct (exec_actions tree_path str acts _) as [cu| |] eqn:A;
        try discriminate.
      cbn [bind] in E.
      apply exec_actions_line with (line0 := line0) in A;
        [| exact H | cbn [content count position]; now rewrite slice_from].
      exact (IH _ _ _ _ A E).
    + exact (IH _ _ _ _ H E).
  - injection E as <- <-. rewrite H. now rewrite take_all.
Qed.

Lemma append_assoc_string (a b c : string) :
  ((a ++ b) ++ c)%string = (a ++ (b ++ c))%string.
Proof. induction a as [|x a IH]; cbn; [reflexivity | now rewrite IH]. Qed.

Lemma text_of_concat_strings cs : text_of (concat_strings cs) = text_of cs.
Proof.
  induction cs as [|[a|h c e] rest IH]; cbn [concat_strings text_of].
  - reflexivity.
  - rewrite <- IH. destruct (concat_strings rest) as [|[b|h c e] rest'];
      cbn [text_of]; [reflexivity | now rewrite append_assoc_string | reflexivity].
  - now rewrite IH.
Qed.

Section LoopCounters.

Variable states : states_table.
Variable replace enter : list cls.
Variable tree_path : string.
Variable fuel : nat.
Variable recurse : node -> option (list string) -> option tstack -> result lexer.

Lemma input_loop_line input_nodes :
  forall l l',
    input_loop states replace enter tree_path fuel recurse input_nodes l = Ok l' ->
    cur_line l' = cur_line l + newlines (text_of input_nodes).
Proof.
  induction input_nodes as [|[str|h cs ex] rest IH]; intros l l' E;
    cbn [input_loop text_of] in *.
  - injection E as <-. cbn. lia.
  - destruct (lex_string fuel states tree_path str l 0) as [[l1 p1]| |] eqn:L;
      try discriminate.
    cbn [bind] in E.
    apply lex_string_line with (line0 := cur_line l) in L; [|cbn; lia].
    rewrite (IH _ _ E), L, newlines_app. lia.
  - destruct (isinstance_any (Tok h cs ex) replace).
    + destruct (recurse _ _ _) as [r| |]; try discriminate.
      cbn [bind] in E. now rewrite (IH _ _ E).
    + destruct (isinstance_any (Tok h cs ex) enter).
      * destruct (recurse _ _ _) as [r| |]; try discriminate.
        cbn [bind] in E.
        destruct (built (token_stack r)); try discriminate.
        destruct (append_top (token_stack l) n); try discriminate.
        cbn [bind] in E. now rewrite (IH _ _ E).
      * destruct (append_top (token_stack l) (Tok h cs ex)); try discriminate.
        cbn [bind] in E. now rewrite (IH _ _ E).
Qed.

End LoopCounters.

(** X1.  When a call of [tokenize] returns, its line counter stands at the
    line of the node plus the number of newlines in the node's text children,
    whatever the grammar; the children that are nodes do not move it. *)
Theorem line_counter_counts_text_newlines
  (fuel : nat) (h : header) (cs : list node) (ex : list (nat * list node))
  (states : states_table) (replace enter : list cls)
  (ss : option (list string)) (ts : option tstack) (_root : bool) (l : lexer)
  (Hrun : tokenize fuel (Tok h cs ex) states replace enter ss ts _root = Ok l) :
  cur_line l = line h + newlines (text_of cs).
Proof.
  destruct fuel as [|fuel]; [discriminate|].
  cbn [tokenize] in Hrun.
  destruct (input_loop _ _ _ _ _ _ _ _) as [l1| |] eqn:E; try discriminate.
  cbn [bind] in Hrun.
  apply input_loop_line in E. cbn [cur_line] in E.
  rewrite text_of_concat_strings in E.
  destruct _root.
  - destruct (frames (token_stack l1)) as [|f [|g fs]]; try discriminate.
    now injection Hrun as <-.
  - now injection Hrun as <-.
Qed.

Lemma line_counter_counts_text_newlines_witness :
  exists l,
    tokenize 9
      (Tok (new_token "root" 1 1 "script.js")
         [Text ("a;" ++ JS.nl); Text ("b;" ++ JS.nl ++ "c")] [])
      JS.__JS_STATES [Token] [] None None true = Ok l /\
    cur_line l = 3.
Proof.
  eexists. split.
  - vm_compute. reflexivity.
  - apply (@line_counter_counts_text_newlines 9
             (new_token "root" 1 1 "script.js")
             [Text ("a;" ++ JS.nl); Text ("b;" ++ JS.nl ++ "c")] []
             JS.__JS_STATES [Token] [] None None true).
    vm_compute. reflexivity.
Defined.

(** The counters and the cursor after the actions of a rule without
    [Shift], and the position of the exception when they raise. *)
Lemma exec_actions_no_shift tree_path str acts :
  forall cu,
    filter is_shift acts = [] ->
    match exec_actions tree_path str acts cu with
    | Ok cu' =>
        position cu' = position cu /\
        cur_line (lx cu') = cur_line (lx cu) /\
        cur_column (lx cu') = cur_column (lx cu)
    | Raise (CompileException ln col p _) =>
        ln = cur_line (lx cu) /\ col = cur_column (lx cu) /\ p = tree_path
    | _ => True
    end.
Proof.
  induction acts as [|a acts IH]; intros cu Hs; cbn [exec_actions].
  - now repeat split.
  - cbn [filter] in Hs. destruct (is_shift a) eqn:Ha; [discriminate|].
    destruct (exec_action tree_path str a cu) as [cu1|e|] eqn:E1; cbn [bind].
    + destruct (exec_action_keeps _ _ _ _ Ha E1) as (<- & _ & _ & <- & <-).
      exact (IH cu1 Hs).
    + destruct e; try exact I.
      exact (exec_action_raises _ _ _ _ E1).
    + exact I.
Qed.

(** The same for a rule with at most one [Shift]: the counters have read
    the first [d] characters of the match, where [d] is nothing or the
    whole match. *)
Lemma exec_actions_positions tree_path str acts :
  forall cu,
    length (filter is_shift acts) <= 1 ->
    content cu = PyStr.take (count cu) (PyStr.drop (position cu) str) ->
    match exec_actions tree_path str acts cu with
    | Ok cu' =>
        exists d, d <= count cu /\ position cu' = position cu + d /\
          cur_line (lx cu')
          = cur_line (lx cu)
            + newlines (PyStr.take d (PyStr.drop (position cu) str)) /\
          cur_column (lx cu')
          = column_after (cur_column (lx cu))
              (PyStr.take d (PyStr.drop (position cu) str))
    | Raise (CompileException ln col p _) =>
        exists d, d <= count cu /\
          ln = cur_line (lx cu)
               + newlines (PyStr.take d (PyStr.drop (position cu) str)) /\
          col = column_after (cur_column (lx cu))
                  (PyStr.take d (PyStr.drop (position cu) str)) /\
          p = tree_path
    | _ => True
    end.
Proof.
  induction acts as [|a acts IH]; intros cu Hs Hc; cbn [exec_actions].
  - exists 0. cbn [PyStr.take newlines]. rewrite column_after_empty.
    repeat split; lia.
  - cbn [filter] in Hs. destruct (is_shift a) eqn:Ha.
    + destruct a; try discriminate Ha. cbn [exec_action].
      rewrite advance_spec. cbn [bind].
      assert (Hnone : filter is_shift acts = []).
      { destruct (filter is_shift acts); [reflexivity | cbn in Hs; lia]. }
      match goal with
      | |- context [exec_actions _ _ acts ?c] =>
          pose proof (@exec_actions_no_shift tree_path str acts c Hnone) as N;
          destruct (exec_actions tree_path str acts c) as [cu'|e|]
      end.
      * cbn [lx position cur_line cur_column] in N.
        destruct N as (N1 & N2 & N3).
        exists (count cu). rewrite N1, N2, N3, Hc. repeat split; lia.
      * destruct e; try exact I.
        cbn [lx position cur_line cur_column] in N.
        destruct N as (-> & -> & ->).
        exists (count cu). rewrite Hc. repeat split; lia.
      * exact I.
    + destruct (exec_action tree_path str a cu) as [cu1|e|] eqn:E1; cbn [bind].
      * destruct (exec_action_keeps _ _ _ _ Ha E1) as (P1 & P2 & P3 & P4 & P5).
        specialize (IH cu1 Hs). rewrite P1, P2, P3, P4, P5 in IH.
        exact (IH Hc).
      * destruct e; try exact I.
        destruct (exec_action_raises _ _ _ _ E1) as (-> & -> & ->).
        exists 0. cbn [PyStr.take newlines]. rewrite column_after_empty.
        repeat split; lia.
      * exact I.
Qed.

Lemma lookup_In {A : Type} k (d : list (string * A)) v :
  lookup k d = Some v -> In (k, v) d.
Proof.
  induction d as [|[k' v'] d IH]; cbn; [discriminate|].
  destruct (String.eqb_spec k k') as [->|_].
  - intros H. injection H as ->. now left.
  - intros H. right. now apply IH.
Qed.

Lemma first_match_In rules s cnt acts :
  first_match rules s = Some (cnt, acts) -> exists r, In (r, acts) rules.
Proof.
  induction rules as [|[r a] rules IH]; cbn; [discriminate|].
  destruct (Re.re_match r s).
  - intros H. injection H as _ <-. exists r. now left.
  - intros H. destruct (IH H) as (r' & Hr). exists r'. now right.
Qed.

Lemma shifts_once_rule states current rules s cnt acts :
  shifts_once states = true ->
  lookup current states = Some rules ->
  first_match rules s = Some (cnt, acts) ->
  length (filter is_shift acts) <= 1.
Proof.
  intros H L M. unfold shifts_once in H.
  apply lookup_In in L. apply first_match_In in M. destruct M as (r & M).
  rewrite forallb_forall in H. specialize (H _ L). cbn [snd] in H.
  rewrite forallb_forall in H. specialize (H _ M). cbn [snd] in H.
  now apply Nat.leb_le in H.
Qed.

(** The counters of a text run, and the position of an exception raised
    in it, for a grammar with at most one [Shift] in a rule. *)
Lemma lex_string_positions states tree_path str line0 col0 fuel :
  shifts_once states = true ->
  forall l pos,
    pos <= PyStr.len str ->
    cur_line l = line0 + newlines (PyStr.take pos str) ->
    cur_column l = column_after col0 (PyStr.take pos str) ->
    match lex_string fuel states tree_path str l pos with
    | Ok (l', _) =>
        cur_line l' = line0 + newlines str /\
        cur_column l' = column_after col0 str
    | Raise (CompileException ln col p _) =>
        exists pos', pos' <= PyStr.len str /\
          ln = line0 + newlines (PyStr.take pos' str) /\
          col = column_after col0 (PyStr.take pos' str) /\
          p = tree_path
    | _ => True
    end.
Proof.
  intros Honce.
  induction fuel as [|fuel IH]; intros l pos Hpos Hl Hc; [exact I|].
  cbn [lex_string].
  destruct (Nat.ltb_spec pos (PyStr.len str)) as [Hlt|Hge].
  - destruct (state_stack l) as [|current below]; [exact I|].
    destruct (lookup current states) as [rules|] eqn:L; [|exact I].
    destruct (first_match rules (PyStr.drop pos str)) as [[cnt acts]|] eqn:M.
    + pose proof (shifts_once_rule _ _ _ Honce L M) as Hs.
      apply first_match_le in M. fold (PyStr.len (PyStr.drop pos str)) in M.
      rewrite drop_length in M.
      pose proof (@exec_actions_positions tree_path str acts
                    (mkCursor l pos cnt (PyStr.slice pos (pos + cnt) str)) Hs
                    (slice_from pos cnt str)) as A.
      cbn [lx position count] in A.
      destruct (exec_actions tree_path str acts _) as [cu|e|]; cbn [bind].
      * destruct A as (d & Hd & A1 & A2 & A3).
        apply IH.
        -- lia.
        -- rewrite A1, A2, Hl, take_add, newlines_app. lia.
        -- rewrite A1, A3, Hc, take_add, column_after_app. reflexivity.
      * destruct e; try exact I.
        destruct A as (d & Hd & -> & -> & ->).
        exists (pos + d). rewrite take_add, newlines_app, column_after_app, Hl, Hc.
        repeat split; lia.
      * exact I.
    + now apply IH.
  - rewrite Hl, Hc, take_all by (unfold PyStr.len in Hge; lia). now split.
Qed.

Section LoopColumns.

Variable states : states_table.
Variable replace enter : list cls.
Variable tree_path : string.
Variable fuel : nat.
Variable recurse : node -> option (list string) -> option tstack -> result lexer.
Hypothesis Honce : shifts_once states = true.

Lemma input_loop_column input_nodes :
  forall l l',
    input_loop states replace enter tree_path fuel recurse input_nodes l = Ok l' ->
    cur_column l' = column_after (cur_column l) (text_of input_nodes).
Proof.
  induction input_nodes as [|[str|h cs ex] rest IH]; intros l l' E;
    cbn [input_loop text_of] in *.
  - injection E as <-. now rewrite column_after_empty.
  - pose proof (@lex_string_positions states tree_path str (cur_line l)
                  (cur_column l) fuel Honce l 0 (Nat.le_0_l _)) as P.
    cbn [PyStr.take newlines] in P. rewrite column_after_empty in P.
    specialize (P (eq_sym (Nat.add_0_r _)) eq_refl).
    destruct (lex_string fuel states tree_path str l 0) as [[l1 p1]| |];
      try discriminate.
    cbn [bind] in E. destruct P as [_ P].
    now rewrite (IH _ _ E), P, column_after_app.
  - destruct (isinstance_any (Tok h cs ex) replace).
    + destruct (recurse _ _ _) as [r| |]; try discriminate.
      cbn [bind] in E. now rewrite (IH _ _ E).
    + destruct (isinstance_any (Tok h cs ex) enter).
      * destruct (recurse _ _ _) as [r| |]; try discriminate.
        cbn [bind] in E.
        destruct (built (token_stack r)); try discriminate.
        destruct (append_top (token_stack l) n); try discriminate.
        cbn [bind] in E. now rewrite (IH _ _ E).
      * destruct (append_top (token_stack l) (Tok h cs ex)); try discriminate.
        cbn [bind] in E. now rewrite (IH _ _ E).
Qed.

End LoopColumns.

(** X2.  For a grammar none of whose rules shifts twice, the column
    counter of a call of [tokenize] that returns is the column reached by
    reading the node's text children from the column of the node: one after
    the length of the text behind the last newline, or, without a newline,
    the node's column plus the length of the text.  The children that are
    nodes do not move it. *)
Theorem column_counter_follows_text
  (fuel : nat) (h : header) (cs : list node) (ex : list (nat * list node))
  (states : states_table) (replace enter : list cls)
  (ss : option (list string)) (ts : option tstack) (_root : bool) (l : lexer)
  (Honce : shifts_once states = true)
  (Hrun : tokenize fuel (Tok h cs ex) states replace enter ss ts _root = Ok l) :
  cur_column l = column_after (column h) (text_of cs).
Proof.
  destruct fuel as [|fuel]; [discriminate|].
  cbn [tokenize] in Hrun.
  destruct (input_loop _ _ _ _ _ _ _ _) as [l1| |] eqn:E; try discriminate.
  cbn [bind] in Hrun.
  apply input_loop_column in E; [|exact Honce]. cbn [cur_column] in E.
  rewrite text_of_concat_strings in E.
  destruct _root.
  - destruct (frames (token_stack l1)) as [|f [|g fs]]; try discriminate.
    now injection Hrun as <-.
  - now injection Hrun as <-.
Qed.

Lemma column_counter_follows_text_witness :
  shifts_once JS.__JS_STATES = true /\
  exists l,
    tokenize 9
      (Tok (new_token "root" 1 1 "script.js")
         [Text ("a;" ++ JS.nl); Text ("b;" ++ JS.nl ++ "c")] [])
      JS.__JS_STATES [Token] [] None None true = Ok l /\
    cur_column l = 2.
Proof.
  split; [vm_compute; reflexivity|].
  eexists. split.
  - vm_compute. reflexivity.
  - apply (@column_counter_follows_text 9
             (new_token "root" 1 1 "script.js")
             [Text ("a;" ++ JS.nl); Text ("b;" ++ JS.nl ++ "c")] []
             JS.__JS_STATES [Token] [] None None true).
    + vm_compute. reflexivity.
    + vm_compute. reflexivity.
Defined.

(** X3.  For a grammar none of whose rules shifts twice, the position that
    an exception raised while lexing a text carries is that of a place in
    the text: its line is the line where the text began plus the newlines
    before that place, its column the column reached by reading the text up
    to that place, and its path that of the node. *)
Theorem lexer_errors_point_into_the_text
  (fuel : nat) (states : states_table) (tree_path str : string) (l : lexer)
  (ln col : nat) (p message : string)
  (Honce : shifts_once states = true)
  (Hraise : lex_string fuel states tree_path str l 0
            = Raise (CompileException ln col p message)) :
  exists pos, pos <= String.length str /\
    ln = cur_line l + newlines (PyStr.take pos str) /\
    col = column_after (cur_column l) (PyStr.take pos str) /\
    p = tree_path.
Proof.
  pose proof (@lex_string_positions states tree_path str (cur_line l)
                (cur_column l) fuel Honce l 0 (Nat.le_0_l _)) as P.
  cbn [PyStr.take newlines] in P. rewrite column_after_empty in P.
  specialize (P (eq_sym (Nat.add_0_r _)) eq_refl).
  rewrite Hraise in P. exact P.
Qed.

Lemma lexer_errors_point_into_the_text_witness :
  lex_string 9 JS.__JS_STATES "script.js" ("a;" ++ JS.nl ++ "b }")
    (mkLexer ["root"]
       (mkTstack [mkFrame (new_token "root" 1 1 "script.js") [] []] None)
       1 1 []) 0
  = Raise (CompileException 2 2 "script.js" "Token mismatch")
  /\
  exists pos, pos <= 6 /\
    2 = 1 + newlines (PyStr.take pos ("a;" ++ JS.nl ++ "b }")) /\
    2 = column_after 1 (PyStr.take pos ("a;" ++ JS.nl ++ "b }")) /\
    "script.js" = "script.js".
Proof.
  split; [vm_compute; reflexivity|].
  apply (@lexer_errors_point_into_the_text 9 JS.__JS_STATES "script.js"
           ("a;" ++ JS.nl ++ "b }")
           (mkLexer ["root"]
              (mkTstack [mkFrame (new_token "root" 1 1 "script.js") [] []] None)
              1 1 [])
           2 2 "script.js" "Token mismatch").
  - vm_compute. reflexivity.
  - vm_compute. reflexivity.
Defined.

(* ================================================================== *)
(** ** The lexer engine: the context of an error, text fragments *)

(** X4.  The text an [Error] rule quotes after [near:] is
    [string[position-20:position+20]].  Less than 20 characters into a text
    of 40 characters or more the start index is negative and counts from
    the end of the text, so the slice is empty: the exception shows no
    context at all. *)
Theorem error_near_the_start_shows_no_context
  (fuel : nat) (states : states_table) (tree_path str : string) (l : lexer)
  (pos : nat) (current : string) (below : list string) (rules : State)
  (cnt : nat) (message : string) (rest : list action)
  (Hstate : state_stack l = current :: below)
  (Hrules : lookup current states = Some rules)
  (Hmatch : first_match rules (PyStr.drop pos str)
            = Some (cnt, Error message :: rest))
  (Hpos : pos < 20)
  (Hlen : 40 <= String.length str) :
  lex_string (S fuel) states tree_path str l pos
  = Raise (CompileException (cur_line l) (cur_column l) tree_path
             (message ++ "; near: ''")).
Proof.
  cbn [lex_string].
  assert (Hlt : (pos <? PyStr.len str) = true)
    by (apply Nat.ltb_lt; unfold PyStr.len; lia).
  rewrite Hlt, Hstate, Hrules, Hmatch.
  cbn [exec_actions exec_action bind lx position cur_line cur_column].
  assert (Hnear : PyStr.near pos str = EmptyString).
  { unfold PyStr.near, PyStr.slice, PyStr.len.
    apply Nat.ltb_lt in Hpos. rewrite Hpos. apply Nat.ltb_lt in Hpos.
    replace (pos + 20 - (String.length str - (20 - pos))) with 0 by lia.
    reflexivity. }
  rewrite Hnear. reflexivity.
Qed.

Lemma error_near_the_start_shows_no_context_witness :
  lex_string 1 JS.__JS_STATES "script.js"
    "# this line is no JavaScript comment at all"
    (mkLexer ["root"]
       (mkTstack [mkFrame (new_token "root" 1 1 "script.js") [] []] None)
       1 1 []) 0
  = Raise (CompileException 1 1 "script.js" "Error in parser #1; near: ''").
Proof.
  apply (@error_near_the_start_shows_no_context 0 JS.__JS_STATES "script.js"
           "# this line is no JavaScript comment at all"
           (mkLexer ["root"]
              (mkTstack [mkFrame (new_token "root" 1 1 "script.js") [] []] None)
              1 1 [])
           0 "root" [] JS.root_state 1 "Error in parser #1" []).
  - reflexivity.
  - reflexivity.
  - vm_compute. reflexivity.
  - lia.
  - cbn. lia.
Defined.

(** X5.  Consecutive text children are lexed as one text: a node whose
    children are text fragments is tokenized exactly as the node with the
    one child that is their concatenation, so a pattern can match across
    the boundary between two fragments. *)
Theorem text_fragments_are_lexed_as_one_text
  (fuel : nat) (h : header) (first : string) (others : list string)
  (ex : list (nat * list node)) (states : states_table)
  (replace enter : list cls) (ss : option (list string))
  (ts : option tstack) (_root : bool) :
  tokenize fuel (Tok h (map Text (first :: others)) ex) states replace enter
    ss ts _root
  = tokenize fuel
      (Tok h [Text (String.concat EmptyString (first :: others))] ex)
      states replace enter ss ts _root.
Proof.
  destruct fuel as [|fuel]; [reflexivity|].
  cbn [tokenize]. rewrite concat_strings_texts. reflexivity.
Qed.

(* ================================================================== *)
(** ** The JavaScript grammar: braces, string literals, comments *)

(** One round of the [while position < len(string)] loop. *)
Lemma lex_string_step fuel states tree_path str l pos current below rules
  cnt acts :
  state_stack l = current :: below ->
  lookup current states = Some rules ->
  first_match rules (PyStr.drop pos str) = Some (cnt, acts) ->
  pos < PyStr.len str ->
  lex_string (S fuel) states tree_path str l pos
  = (cu <- exec_actions tree_path str acts
             (mkCursor l pos cnt (PyStr.slice pos (pos + cnt) str)) ;;
     lex_string fuel states tree_path str (lx cu) (position cu)).
Proof.
  intros Hs Hl Hm Hpos. cbn [lex_string].
  apply Nat.ltb_lt in Hpos. now rewrite Hpos, Hs, Hl, Hm.
Qed.

Lemma lex_string_end fuel states tree_path str l pos :
  PyStr.len str <= pos ->
  lex_string (S fuel) states tree_path str l pos = Ok (l, pos).
Proof.
  intros H. cbn [lex_string]. apply Nat.ltb_ge in H. now rewrite H.
Qed.

Lemma drop_app a : forall b, PyStr.drop (String.length a) (a ++ b) = b.
Proof. induction a as [|c a IH]; intros b; cbn; [reflexivity | apply IH]. Qed.

Lemma take_app a : forall b, PyStr.take (String.length a) (a ++ b) = a.
Proof.
  induction a as [|c a IH]; intros b; cbn; [reflexivity | now rewrite IH].
Qed.

Lemma drop_add n : forall m s,
  PyStr.drop (n + m) s = PyStr.drop m (PyStr.drop n s).
Proof.
  induction n as [|n IH]; intros m s; cbn [Nat.add PyStr.drop].
  - reflexivity.
  - destruct s as [|c s]; [destruct m; reflexivity | apply IH].
Qed.

Section Rounds.

Import Re.

Lemma star_nonempty r s : exists x xs, alts (Star r) s = x :: xs.
Proof.
  cbn [alts]. generalize (String.length s) as n. intros [|n]; cbn [star_loop].
  - now exists s, [].
  - destruct (flat_map _ _) as [|y ys]; cbn [app]; eauto.
Qed.

(** What [p*] can leave: the text without a run of characters of the
    class at its start. *)
Lemma star_loop_class_remainders p n : forall s s',
  In s' (star_loop (alts (Cls p)) n s) ->
  exists w, all_chars p w = true /\ s = (w ++ s')%string.
Proof.
  induction n as [|n IH]; intros s s' H; cbn [star_loop] in H.
  - destruct H as [<-|[]]. now exists EmptyString.
  - apply in_app_or in H. destruct H as [H|[<-|[]]].
    + apply in_flat_map in H. destruct H as (m & Hm & H).
      destruct s as [|c x]; cbn [alts] in Hm; [contradiction|].
      destruct (p c) eqn:Pc; [|contradiction]. destruct Hm as [<-|[]].
      destruct (String.length x <? String.length (String c x));
        [|contradiction].
      destruct (IH _ _ H) as (w & Hw & ->).
      exists (String c w). cbn. now rewrite Pc, Hw.
    + now exists EmptyString.
Qed.

Lemma class_split_unique p a : forall t a' t',
  all_chars p a = true ->
  match t with EmptyString => true | String c _ => negb (p c) end = true ->
  all_chars p a' = true ->
  match t' with EmptyString => true | String c _ => negb (p c) end = true ->
  (a ++ t)%string = (a' ++ t')%string -> a = a' /\ t = t'.
Proof.
  induction a as [|c a IH]; intros t a' t' Ha Ht Ha' Ht' E.
  - destruct a' as [|c' a']; [now split|].
    cbn in E, Ha'. subst t. cbn in Ht.
    apply andb_true_iff in Ha'. destruct Ha' as [Hc _].
    rewrite Hc in Ht. discriminate.
  - destruct a' as [|c' a'].
    + cbn in E, Ha. subst t'. cbn in Ht'.
      apply andb_true_iff in Ha. destruct Ha as [Hc _].
      rewrite Hc in Ht'. discriminate.
    + cbn in E, Ha, Ha'. injection E as -> E.
      apply andb_true_iff in Ha, Ha'.
      assert (H : a = a' /\ t = t') by (apply IH; tauto).
      destruct H as [-> ->]. now split.
Qed.

Lemma re_match_lit p x : re_match (Lit p) (p ++ x) = Some (String.length p).
Proof.
  unfold re_match. cbn [alts].
  rewrite (proj2 (strip_prefix_spec p (p ++ x) x) eq_refl).
  rewrite length_append_string. f_equal. lia.
Qed.

(** The rule of the [root] state that fires at a closing brace, whatever
    blank text is in front of it. *)
Lemma closing_brace_rule ws rest :
  all_chars PyStr.is_space ws = true ->
  exists cnt,
    first_match JS.root_state (ws ++ "}" ++ rest)
    = Some (cnt, [StopToken (Some "js-scope"); Shift]).
Proof.
  intros Hws. unfold JS.root_state. cbn [first_match].
  assert (R1 : re_match (JS.spaced (Lit "{")) (ws ++ "}" ++ rest) = None).
  { unfold re_match.
    destruct (alts (JS.spaced (Lit "{")) (ws ++ "}" ++ rest))
      as [|s' tl] eqn:E; [reflexivity | exfalso].
    assert (H : In s' (alts (JS.spaced (Lit "{")) (ws ++ "}" ++ rest)))
      by (rewrite E; now left).
    unfold JS.spaced, space in H.
    change (In s' (flat_map (alts (Seq (Lit "{") (Star (Cls PyStr.is_space))))
                     (star_loop (alts (Cls PyStr.is_space))
                        (String.length (ws ++ "}" ++ rest))
                        (ws ++ "}" ++ rest)))) in H.
    apply in_flat_map in H. destruct H as (m & Hm & H).
    apply star_loop_class_remainders in Hm. destruct Hm as (w & Hw & Es).
    change (In s' (flat_map (alts (Star (Cls PyStr.is_space)))
                     (alts (Lit "{") m))) in H.
    apply in_flat_map in H. destruct H as (m' & Hm' & _).
    cbn [alts] in Hm'.
    destruct (strip_prefix "{" m) as [r|] eqn:S; [|contradiction].
    apply strip_prefix_spec in S. subst m.
    destruct (@class_split_unique PyStr.is_space ws ("}" ++ rest) w ("{" ++ r)
                Hws eq_refl Hw eq_refl Es) as [_ Habs].
    discriminate Habs. }
  rewrite R1.
  assert (R2 : exists cnt,
             re_match (JS.spaced (Lit "}")) (ws ++ "}" ++ rest) = Some cnt).
  { unfold re_match, JS.spaced, space.
    change (alts (Seq ?r1 ?r2) ?s) with (flat_map (alts r2) (alts r1 s)).
    destruct (@star_class_run PyStr.is_space ws ("}" ++ rest) eq_refl Hws)
      as (shorter & E).
    rewrite E. cbn [flat_map].
    change (alts (Seq (Lit "}") (Star (Cls PyStr.is_space))) ("}" ++ rest))
      with (flat_map (alts (Star (Cls PyStr.is_space))) [rest]).
    cbn [flat_map].
    destruct (star_nonempty (Cls PyStr.is_space) rest) as (x & xs & ->).
    cbn [app]. eauto. }
  destruct R2 as (cnt & ->). now exists cnt.
Qed.

End Rounds.

(** X6.  A closing brace met in the [root] state while the innermost open
    token is not a scope is reported as [Token mismatch], at the line and
    column where the match began: blank text in front of the brace belongs
    to the match.  A script whose first brace is a closing one is the case
    where the open token is the root. *)
Theorem closing_brace_without_open_scope_is_a_token_mismatch
  (fuel : nat) (tree_path str : string) (l : lexer) (pos : nat)
  (below : list string) (top : frame) (fs : list frame) (ws rest : string)
  (Hstate : state_stack l = "root" :: below)
  (Hopen : frames (token_stack l) = top :: fs)
  (Hname : name (fheader top) <> "js-scope")
  (Hws : all_chars PyStr.is_space ws = true)
  (Htext : PyStr.drop pos str = (ws ++ "}" ++ rest)%string) :
  lex_string (S fuel) JS.__JS_STATES tree_path str l pos
  = Raise (CompileException (cur_line l) (cur_column l) tree_path
             "Token mismatch").
Proof.
  destruct (closing_brace_rule ws rest Hws) as (cnt & M).
  rewrite <- Htext in M.
  assert (Hpos : pos < PyStr.len str).
  { pose proof (drop_length pos str) as D. rewrite Htext in D.
    unfold PyStr.len in *. rewrite length_append_string in D.
    cbn [String.append String.length] in D. lia. }
  rewrite (@lex_string_step fuel JS.__JS_STATES tree_path str l pos "root"
             below JS.root_state cnt _ Hstate eq_refl M Hpos).
  cbn [exec_actions exec_action lx truthy]. rewrite Hopen.
  apply String.eqb_neq in Hname. rewrite Hname. reflexivity.
Qed.

Lemma closing_brace_without_open_scope_is_a_token_mismatch_witness :
  lex_string 1 JS.__JS_STATES "script.js" "  } else { }"
    (mkLexer ["root"]
       (mkTstack [mkFrame (new_token "root" 1 1 "script.js") [] []] None)
       1 1 []) 0
  = Raise (CompileException 1 1 "script.js" "Token mismatch").
Proof.
  apply (@closing_brace_without_open_scope_is_a_token_mismatch 0 "script.js"
           "  } else { }"
           (mkLexer ["root"]
              (mkTstack [mkFrame (new_token "root" 1 1 "script.js") [] []] None)
              1 1 [])
           0 [] (mkFrame (new_token "root" 1 1 "script.js") [] []) []
           "  " " else { }").
  - reflexivity.
  - reflexivity.
  - cbn. discriminate.
  - reflexivity.
  - reflexivity.
Defined.

Section Literals.

Import Re.

(** A greedy repetition takes a run of characters whole before anything
    shorter, when each character of the run is matched in one way first
    and nothing matches behind the run. *)
Lemma star_loop_greedy (m : string -> list string) p t :
  (forall c x, p c = true -> exists tl, m (String c x) = x :: tl) ->
  m t = [] ->
  forall n w,
    String.length w <= n -> all_chars p w = true ->
    exists shorter, star_loop m n (w ++ t) = t :: shorter.
Proof.
  intros Hm Hstop.
  induction n as [|n IH]; intros w Hlen Hall.
  - destruct w; [|cbn in Hlen; lia]. now exists [].
  - destruct w as [|c w].
    + cbn [String.append star_loop]. rewrite Hstop. now exists [].
    + cbn in Hall. apply andb_true_iff in Hall. destruct Hall as [Hc Hw].
      cbn [String.append star_loop].
      destruct (Hm c (w ++ t)%string Hc) as (tl & ->). cbn [flat_map].
      assert (L : (String.length (w ++ t) <? String.length (String c (w ++ t)))
                  = true) by (apply Nat.ltb_lt; cbn; lia).
      rewrite L.
      destruct (IH w) as (shorter & ->); [cbn in Hlen; lia | assumption |].
      cbn [app]. eexists. reflexivity.
Qed.

(** [r+] for such a pattern takes a non-empty run whole. *)
Lemma plus_greedy r p c w t :
  (forall c x, p c = true -> exists tl, alts r (String c x) = x :: tl) ->
  alts r t = [] ->
  p c = true -> all_chars p w = true ->
  re_match (Plus r) (String c w ++ t) = Some (S (String.length w)).
Proof.
  intros Hm Hstop Hc Hw. unfold re_match, Plus.
  change (alts (Seq r (Star r)) (String c w ++ t))
    with (flat_map (fun s => star_loop (alts r) (String.length s) s)
            (alts r (String c (w ++ t)))).
  destruct (Hm c (w ++ t)%string Hc) as (tl & ->). cbn [flat_map].
  destruct (@star_loop_greedy (alts r) p t Hm Hstop (String.length (w ++ t)) w)
    as (shorter & ->); [rewrite length_append_string; lia | assumption |].
  cbn [app String.append String.length]. rewrite length_append_string.
  f_equal. lia.
Qed.

Lemma root_state_on_dquote x :
  first_match JS.root_state (JS.dquote ++ x)
  = Some (1, [Push "double-quoted-string";
              StartToken "js-double-quoted-string"; Record_ None; Shift]).
Proof.
  unfold JS.root_state, JS.dquote. cbn [first_match String.append].
  rewrite !spaced_literal_fails by reflexivity.
  rewrite !literal_fails by reflexivity.
  change (String (ascii_of_nat 34) x)
    with (String (ascii_of_nat 34) EmptyString ++ x)%string.
  rewrite re_match_lit. reflexivity.
Qed.


Lemma seq_literal_fails a y r c x :
  Ascii.eqb a c = false ->
  re_match (Seq (Lit (String a y)) r) (String c x) = None.
Proof.
  intros Ha. unfold re_match.
  change (alts (Seq ?r1 ?r2) ?s) with (flat_map (alts r2) (alts r1 s)).
  cbn [alts strip_prefix]. now rewrite Ha.
Qed.

Lemma string_char_facts c :
  negb (chr_in (JS.dquote ++ JS.backslash) c) = true ->
  Ascii.eqb (ascii_of_nat 34) c = false /\ Ascii.eqb "\" c = false.
Proof.
  destruct c as [[] [] [] [] [] [] [] []]; vm_compute; intros H;
    first [discriminate H | split; reflexivity].
Qed.

Lemma string_state_on_body c w x message :
  negb (chr_in (JS.dquote ++ JS.backslash) c) = true ->
  string_body JS.dquote w = true ->
  first_match (JS.quoted_string_state JS.dquote message)
    (String c w ++ JS.dquote ++ x)
  = Some (S (String.length w), [Record_ None; Shift]).
Proof.
  intros Hc Hw. destruct (string_char_facts _ Hc) as [F1 F2].
  unfold JS.quoted_string_state. cbn [first_match String.append].
  unfold JS.dquote at 1. rewrite (@literal_fails _ _ _ _ F1).
  unfold JS.backslash at 1. rewrite (@seq_literal_fails _ _ _ _ _ F2).
  change (String c (w ++ JS.dquote ++ x))
    with (String c w ++ (JS.dquote ++ x))%string.
  unfold noneof.
  rewrite (@plus_greedy _ (fun c => negb (chr_in (JS.dquote ++ JS.backslash) c))
             c w (JS.dquote ++ x)); try assumption; try reflexivity.
  intros c' x' Hc'. cbn [alts]. rewrite Hc'. now exists [].
Qed.

Lemma string_state_on_quote x message :
  first_match (JS.quoted_string_state JS.dquote message) (JS.dquote ++ x)
  = Some (1, [Record_ None; Pop; Shift; StopToken None]).
Proof.
  unfold JS.quoted_string_state. cbn [first_match].
  rewrite re_match_lit. reflexivity.
Qed.

End Literals.

Lemma tokenize_string_literal (fuel : nat) (body p : string)
  (Hbody : string_body JS.dquote body = true) :
  JS.tokenize_string (5 + fuel) (JS.dquote ++ body ++ JS.dquote) p
  = Ok (Tok (new_token "root" 1 1 p)
          [Tok (new_token "js-double-quoted-string" 1 1 p)
             (Text JS.dquote
              :: match body with
                 | EmptyString => []
                 | String _ _ => [Text body]
                 end ++ [Text JS.dquote]) []] []).
Proof.
  unfold JS.tokenize_string, tokenized.
  cbn [Nat.add tokenize concat_strings input_loop list_or tstack_or path line
       column new_token].
  set (str := (JS.dquote ++ body ++ JS.dquote)%string).
  assert (Hpos0 : 0 < PyStr.len str) by (cbn; lia).
  match goal with
  | |- context [lex_string _ _ _ _ ?l 0] =>
      rewrite (@lex_string_step _ JS.__JS_STATES p str l 0 "root" []
                 JS.root_state 1 _ eq_refl eq_refl
                 (root_state_on_dquote _) Hpos0)
  end.
  change (PyStr.slice 0 (0 + 1) str) with JS.dquote.
  cbn [exec_actions exec_action bind lx truthy content count position
       with_states with_tokens state_stack token_stack frames detached
       append_top append cur_line cur_column advances new_token].
  change (advance 1 1 JS.dquote JS.dquote) with (1, 2, JS.dquote).
  cbn [bind lx position Nat.add].
  destruct body as [|c w].
  - subst str. vm_compute. reflexivity.
  - unfold string_body in Hbody. cbn [all_chars] in Hbody.
    apply andb_true_iff in Hbody. destruct Hbody as [Hc Hw].
    fold (string_body JS.dquote w) in Hw.
    assert (Hlen : PyStr.len str = S (S (S (String.length w)))).
    { subst str. unfold PyStr.len. cbn. rewrite length_append_string. cbn. lia. }
    match goal with
    | |- context [lex_string _ _ _ _ ?l 1] =>
        rewrite (@lex_string_step _ JS.__JS_STATES p str l 1
                   "double-quoted-string" ["root"]
                   (JS.quoted_string_state JS.dquote "Error in parser #2")
                   (S (String.length w)) _ eq_refl eq_refl
                   (@string_state_on_body c w EmptyString _ Hc Hw)
                   ltac:(rewrite Hlen; lia))
    end.
    assert (Hslice : PyStr.slice 1 (1 + S (String.length w)) str = String c w).
    { rewrite slice_from. subst str.
      change (PyStr.drop 1 (JS.dquote ++ String c w ++ JS.dquote))
        with (String c w ++ JS.dquote)%string.
      exact (take_app (String c w) JS.dquote). }
    rewrite Hslice.
    cbn [exec_actions exec_action bind lx truthy content count position
         with_states with_tokens state_stack token_stack frames detached
         append_top append cur_line cur_column advances new_token
         fheader fchildren fextra app].
    rewrite advance_spec.
    cbn [bind lx position].
    assert (Hdrop : PyStr.drop (1 + S (String.length w)) str = JS.dquote).
    { subst str.
      change (PyStr.drop (1 + S (String.length w))
                (JS.dquote ++ String c w ++ JS.dquote))
        with (PyStr.drop (String.length w) (w ++ JS.dquote)).
      apply drop_app. }
    match goal with
    | |- context [lex_string _ _ _ _ ?l (1 + S (String.length w))] =>
        rewrite (@lex_string_step _ JS.__JS_STATES p str l
                   (1 + S (String.length w))
                   "double-quoted-string" ["root"]
                   (JS.quoted_string_state JS.dquote "Error in parser #2")
                   1 _ eq_refl eq_refl
                   ltac:(rewrite Hdrop;
                         exact (string_state_on_quote EmptyString _))
                   ltac:(rewrite Hlen; lia))
    end.
    rewrite slice_from, Hdrop.
    change (PyStr.take 1 JS.dquote) with JS.dquote.
    cbn [exec_actions exec_action bind lx truthy content count position
         with_states with_tokens state_stack token_stack frames detached
         append_top append pop_token node_of_frame cur_line cur_column
         advances new_token fheader fchildren fextra app].
    rewrite advance_spec.
    cbn [bind lx position with_tokens token_stack pop_token frames
         state_stack cur_line cur_column advances detached append
         node_of_frame fheader fchildren fextra app].
    rewrite lex_string_end by (rewrite Hlen; lia).
    cbn [bind token_stack frames]. unfold built. cbn [frames token_stack].
    reflexivity.
Qed.

(** X7.  A double-quoted string literal whose body needs no escape (it has
    no quote and no backslash; newlines, braces, keywords and comment
    markers are allowed) is lexed as one string token whose children are
    the opening quote, the body in one piece and the closing quote; and the
    steps of [compile_javascript_string] up to the renaming give the
    literal back unchanged. *)
Theorem string_literal_is_one_token (fuel : nat) (body p : string)
  (Hbody : string_body JS.dquote body = true) :
  JS.tokenize_string (5 + fuel) (JS.dquote ++ body ++ JS.dquote) p
  = Ok (Tok (new_token "root" 1 1 p)
          [Tok (new_token "js-double-quoted-string" 1 1 p)
             (Text JS.dquote
              :: match body with
                 | EmptyString => []
                 | String _ _ => [Text body]
                 end ++ [Text JS.dquote]) []] [])
  /\
  compiled_output (5 + fuel) (JS.dquote ++ body ++ JS.dquote)
  = Ok ((JS.dquote ++ body ++ JS.dquote)%string).
Proof.
  split; [exact (tokenize_string_literal fuel body p Hbody)|].
  unfold compiled_output, compile_javascript_string.
  rewrite (tokenize_string_literal fuel body EmptyString Hbody).
  destruct body as [|c w]; [vm_compute; reflexivity|].
  cbn. rewrite !append_empty_r. reflexivity.
Qed.

Lemma string_literal_is_one_token_witness :
  JS.tokenize_string 5 (JS.dquote ++ "var x = {" ++ JS.dquote) "script.js"
  = Ok (Tok (new_token "root" 1 1 "script.js")
          [Tok (new_token "js-double-quoted-string" 1 1 "script.js")
             [Text JS.dquote; Text "var x = {"; Text JS.dquote] []] [])
  /\
  compiled_output 5 (JS.dquote ++ "var x = {" ++ JS.dquote)
  = Ok ((JS.dquote ++ "var x = {" ++ JS.dquote)%string).
Proof.
  exact (@string_literal_is_one_token 0 "var x = {" "script.js" eq_refl).
Defined.

Section Comments.

Import Re.

Lemma root_state_on_comment x :
  first_match JS.root_state ("/*" ++ x)
  = Some (2, [Push "multiline-comment"; Shift]).
Proof.
  unfold JS.root_state. cbn [first_match].
  change ("/*" ++ x)%string with (String "/" (String "*" x)).
  rewrite !spaced_literal_fails by reflexivity.
  change (String "/" (String "*" x)) with ("/*" ++ x)%string.
  rewrite re_match_lit. reflexivity.
Qed.

Lemma comment_char_facts c :
  negb (chr_in "*" c) = true -> Ascii.eqb "*" c = false.
Proof.
  destruct c as [[] [] [] [] [] [] [] []]; vm_compute; intros H;
    first [discriminate H | reflexivity].
Qed.

Lemma comment_state_on_body c w x :
  negb (chr_in "*" c) = true ->
  comment_body w = true ->
  first_match JS.multiline_comment_state (String c w ++ "*/" ++ x)
  = Some (S (String.length w), [Shift]).
Proof.
  intros Hc Hw. pose proof (comment_char_facts _ Hc) as F.
  unfold JS.multiline_comment_state. cbn [first_match String.append].
  rewrite (@literal_fails _ _ _ _ F).
  change (String c (w ++ String "*" (String "/" x)))
    with (String c w ++ ("*/" ++ x))%string.
  rewrite (@plus_greedy _ (fun c => negb (chr_in "*" c)) c w ("*/" ++ x));
    try assumption; try reflexivity.
  intros c' x' Hc'.
  change (alts (Alt ?r1 ?r2) ?s) with (alts r1 s ++ alts r2 s).
  change (alts (Seq ?r1 ?r2) ?s) with (flat_map (alts r2) (alts r1 s)).
  cbn [alts strip_prefix noneof].
  rewrite (comment_char_facts _ Hc'), Hc'. now exists [].
Qed.

Lemma comment_state_on_end x :
  first_match JS.multiline_comment_state ("*/" ++ x) = Some (2, [Shift; Pop]).
Proof.
  unfold JS.multiline_comment_state. cbn [first_match].
  rewrite re_match_lit. reflexivity.
Qed.

End Comments.

Lemma tokenize_block_comment (fuel : nat) (body p : string)
  (Hbody : comment_body body = true) :
  JS.tokenize_string (5 + fuel) ("/*" ++ body ++ "*/") p
  = Ok (Tok (new_token "root" 1 1 p) [] []).
Proof.
  unfold JS.tokenize_string, tokenized.
  cbn [Nat.add tokenize concat_strings input_loop list_or tstack_or path line
       column new_token].
  set (str := ("/*" ++ body ++ "*/")%string).
  assert (Hpos0 : 0 < PyStr.len str) by (cbn; lia).
  match goal with
  | |- context [lex_string _ _ _ _ ?l 0] =>
      rewrite (@lex_string_step _ JS.__JS_STATES p str l 0 "root" []
                 JS.root_state 2 _ eq_refl eq_refl
                 (root_state_on_comment _) Hpos0)
  end.
  change (PyStr.slice 0 (0 + 2) str) with "/*".
  cbn [exec_actions exec_action bind lx truthy content count position
       with_states with_tokens state_stack token_stack frames detached
       append_top append cur_line cur_column advances new_token].
  change (advance 1 1 "/*" "/*") with (1, 3, "/*").
  cbn [bind lx position Nat.add].
  destruct body as [|c w].
  - subst str. vm_compute. reflexivity.
  - unfold comment_body in Hbody. cbn [all_chars] in Hbody.
    apply andb_true_iff in Hbody. destruct Hbody as [Hc Hw].
    fold (comment_body w) in Hw.
    assert (Hlen : PyStr.len str = 5 + String.length w).
    { subst str. unfold PyStr.len. cbn. rewrite length_append_string. cbn. lia. }
    match goal with
    | |- context [lex_string _ _ _ _ ?l 2] =>
        rewrite (@lex_string_step _ JS.__JS_STATES p str l 2
                   "multiline-comment" ["root"]
                   JS.multiline_comment_state
                   (S (String.length w)) _ eq_refl eq_refl
                   (@comment_state_on_body c w EmptyString Hc Hw)
                   ltac:(rewrite Hlen; lia))
    end.
    assert (Hslice : PyStr.slice 2 (2 + S (String.length w)) str = String c w).
    { rewrite slice_from. subst str.
      change (PyStr.drop 2 ("/*" ++ String c w ++ "*/"))
        with (String c w ++ "*/")%string.
      exact (take_app (String c w) "*/"). }
    rewrite Hslice.
    cbn [exec_actions exec_action bind lx truthy content count position
         with_states with_tokens state_stack token_stack frames detached
         append_top append cur_line cur_column advances new_token
         fheader fchildren fextra app].
    rewrite advance_spec.
    cbn [bind lx position].
    assert (Hdrop : PyStr.drop (2 + S (String.length w)) str = "*/").
    { subst str.
      change (PyStr.drop (2 + S (String.length w))
                ("/*" ++ String c w ++ "*/"))
        with (PyStr.drop (String.length w) (w ++ "*/")).
      apply drop_app. }
    match goal with
    | |- context [lex_string _ _ _ _ ?l (2 + S (String.length w))] =>
        rewrite (@lex_string_step _ JS.__JS_STATES p str l
                   (2 + S (String.length w))
                   "multiline-comment" ["root"]
                   JS.multiline_comment_state
                   2 _ eq_refl eq_refl
                   ltac:(rewrite Hdrop; exact (comment_state_on_end EmptyString))
                   ltac:(rewrite Hlen; lia))
    end.
    rewrite slice_from, Hdrop.
    change (PyStr.take 2 "*/") with "*/".
    cbn [exec_actions exec_action bind lx truthy content count position
         with_states with_tokens state_stack token_stack frames detached
         append_top append pop_token node_of_frame cur_line cur_column
         advances new_token fheader fchildren fextra app].
    rewrite advance_spec.
    cbn [bind lx position with_states with_tokens token_stack pop_token frames
         state_stack cur_line cur_column advances detached append
         node_of_frame fheader fchildren fextra app].
    rewrite lex_string_end by (rewrite Hlen; lia).
    cbn [bind token_stack frames]. unfold built. cbn [frames token_stack].
    reflexivity.
Qed.

(** X8.  A block comment whose body has no asterisk leaves no token: the
    tree is the root without children, and the steps of
    [compile_javascript_string] up to the renaming give the empty text. *)
Theorem block_comment_leaves_no_token (fuel : nat) (body p : string)
  (Hbody : comment_body body = true) :
  JS.tokenize_string (5 + fuel) ("/*" ++ body ++ "*/") p
  = Ok (Tok (new_token "root" 1 1 p) [] [])
  /\
  compiled_output (5 + fuel) ("/*" ++ body ++ "*/") = Ok EmptyString.
Proof.
  split; [exact (tokenize_block_comment fuel body p Hbody)|].
  unfold compiled_output, compile_javascript_string.
  rewrite (tokenize_block_comment fuel body EmptyString Hbody).
  vm_compute. reflexivity.
Qed.

Lemma block_comment_leaves_no_token_witness :
  JS.tokenize_string 5 "/* var x = { */" "script.js"
  = Ok (Tok (new_token "root" 1 1 "script.js") [] [])
  /\
  compiled_output 5 "/* var x = { */" = Ok EmptyString.
Proof.
  exact (@block_comment_leaves_no_token 0 " var x = { " "script.js" eq_refl).
Defined.

(* ================================================================== *)
(** ** The template grammar *)

Section TemplateGrammar.

Import Re.

(** A match never leaves more text than there was. *)
Lemma star_loop_le (m : string -> list string) :
  (forall s s', In s' (m s) -> String.length s' <= String.length s) ->
  forall n s s',
    In s' (star_loop m n s) -> String.length s' <= String.length s.
Proof.
  intros Hm. induction n as [|n IH]; intros s s' H; cbn [star_loop] in H.
  - destruct H as [<-|[]]. lia.
  - apply in_app_or in H. destruct H as [H|[<-|[]]]; [|lia].
    apply in_flat_map in H. destruct H as (x & Hx & H).
    destruct (String.length x <? String.length s); [|contradiction].
    apply IH in H. apply Hm in Hx. lia.
Qed.

Lemma alts_le r : forall s s',
  In s' (alts r s) -> String.length s' <= String.length s.
Proof.
  induction r as [p|p|r1 IH1 r2 IH2|r1 IH1 r2 IH2|r IH|r IH]; intros s s' H.
  - cbn [alts] in H. destruct (strip_prefix p s) as [x|] eqn:E; [|contradiction].
    destruct H as [<-|[]]. apply strip_prefix_spec in E. subst s.
    rewrite length_append_string. lia.
  - destruct s as [|c x]; cbn [alts] in H; [contradiction|].
    destruct (p c); [|contradiction]. destruct H as [<-|[]]. cbn. lia.
  - change (In s' (flat_map (alts r2) (alts r1 s))) in H.
    apply in_flat_map in H. destruct H as (x & Hx & H).
    apply IH1 in Hx. apply IH2 in H. lia.
  - change (In s' (alts r1 s ++ alts r2 s)) in H.
    apply in_app_or in H. destruct H as [H|H]; auto.
  - cbn [alts] in H. now apply (star_loop_le _ IH) in H.
  - cbn [alts] in H. destruct (alts r s); [|contradiction].
    destruct H as [<-|[]]. lia.
Qed.

Lemma seq_lit_none p r s :
  strip_prefix p s = None -> re_match (Seq (Lit p) r) s = None.
Proof.
  intros H. unfold re_match.
  change (alts (Seq (Lit p) r) s) with (flat_map (alts r) (alts (Lit p) s)).
  cbn [alts]. now rewrite H.
Qed.

Lemma lit_none p s : strip_prefix p s = None -> re_match (Lit p) s = None.
Proof. intros H. unfold re_match. cbn [alts]. now rewrite H. Qed.

(** A pattern that starts with a literal matches at least the literal. *)
Lemma seq_lit_count p r s cnt :
  re_match (Seq (Lit p) r) s = Some cnt -> String.length p <= cnt.
Proof.
  unfold re_match.
  destruct (alts (Seq (Lit p) r) s) as [|s' tl] eqn:E; [discriminate|].
  intros H. injection H as <-.
  assert (Hin : In s' (alts (Seq (Lit p) r) s)) by (rewrite E; now left).
  change (In s' (flat_map (alts r) (alts (Lit p) s))) in Hin.
  apply in_flat_map in Hin. destruct Hin as (x & Hx & Hin).
  cbn [alts] in Hx. destruct (strip_prefix p s) as [y|] eqn:S; [|contradiction].
  destruct Hx as [<-|[]]. apply strip_prefix_spec in S. subst s.
  apply alts_le in Hin. rewrite length_append_string. lia.
Qed.

Lemma seq_lit_match p r x :
  alts r x <> [] ->
  exists cnt, re_match (Seq (Lit p) r) (p ++ x) = Some cnt.
Proof.
  intros H. unfold re_match.
  change (alts (Seq (Lit p) r) (p ++ x))
    with (flat_map (alts r) (alts (Lit p) (p ++ x))).
  cbn [alts]. rewrite (proj2 (strip_prefix_spec p (p ++ x) x) eq_refl).
  cbn [flat_map]. rewrite app_nil_r.
  destruct (alts r x); [contradiction | eauto].
Qed.

Lemma star_not_nil r s : alts (Star r) s <> [].
Proof. destruct (star_nonempty r s) as (x & xs & ->). discriminate. Qed.

(** [\{%\s*word\s*%\}] matches a tag that holds the word and blanks only. *)
Lemma block_tag_matches word ws1 ws2 rest :
  all_chars PyStr.is_space ws1 = true ->
  all_chars PyStr.is_space ws2 = true ->
  match word with
  | EmptyString => false
  | String c _ => negb (PyStr.is_space c)
  end = true ->
  alts (Django.block_tag word)
    ("{%" ++ ws1 ++ word ++ ws2 ++ "%}" ++ rest) <> [].
Proof.
  intros H1 H2 Hword. unfold Django.block_tag, space.
  assert (L : forall p x r, alts (Seq (Lit p) r) (p ++ x) = alts r x).
  { intros p x r.
    change (alts (Seq (Lit p) r) (p ++ x))
      with (flat_map (alts r) (alts (Lit p) (p ++ x))).
    cbn [alts]. rewrite (proj2 (strip_prefix_spec p (p ++ x) x) eq_refl).
    cbn [flat_map]. apply app_nil_r. }
  assert (S : forall ws t r,
             all_chars PyStr.is_space ws = true ->
             match t with
             | EmptyString => true
             | String c _ => negb (PyStr.is_space c)
             end = true ->
             alts r t <> [] ->
             alts (Seq (Star (Cls PyStr.is_space)) r) (ws ++ t) <> []).
  { intros ws t r Hws Ht Hr.
    change (alts (Seq (Star (Cls PyStr.is_space)) r) (ws ++ t))
      with (flat_map (alts r) (alts (Star (Cls PyStr.is_space)) (ws ++ t))).
    destruct (@star_class_run PyStr.is_space ws t Ht Hws) as (shorter & ->).
    cbn [flat_map]. destruct (alts r t); [contradiction | discriminate]. }
  rewrite L. apply S; [exact H1 | destruct word; [discriminate | exact Hword] |].
  rewrite L. apply S; [exact H2 | reflexivity |].
  cbn [alts]. rewrite (proj2 (strip_prefix_spec "%}" _ _) eq_refl).
  discriminate.
Qed.

(** In a multi-line comment no rule matches at a brace that is followed by
    the closing tag. *)
Lemma multiline_comment_state_stuck ws1 ws2 rest :
  all_chars PyStr.is_space ws1 = true ->
  all_chars PyStr.is_space ws2 = true ->
  first_match Django.multiline_comment_state
    ("{{%" ++ ws1 ++ "endcomment" ++ ws2 ++ "%}" ++ rest) = None.
Proof.
  intros H1 H2. unfold Django.multiline_comment_state. cbn [first_match].
  unfold Django.block_tag at 1.
  rewrite seq_lit_none by reflexivity.
  rewrite lit_none by reflexivity.
  assert (R3 : forall x, re_match (Plus (noneof "{")) (String "{" x) = None)
    by reflexivity.
  change ("{{%" ++ ws1 ++ "endcomment" ++ ws2 ++ "%}" ++ rest)%string
    with (String "{" ("{%" ++ ws1 ++ "endcomment" ++ ws2 ++ "%}" ++ rest)).
  rewrite R3.
  unfold re_match.
  change (alts (Seq (Lit "{") ?r2) (String "{" ?s))
    with (flat_map (alts r2) [s]).
  cbn [flat_map]. rewrite app_nil_r.
  change (alts (NotAhead ?r) ?s)
    with (match alts r s with [] => [s] | _ :: _ => [] end).
  change (alts (Alt ?r1 ?r2) ?s) with (alts r1 s ++ alts r2 s).
  pose proof (@block_tag_matches "endcomment" ws1 ws2 rest H1 H2 eq_refl) as B.
  destruct (alts (Django.block_tag "endcomment") _); [contradiction|].
  reflexivity.
Qed.

End TemplateGrammar.

(** X9.  Inside [{% comment %}] a brace directly in front of the closing
    tag, as in [{{% endcomment %}], is matched by no rule of the
    [django-multiline-comment] state: the fourth pattern refuses a brace
    that is followed by the closing tag written with its own brace, and the
    state has no catch-all rule.  The lexer then stays at this place for
    ever; it neither returns nor raises. *)
Theorem brace_before_endcomment_hangs_the_lexer
  (tree_path str : string) (l : lexer) (pos : nat) (below : list string)
  (ws1 ws2 rest : string)
  (Hstate : state_stack l = "django-multiline-comment" :: below)
  (Hws1 : all_chars PyStr.is_space ws1 = true)
  (Hws2 : all_chars PyStr.is_space ws2 = true)
  (Htext : PyStr.drop pos str
           = ("{{%" ++ ws1 ++ "endcomment" ++ ws2 ++ "%}" ++ rest)%string) :
  forall fuel,
    lex_string fuel Django.__DJANGO_STATES tree_path str l pos = Diverge.
Proof.
  apply (@lex_string_stuck Django.__DJANGO_STATES tree_path str l pos
           "django-multiline-comment" below Django.multiline_comment_state
           Hstate eq_refl).
  - rewrite Htext. now apply multiline_comment_state_stuck.
  - pose proof (drop_length pos str) as D. rewrite Htext in D.
    unfold PyStr.len in *. cbn [String.append String.length] in D. lia.
Qed.

Lemma brace_before_endcomment_hangs_the_lexer_witness :
  Django.tokenize_template 40 "{% comment %}a {{% endcomment %}" "page.html"
  = Diverge
  /\
  forall fuel,
    lex_string fuel Django.__DJANGO_STATES "page.html"
      "{% comment %}a {{% endcomment %}"
      (mkLexer ["django-multiline-comment"; "root"]
         (mkTstack
            [mkFrame (new_token "django-multiline-comment" 1 1 "page.html")
               [Text "a "] [];
             mkFrame (new_token "root" 1 1 "page.html") [] []] None)
         1 16 [2; 13]) 15
    = Diverge.
Proof.
  split; [vm_compute; reflexivity|].
  apply (@brace_before_endcomment_hangs_the_lexer "page.html"
           "{% comment %}a {{% endcomment %}"
           (mkLexer ["django-multiline-comment"; "root"]
              (mkTstack
                 [mkFrame (new_token "django-multiline-comment" 1 1 "page.html")
                    [Text "a "] [];
                  mkFrame (new_token "root" 1 1 "page.html") [] []] None)
              1 16 [2; 13])
           15 ["root"] " " " " EmptyString);
    reflexivity.
Defined.

Section TemplateRoot.

Import Re.

(** What the alternatives of the content pattern make of one character. *)
Lemma content_char c x :
  Ascii.eqb c "{" = false ->
  exists tl,
    alts (Alt (noneof "{")
            (Alt (Lit "%") (Seq (Lit "{") (NotAhead (oneof "%#{")))))
      (String c x) = x :: tl.
Proof.
  intros Hc.
  change (alts (Alt ?r1 ?r2) ?s) with (alts r1 s ++ alts r2 s).
  unfold noneof. cbn [alts chr_in list_ascii_of_string existsb].
  rewrite Hc. cbn [orb negb app]. eauto.
Qed.

Lemma brace_char_facts c :
  Ascii.eqb c "{" = false -> Ascii.eqb "{" c = false.
Proof. rewrite Ascii.eqb_sym. exact (fun H => H). Qed.

(** The first four rules of the [root] state start with a brace. *)
Lemma root_state_without_brace c x :
  Ascii.eqb c "{" = false ->
  first_match Django.root_state (String c x)
  = match re_match Django.content_pattern (String c x) with
    | Some cnt =>
        Some (cnt, [StartToken "content"; Record_ None; Shift; StopToken None])
    | None => first_match [(JS.anything, [Error "Error in parser"])] (String c x)
    end.
Proof.
  intros Hc. apply brace_char_facts in Hc.
  unfold Django.root_state, Django.block_tag. cbn [first_match].
  rewrite (@literal_fails _ _ _ _ Hc).
  rewrite !(@seq_literal_fails _ _ _ _ _ Hc).
  reflexivity.
Qed.

Lemma content_pattern_on_text c w :
  Ascii.eqb c "{" = false ->
  all_chars (fun c => negb (Ascii.eqb c "{")) w = true ->
  re_match Django.content_pattern (String c w) = Some (S (String.length w)).
Proof.
  intros Hc Hw. unfold Django.content_pattern.
  rewrite <- (append_empty_r w) at 1.
  change (String c (w ++ EmptyString))
    with (String c w ++ EmptyString)%string.
  apply (@plus_greedy _ (fun c => negb (Ascii.eqb c "{"))).
  - intros c' x' H. apply negb_true_iff in H. now apply content_char.
  - reflexivity.
  - now rewrite Hc.
  - exact Hw.
Qed.

End TemplateRoot.

(** X10.  A template without any brace is one [content] token that starts
    at line 1, column 1 and holds the whole text. *)
Theorem template_without_braces_is_one_content_token
  (fuel : nat) (source_code p : string)
  (Hsome : source_code <> EmptyString)
  (Hplain : all_chars (fun c => negb (Ascii.eqb c "{")) source_code = true) :
  Django.tokenize_template (3 + fuel) source_code p
  = Ok (Tok (new_token "root" 1 1 p)
          [Tok (new_token "content" 1 1 p) [Text source_code] []] []).
Proof.
  destruct source_code as [|c w]; [contradiction|].
  cbn [all_chars] in Hplain. apply andb_true_iff in Hplain.
  destruct Hplain as [Hc Hw]. apply negb_true_iff in Hc.
  unfold Django.tokenize_template, tokenized.
  cbn [Nat.add tokenize concat_strings input_loop list_or tstack_or path line
       column new_token].
  assert (M : first_match Django.root_state (PyStr.drop 0 (String c w))
              = Some (S (String.length w),
                      [StartToken "content"; Record_ None; Shift;
                       StopToken None])).
  { cbn [PyStr.drop]. rewrite (@root_state_without_brace c w Hc).
    now rewrite (@content_pattern_on_text c w Hc Hw). }
  match goal with
  | |- context [lex_string _ _ _ _ ?l 0] =>
      rewrite (@lex_string_step _ Django.__DJANGO_STATES p (String c w) l 0
                 "root" [] Django.root_state _ _ eq_refl eq_refl M
                 ltac:(cbn; lia))
  end.
  change (PyStr.slice 0 (0 + S (String.length w)) (String c w))
    with (PyStr.slice 0 (0 + String.length (String c w)) (String c w)).
  rewrite slice_whole.
  cbn [exec_actions exec_action bind lx truthy content count position
       with_states with_tokens state_stack token_stack frames detached
       append_top append cur_line cur_column advances new_token
       fheader fchildren fextra app].
  rewrite advance_spec.
  cbn [bind lx position with_states with_tokens token_stack pop_token frames
       state_stack cur_line cur_column advances detached append
       node_of_frame fheader fchildren fextra app].
  rewrite lex_string_end by (unfold PyStr.len; cbn; lia).
  cbn [bind token_stack frames]. unfold built. cbn [frames token_stack].
  reflexivity.
Qed.

Lemma template_without_braces_is_one_content_token_witness :
  Django.tokenize_template 3 "<p>50% off</p>" "page.html"
  = Ok (Tok (new_token "root" 1 1 "page.html")
          [Tok (new_token "content" 1 1 "page.html")
             [Text "<p>50% off</p>"] []] []).
Proof.
  apply (@template_without_braces_is_one_content_token 0 "<p>50% off</p>"
           "page.html").
  - discriminate.
  - reflexivity.
Defined.

Section TemplateRootRules.

Import Re.

(** [r+] advances when the first round of [r] does. *)
Lemma plus_advances r s m tl :
  alts r s = m :: tl ->
  String.length m < String.length s ->
  exists cnt, re_match (Plus r) s = Some cnt /\ 0 < cnt.
Proof.
  intros E Hlt. unfold re_match, Plus.
  change (alts (Seq r (Star r)) s) with (flat_map (alts (Star r)) (alts r s)).
  rewrite E. cbn [flat_map].
  destruct (star_nonempty r m) as (y & ys & Ey).
  assert (Hy : In y (alts (Star r) m)) by (rewrite Ey; now left).
  apply alts_le in Hy. rewrite Ey. cbn [app].
  eexists. split; [reflexivity | lia].
Qed.

Lemma strip_second_fails a b d x :
  Ascii.eqb b d = false ->
  strip_prefix (String a (String b EmptyString)) (String a (String d x)) = None.
Proof.
  intros H. cbn [strip_prefix]. now rewrite Ascii.eqb_refl, H.
Qed.

Lemma content_actions_shift cnt :
  0 < cnt ->
  0 < cnt /\
  In Shift [StartToken "content"; Record_ None; Shift; StopToken None] /\
  forall message,
    ~ In (Error message)
        [StartToken "content"; Record_ None; Shift; StopToken None].
Proof.
  intros H. split; [exact H|]. split; [cbn; tauto|].
  intros message [E|[E|[E|[E|[]]]]]; discriminate E.
Qed.

Lemma opening_actions_shift kind cnt :
  2 <= cnt ->
  0 < cnt /\
  In Shift [StartToken kind; Shift; Push kind] /\
  forall message, ~ In (Error message) [StartToken kind; Shift; Push kind].
Proof.
  intros H. split; [lia|]. split; [cbn; tauto|].
  intros message [E|[E|[E|[]]]]; discriminate E.
Qed.

End TemplateRootRules.

(** X11.  In the [root] state of the template grammar one of the first
    five rules matches at every character, with a match that is not empty
    and actions that shift: a comment, tag or variable opening at a brace
    followed by [#], [%] or a second brace, the content rule everywhere
    else.  The catch-all rule with [Error('Error in parser')] is never the
    one that fires, and the lexer never stands still in this state. *)
Theorem template_root_state_never_reaches_its_error_rule
  (c : ascii) (x : string) :
  exists cnt acts,
    first_match Django.root_state (String c x) = Some (cnt, acts) /\
    0 < cnt /\ In Shift acts /\
    forall message, ~ In (Error message) acts.
Proof.
  destruct (Ascii.eqb_spec c "{") as [->|Hc].
  - destruct x as [|d x'].
    + exists 1, [StartToken "content"; Record_ None; Shift; StopToken None].
      split; [vm_compute; reflexivity | apply content_actions_shift; lia].
    + destruct (Ascii.eqb_spec d "#") as [->|Hd1].
      { exists 2, [StartToken "django-comment"; Shift; Push "django-comment"].
        split; [|apply opening_actions_shift; lia].
        unfold Django.root_state. cbn [first_match].
        change (String "{" (String "#" x')) with ("{#" ++ x')%string.
        now rewrite re_match_lit. }
      destruct (Ascii.eqb_spec d "%") as [->|Hd2].
      { unfold Django.root_state. cbn [first_match].
        rewrite lit_none by reflexivity.
        unfold Django.block_tag.
        destruct (Re.re_match _ (String "{" (String "%" x'))) as [cnt|] eqn:E2.
        - exists cnt. eexists. split; [reflexivity|].
          apply opening_actions_shift. now apply seq_lit_count in E2.
        - destruct (@seq_lit_match "{%" (Re.Star Re.space) x'
                      (@star_not_nil _ _)) as (cnt & E3).
          change ("{%" ++ x')%string with (String "{" (String "%" x')) in E3.
          rewrite E3. exists cnt. eexists. split; [reflexivity|].
          apply opening_actions_shift. now apply seq_lit_count in E3. }
      destruct (Ascii.eqb_spec d "{") as [->|Hd3].
      { unfold Django.root_state, Django.block_tag. cbn [first_match].
        rewrite lit_none by reflexivity.
        rewrite !seq_lit_none by reflexivity.
        destruct (@seq_lit_match "{{" (Re.Star Re.space) x'
                    (@star_not_nil _ _)) as (cnt & E4).
        change ("{{" ++ x')%string with (String "{" (String "{" x')) in E4.
        rewrite E4. exists cnt. eexists. split; [reflexivity|].
        apply opening_actions_shift. now apply seq_lit_count in E4. }
      apply Ascii.eqb_neq in Hd1, Hd2, Hd3.
      assert (F1 : Ascii.eqb "#" d = false) by now rewrite Ascii.eqb_sym.
      assert (F2 : Ascii.eqb "%" d = false) by now rewrite Ascii.eqb_sym.
      assert (F3 : Ascii.eqb "{" d = false) by now rewrite Ascii.eqb_sym.
      unfold Django.root_state, Django.block_tag. cbn [first_match].
      rewrite lit_none by (now apply strip_second_fails).
      rewrite !seq_lit_none by (now apply strip_second_fails).
      assert (E5 : Re.alts
                     (Re.Alt (Re.noneof "{")
                        (Re.Alt (Re.Lit "%")
                           (Re.Seq (Re.Lit "{")
                              (Re.NotAhead (Re.oneof "%#{")))))
                     (String "{" (String d x')) = [String d x']).
      { change (Re.alts (Re.Alt ?r1 ?r2) ?s)
          with (Re.alts r1 s ++ Re.alts r2 s).
        change (Re.alts (Re.Seq ?r1 ?r2) ?s)
          with (flat_map (Re.alts r2) (Re.alts r1 s)).
        cbn. now rewrite Hd1, Hd2, Hd3. }
      destruct (@plus_advances _ _ _ _ E5 ltac:(cbn; lia)) as (cnt & E & Hcnt).
      unfold Django.content_pattern. rewrite E.
      exists cnt. eexists. split; [reflexivity|].
      now apply content_actions_shift.
  - apply Ascii.eqb_neq in Hc.
    rewrite (@root_state_without_brace c x Hc).
    destruct (@content_char c x Hc) as (tl & E5).
    destruct (@plus_advances _ _ _ _ E5 ltac:(cbn; lia)) as (cnt & E & Hcnt).
    unfold Django.content_pattern. rewrite E.
    exists cnt. eexists. split; [reflexivity|].
    now apply content_actions_shift.
Qed.

(* ================================================================== *)
(** ** The block nesting transform: closed blocks, trees without blocks *)

Section NestingMoves.

Variable process_params : cls -> list node -> result unit.
Variable mappings : mapping.
Variable recurse : node -> result node.

(** The scan moves plain children into the innermost open block, one
    after the other, and goes on behind them. *)
Lemma scan_moves_plain markers body body' :
  markers <> [] ->
  Forall2 (moved mappings recurse markers) body body' ->
  forall rest k b below tags_below,
    scan process_params mappings [Token] (fun h => name h) recurse
      (body ++ rest) (mkNesting k (b :: below) 0 (markers :: tags_below))
    = scan process_params mappings [Token] (fun h => name h) recurse rest
        (mkNesting k
           (mkBlock
              (mkFrame (fheader (bnode b)) (fchildren (bnode b) ++ body')
                 (fextra (bnode b)))
              (bslot b) :: below)
           0 (markers :: tags_below)).
Proof.
  intros Hne Hall.
  induction Hall as [|c c' body body' Hc _ IH]; intros rest k b below tb.
  - cbn [app]. rewrite app_nil_r. destruct b as [[fh fc fe] slot]. reflexivity.
  - destruct Hc as (h & cs & ex & -> & Hmap & Hnot & Hrec).
    destruct (last_item_nonempty Hne) as (e & He).
    assert (Hclose : String.eqb (name h) e = false).
    { apply String.eqb_neq. intros E. apply Hnot. rewrite E.
      now apply last_item_In. }
    assert (Helse : PyStr.mem (name h) (but_last markers) = false).
    { apply mem_false. intros H. apply Hnot. now apply but_last_In. }
    cbn [app scan]. unfold isinstance_any, isinstance. cbn [existsb].
    rewrite issubclass_Token. cbn [orb moving_to_node tags_stack].
    rewrite Hmap. cbn [bind]. rewrite He. cbn [bind]. rewrite Hclose.
    cbn [andb]. rewrite Helse. rewrite Hrec. cbn [bind].
    unfold deliver. cbn [moving_to_node list_index kept tags_stack
                         get_moving_to_list_append].
    rewrite IH. cbn [bnode bslot append fheader fchildren fextra].
    now rewrite <- app_assoc.
Qed.

End NestingMoves.

(** X12.  A block that is opened by a mapped node, filled with children
    that are no markers, and closed by a node with the last marker of the
    mapping entry becomes one node: the opening node with the class of the
    entry, holding the nested children in order; its former children (the
    parameters) and the closing node are gone. *)
Theorem closed_block_becomes_one_node
  (process_params : cls -> list node -> result unit) (fuel : nat)
  (mappings : mapping) (root_header begin closing : header)
  (params closing_children : list node)
  (extra closing_extra root_extra : list (nat * list node))
  (markers : list string) (end_ : string) (class_ : cls)
  (body body' : list node)
  (Hmapped : lookup (name begin) mappings = Some (markers, class_))
  (Hend : last_item markers = Ok end_)
  (Hparams : process_params class_ params = Ok tt)
  (Hbody : Forall2
             (moved mappings
                (fun c => nest_block_level_elements process_params fuel c
                            mappings [Token] (Some (fun h => name h)))
                markers) body body')
  (Hclosing : name closing = end_)
  (Hfree : lookup end_ mappings = None) :
  nest_block_level_elements process_params (S fuel)
    (Tok root_header
       (Tok begin params extra
        :: body ++ [Tok closing closing_children closing_extra])
       root_extra)
    mappings [Token] None
  = Ok (Tok root_header [Tok (set_class begin class_) body' extra] root_extra).
Proof.
  assert (Hne : markers <> []).
  { intros ->. discriminate Hend. }
  cbn [nest_block_level_elements scan].
  unfold isinstance_any, isinstance. cbn [existsb].
  rewrite issubclass_Token. cbn [orb]. rewrite Hmapped, Hparams.
  cbn [bind moving_to_node kept list_index tags_stack].
  rewrite (@scan_moves_plain process_params mappings _ markers body body'
             Hne Hbody).
  cbn [scan]. unfold isinstance_any, isinstance. cbn [existsb].
  rewrite issubclass_Token. cbn [orb moving_to_node tags_stack].
  rewrite Hclosing, Hfree. cbn [bind]. rewrite Hend. cbn [bind].
  rewrite String.eqb_refl.
  unfold deliver. cbn [bslot bnode moving_to_node kept app node_of_frame
                       fheader fchildren fextra bind].
  reflexivity.
Qed.

Lemma closed_block_becomes_one_node_witness :
  NestingExample.nest 2
    [NestingExample.Begin; NestingExample.A; NestingExample.B;
     NestingExample.End_]
  = Ok (NestingExample.root
          [Tok (mkHeader "Begin" 3 1 "page.html" NestingExample.Container)
             [NestingExample.A; NestingExample.B] []]).
Proof.
  apply (@closed_block_becomes_one_node NestingExample.process_params 1
           NestingExample.mappings
           (mkHeader "root" 1 1 "page.html" Token)
           (mkHeader "Begin" 3 1 "page.html" Token)
           (mkHeader "End" 3 40 "page.html" Token)
           [Text "Begin"] [Text "End"] [] [] []
           ["Else"; "End"] "End" NestingExample.Container
           [NestingExample.A; NestingExample.B]
           [NestingExample.A; NestingExample.B]).
  - reflexivity.
  - reflexivity.
  - reflexivity.
  - repeat constructor;
      (do 3 eexists; split; [reflexivity|]; split; [reflexivity|];
       split; [|reflexivity]; cbn; intros [H|[H|[]]]; discriminate H).
  - reflexivity.
  - reflexivity.
Defined.

(** X13.  A text child inside an open block ends the transform with an
    [AttributeError]: the scan applies itself to every child it moves into
    the block, and a text fragment has no [children].  (Outside a block
    text children are skipped.) *)
Theorem text_inside_an_open_block_is_an_attribute_error
  (process_params : cls -> list node -> result unit) (fuel : nat)
  (mappings : mapping) (root_header begin : header)
  (params : list node) (extra root_extra : list (nat * list node))
  (markers : list string) (class_ : cls)
  (body body' : list node) (text : string) (rest : list node)
  (Hmapped : lookup (name begin) mappings = Some (markers, class_))
  (Hmarkers : markers <> [])
  (Hparams : process_params class_ params = Ok tt)
  (Hbody : Forall2
             (moved mappings
                (fun c => nest_block_level_elements process_params (S fuel) c
                            mappings [Token] (Some (fun h => name h)))
                markers) body body') :
  nest_block_level_elements process_params (S (S fuel))
    (Tok root_header (Tok begin params extra :: body ++ Text text :: rest)
       root_extra)
    mappings [Token] None
  = Raise AttributeError.
Proof.
  cbn [nest_block_level_elements scan].
  unfold isinstance_any, isinstance. cbn [existsb].
  rewrite issubclass_Token. cbn [orb]. rewrite Hmapped, Hparams.
  cbn [bind moving_to_node kept list_index tags_stack].
  rewrite (@scan_moves_plain process_params mappings _ markers body body'
             Hmarkers Hbody).
  reflexivity.
Qed.

Lemma text_inside_an_open_block_is_an_attribute_error_witness :
  NestingExample.nest 2
    [NestingExample.Begin; NestingExample.A; Text "some text";
     NestingExample.End_]
  = Raise AttributeError.
Proof.
  apply (@text_inside_an_open_block_is_an_attribute_error
           NestingExample.process_params 0
           NestingExample.mappings
           (mkHeader "root" 1 1 "page.html" Token)
           (mkHeader "Begin" 3 1 "page.html" Token)
           [Text "Begin"] [] []
           ["Else"; "End"] NestingExample.Container
           [NestingExample.A] [NestingExample.A] "some text"
           [NestingExample.End_]).
  - reflexivity.
  - discriminate.
  - reflexivity.
  - repeat constructor;
      (do 3 eexists; split; [reflexivity|]; split; [reflexivity|];
       split; [|reflexivity]; cbn; intros [H|[H|[]]]; discriminate H).
Defined.

Section NestingNothing.

Variable process_params : cls -> list node -> result unit.
Variable mappings : mapping.
Variable _classes : list cls.
Variable check : header -> string.
Variable recurse : node -> result node.

(** While no block is open, children that start no block stay where they
    are; the tokens among them are replaced by what their own nesting makes
    of them. *)
Lemma scan_without_block_starts cs :
  (forall c, In c cs ->
     starts_block mappings _classes check c = false /\
     match c with
     | Text _ => True
     | Tok _ _ _ => recurse c = Ok c
     end) ->
  forall k li ts,
    scan process_params mappings _classes check recurse cs
      (mkNesting k [] li ts)
    = Ok (mkNesting (k ++ cs) [] li ts).
Proof.
  induction cs as [|c cs IH]; intros H k li ts.
  - cbn [scan]. now rewrite app_nil_r.
  - destruct (H c (or_introl eq_refl)) as [Hs Hr].
    assert (Hrest : forall c', In c' cs ->
              starts_block mappings _classes check c' = false /\
              match c' with
              | Text _ => True
              | Tok _ _ _ => recurse c' = Ok c'
              end) by (intros c' Hc'; apply H; now right).
    cbn [scan moving_to_node tags_stack].
    destruct c as [s|h children extra].
    + cbn [isinstance bind andb]. unfold deliver. cbn [moving_to_node kept].
      rewrite (IH Hrest). now rewrite <- app_assoc.
    + unfold starts_block in Hs.
      destruct (isinstance_any (Tok h children extra) _classes).
      * cbn [andb] in Hs.
        destruct (lookup (check h) mappings); [discriminate|].
        cbn [bind andb]. unfold isinstance. rewrite issubclass_Token.
        rewrite Hr. cbn [bind]. unfold deliver. cbn [moving_to_node kept].
        rewrite (IH Hrest). now rewrite <- app_assoc.
      * cbn [bind andb]. unfold isinstance. rewrite issubclass_Token.
        rewrite Hr. cbn [bind]. unfold deliver. cbn [moving_to_node kept].
        rewrite (IH Hrest). now rewrite <- app_assoc.
Qed.

End NestingNothing.

Lemma list_max_In (l : list nat) x : In x l -> x <= list_max l.
Proof.
  unfold list_max. induction l as [|y l IH]; [contradiction|].
  intros [->|H]; cbn [fold_right]; [lia | specialize (IH H); lia].
Qed.

Lemma nest_without_block_starts process_params mappings _classes check fuel :
  forall h children extra,
    opens_no_block mappings _classes check (Tok h children extra) = true ->
    depth (Tok h children extra) <= fuel ->
    nest_block_level_elements process_params fuel (Tok h children extra)
      mappings _classes (Some check)
    = Ok (Tok h children extra).
Proof.
  induction fuel as [|fuel IH]; intros h children extra Hno Hd.
  - cbn [depth] in Hd. lia.
  - cbn [nest_block_level_elements].
    rewrite scan_without_block_starts.
    + reflexivity.
    + intros c Hc. cbn [opens_no_block] in Hno.
      rewrite forallb_forall in Hno. specialize (Hno c Hc).
      apply andb_true_iff in Hno. destruct Hno as [H1 H2].
      apply negb_true_iff in H1. split; [exact H1|].
      destruct c as [s|ch cc ce]; [exact I|].
      apply IH; [exact H2|].
      cbn [depth] in Hd.
      pose proof (@list_max_In (map depth children) (depth (Tok ch cc ce))
                    (in_map depth _ _ Hc)).
      lia.
Qed.

(** X14.  A tree in which no token would start a block comes back from
    the transform unchanged, whatever else it holds: text children, tokens
    of other classes, and also closing markers that close nothing, which are
    kept without complaint. *)
Theorem tree_without_block_starts_is_left_as_it_is
  (process_params : cls -> list node -> result unit) (fuel : nat)
  (mappings : mapping) (_classes : list cls)
  (check : option (header -> string))
  (h : header) (children : list node) (extra : list (nat * list node))
  (Hnone : opens_no_block mappings _classes
             (match check with
              | Some f => f
              | None => fun c => name c
              end) (Tok h children extra) = true)
  (Hfuel : depth (Tok h children extra) <= fuel) :
  nest_block_level_elements process_params fuel (Tok h children extra)
    mappings _classes check
  = Ok (Tok h children extra).
Proof.
  rewrite <- (@nest_without_block_starts process_params mappings _classes
                (match check with
                 | Some f => f
                 | None => fun c => name c
                 end) fuel h children extra Hnone Hfuel).
  destruct fuel as [|fuel]; [reflexivity|].
  destruct check; reflexivity.
Qed.

Lemma tree_without_block_starts_is_left_as_it_is_witness :
  NestingExample.nest 2
    [NestingExample.A; NestingExample.End_; Text "some text"; NestingExample.B]
  = Ok (NestingExample.root
          [NestingExample.A; NestingExample.End_; Text "some text";
           NestingExample.B]).
Proof.
  apply (@tree_without_block_starts_is_left_as_it_is
           NestingExample.process_params 2 NestingExample.mappings [Token] None
           (mkHeader "root" 1 1 "page.html" Token)
           [NestingExample.A; NestingExample.End_; Text "some text";
            NestingExample.B] []).
  - reflexivity.
  - cbn. lia.
Defined.

(* ================================================================== *)
(** ** The renaming passes: what each of them leaves alone *)

Lemma rename_symbols_keeps symbols :
  forall avoid_names st avoid_names' st',
    Minify.rename_symbols symbols avoid_names st = Ok (avoid_names', st') ->
    symbol_table st' = symbol_table st /\ link_to st' = link_to st.
Proof.
  induction symbols as [|[s token] rest IH]; intros a st a' st' H.
  - injection H as _ <-. now split.
  - cbn [Minify.rename_symbols] in H.
    destruct (generate_varname_returns a) as (k & E & _).
    rewrite E in H. cbn [bind] in H.
    apply IH in H. exact H.
Qed.

Lemma rename_variables_keeps fuel :
  forall js_node p avoid_names st st',
    Minify.rename_variables fuel js_node p avoid_names st = Ok st' ->
    symbol_table st' = symbol_table st /\
    link_to st' = link_to st /\
    forall q, (forall scope, ~ In q (map snd (symbol_table st scope))) ->
              varname st' q = varname st q.
Proof.
  induction fuel as [|fuel IH]; intros n p a st st' H; [discriminate|].
  cbn [Minify.rename_variables] in H.
  destruct (Minify.rename_symbols (symbol_table st p) a st)
    as [[a1 st1]| |] eqn:E; try discriminate.
  cbn [bind] in H.
  destruct (rename_symbols_keeps _ _ _ E) as (T1 & L1).
  assert (V1 : forall q,
             (forall scope, ~ In q (map snd (symbol_table st scope))) ->
             varname st1 q = varname st q).
  { intros q Hq. apply (rename_symbols_elsewhere _ _ _ _ E). apply Hq. }
  assert (Hloop : symbol_table st' = symbol_table st1 /\
                  link_to st' = link_to st1 /\
                  forall q,
                    (forall scope, ~ In q (map snd (symbol_table st1 scope))) ->
                    varname st' q = varname st1 q).
  { revert H. generalize 0 at 1. generalize st1.
    induction (children_of n) as [|c cs IHcs]; intros s i H.
    - injection H as <-. repeat split.
    - destruct (isinstance c Token).
      + destruct (Minify.rename_variables fuel c (p ++ [i]) a1 s)
          as [s'| |] eqn:Ec; try discriminate.
        cbn [bind] in H. apply IH in Ec. apply IHcs in H.
        destruct Ec as (Tc & Lc & Vc). destruct H as (Th & Lh & Vh).
        split; [congruence|]. split; [congruence|].
        intros q Hq. rewrite Vh, Vc; [reflexivity | exact Hq |].
        rewrite Tc. exact Hq.
      + now apply IHcs in H. }
  destruct Hloop as (T2 & L2 & V2).
  split; [congruence|]. split; [congruence|].
  intros q Hq. rewrite V2, V1; [reflexivity | exact Hq |].
  rewrite T1. exact Hq.
Qed.

(** X15.  The renaming walk writes new names and nothing else: the symbol
    tables and the links between tokens are as before, and a token that no
    symbol table names keeps the name it had. *)
Theorem renaming_touches_declared_tokens_only
  (fuel : nat) (js_node : node) (p : ref) (avoid_names : list string)
  (st st' : attrs)
  (Hrun : Minify.rename_variables fuel js_node p avoid_names st = Ok st') :
  symbol_table st' = symbol_table st /\
  link_to st' = link_to st /\
  forall q, (forall scope, ~ In q (map snd (symbol_table st scope))) ->
            varname st' q = varname st q.
Proof. exact (rename_variables_keeps _ _ _ _ _ Hrun). Qed.

Lemma renaming_touches_declared_tokens_only_witness :
  symbol_table
    (set_variable_name (declare no_attrs [] "total" [1]) [1] "a")
  = symbol_table (declare no_attrs [] "total" [1]) /\
  link_to (set_variable_name (declare no_attrs [] "total" [1]) [1] "a")
  = link_to (declare no_attrs [] "total" [1]) /\
  forall q,
    (forall scope,
       ~ In q (map snd (symbol_table (declare no_attrs [] "total" [1]) scope))) ->
    varname (set_variable_name (declare no_attrs [] "total" [1]) [1] "a") q
    = varname (declare no_attrs [] "total" [1]) q.
Proof.
  apply (@renaming_touches_declared_tokens_only 2
           (Tok (mkHeader "root" 1 1 "script.js" Token)
              [Tok (mkHeader "js-keyword" 1 1 "script.js" JavascriptKeyword)
                 [Text "var"] [];
               Tok (mkHeader "js-varname" 1 5 "script.js" JavascriptVariable)
                 [Text "total"] []] [])
           [] [] (declare no_attrs [] "total" [1])
           (set_variable_name (declare no_attrs [] "total" [1]) [1] "a")).
  vm_compute. reflexivity.
Defined.

Section ParameterPass.

Variable root : node.
Variable fuel : nat.
Variable p : ref.
Variable children : list node.

Lemma bind_parameters_keeps variables body :
  forall st st',
    Minify.bind_parameters root fuel p variables body st = Ok st' ->
    varname st' = varname st /\ link_to st' = link_to st /\
    forall q, q <> body -> symbol_table st' q = symbol_table st q.
Proof.
  induction variables as [|[i v] rest IH]; intros st st' H.
  - injection H as <-. repeat split.
  - cbn [Minify.bind_parameters] in H.
    destruct (Minify.output_as_string root fuel st (p ++ [i]) v)
      as [n| |]; try discriminate.
    cbn [bind] in H. apply IH in H. destruct H as (V & L & T).
    split; [exact V|]. split; [exact L|].
    intros q Hq. rewrite (T q Hq). cbn [declare symbol_table].
    unfold update. destruct (ref_eqb q body) eqn:E; [|reflexivity].
    apply ref_eqb_eq in E. contradiction.
Qed.

Lemma exception_raises (A : Type) i message (x : A) :
  @Minify.exception children A i message <> Ok x.
Proof.
  unfold Minify.exception, compile_exception.
  destruct (Minify.current_node children i) as [[s|h cs ex]| |];
    cbn [bind]; discriminate.
Qed.

Lemma find_variables_2_loop_keeps n :
  forall i st st',
    Minify.find_variables_2_loop root fuel p children n i st = Ok st' ->
    varname st' = varname st /\ link_to st' = link_to st /\
    forall q, (forall j, q <> p ++ [j]) ->
              symbol_table st' q = symbol_table st q.
Proof.
  induction n as [|n IH]; intros i st st' H; [discriminate|].
  cbn [Minify.find_variables_2_loop] in H.
  destruct (i <? length children); [|injection H as <-; repeat split].
  repeat
    match type of H with
    | bind ?m _ = Ok _ =>
        let E := fresh "E" in
        destruct m eqn:E; cbn [bind] in H; try discriminate H
    | (if negb ?b then _ else _) = Ok _ =>
        destruct b; cbn [negb] in H
    | (if ?b then _ else _) = Ok _ => destruct b
    | (let '(_, _) := ?x in _) = Ok _ => destruct x
    | Minify.exception _ _ _ = Ok _ =>
        exfalso; exact (@exception_raises _ _ _ _ H)
    end;
    try (apply IH in H; exact H).
  all: match goal with
       | Hb : Minify.bind_parameters _ _ _ _ _ _ = Ok _ |- _ =>
           apply bind_parameters_keeps in Hb; destruct Hb as (V & L & T)
       end.
  all: apply IH in H; destruct H as (V' & L' & T').
  all: split; [congruence|]; split; [congruence|].
  all: intros q Hq; rewrite (T' q Hq); apply T; apply Hq.
Qed.

End ParameterPass.

(** X16.  The pass over function parameters writes symbol tables only, and
    only those of direct children of the node it is called on: names and
    links of all tokens, and the tables of all other nodes (the node itself,
    and everything below its children) are as before.  The pass is called
    on the root and does not descend, so no parameter of a function that is
    defined inside a scope is declared. *)
Theorem parameter_pass_writes_tables_of_direct_children_only
  (root : node) (fuel : nat) (js_node : node) (p : ref) (st st' : attrs)
  (Hrun : Minify.find_variables_2 root fuel js_node p st = Ok st') :
  varname st' = varname st /\
  link_to st' = link_to st /\
  forall q, (forall j, q <> p ++ [j]) ->
            symbol_table st' q = symbol_table st q.
Proof.
  unfold Minify.find_variables_2 in Hrun.
  now apply find_variables_2_loop_keeps in Hrun.
Qed.

Lemma parameter_pass_writes_tables_of_direct_children_only_witness :
  varname (declare (declare no_attrs [8] "a" [4]) [8] "b" [6])
  = varname no_attrs /\
  link_to (declare (declare no_attrs [8] "a" [4]) [8] "b" [6])
  = link_to no_attrs /\
  forall q, (forall j, q <> [] ++ [j]) ->
            symbol_table (declare (declare no_attrs [8] "a" [4]) [8] "b" [6]) q
            = symbol_table no_attrs q.
Proof.
  apply (@parameter_pass_writes_tables_of_direct_children_only
           ScriptTokens.function_with_parameters 20
           ScriptTokens.function_with_parameters [] no_attrs
           (declare (declare no_attrs [8] "a" [4]) [8] "b" [6])).
  vm_compute. reflexivity.
Defined.

(* ================================================================== *)
(** ** The declaration passes and the pass over the uses *)

Lemma dict_set_values (A : Type) k (v : A) d x :
  In x (map snd (dict_set k v d)) -> x = v \/ In x (map snd d).
Proof.
  induction d as [|[k' v'] rest IH]; cbn [dict_set map snd In].
  - intros [<-|[]]. now left.
  - destruct (String.eqb k k'); cbn [map snd In].
    + intros [<-|H]; [now left | right; now right].
    + intros [<-|H]; [right; now left|].
      destruct (IH H) as [->|H']; [now left | right; now right].
Qed.

Lemma declare_values st scope n token s q :
  In q (map snd (symbol_table (declare st scope n token) s)) ->
  q = token \/ In q (map snd (symbol_table st s)).
Proof.
  cbn [declare symbol_table]. unfold update.
  destruct (ref_eqb s scope) eqn:E; [|now right].
  apply ref_eqb_eq in E. subst s. apply dict_set_values.
Qed.

Lemma declares_below_refl p b st : declares_below p b st st.
Proof. repeat split. intros scope q H. now left. Qed.

Lemma declares_below_trans p b st1 st2 st3 :
  declares_below p b st1 st2 -> declares_below p b st2 st3 ->
  declares_below p b st1 st3.
Proof.
  intros (V1 & L1 & T1) (V2 & L2 & T2).
  split; [congruence|]. split; [congruence|].
  intros scope q H. destruct (T2 scope q H) as [H2|H2]; [|now right].
  apply T1, H2.
Qed.

(** What a pass does below a child is below the node, and not directly
    below it. *)
Lemma declares_below_child p i b b' st st' :
  declares_below (p ++ [i]) b st st' -> declares_below p b' st st'.
Proof.
  intros (V & L & T). split; [exact V|]. split; [exact L|].
  intros scope q H. destruct (T scope q H) as [H'|(j & r & -> & _)];
    [now left | right].
  exists i, (j :: r). split; [now rewrite <- app_assoc | discriminate].
Qed.

Lemma declares_below_declare p i st scope n :
  declares_below p false st (declare st scope n (p ++ [i])).
Proof.
  repeat split. intros s q H. apply declare_values in H.
  destruct H as [->|H]; [right | now left].
  exists i, []. split; [reflexivity | discriminate].
Qed.

Lemma find_variables_declares_below root fuel :
  forall js_node p scope in_root_node st st',
    Minify.find_variables root fuel js_node p scope in_root_node st = Ok st' ->
    declares_below p in_root_node st st'.
Proof.
  induction fuel as [|fuel IH]; intros n p scope b st st' H; [discriminate|].
  cbn [Minify.find_variables] in H.
  match type of H with
  | ?f 0 (children_of n) false st = Ok st' =>
      assert (Hloop : forall cs i next s s',
                 (next = true -> b = false) ->
                 f i cs next s = Ok s' -> declares_below p b s s')
  end.
  { induction cs as [|c rest IHcs]; intros i next s s' Hnext Hrun.
    - injection Hrun as <-. apply declares_below_refl.
    - cbv beta iota fix in Hrun.
      match type of Hrun with
      | bind ?m _ = _ => destruct m as [declares| |] eqn:D;
                         try discriminate Hrun
      end.
      cbn [bind] in Hrun. destruct declares.
      { apply IHcs in Hrun; [exact Hrun|]. intros _.
        destruct (isinstance c JavascriptKeyword); [|discriminate D].
        destruct (Minify.output_as_string root fuel s (p ++ [i]) c)
          as [k| |]; try discriminate D.
        cbn [bind] in D. injection D as D.
        apply andb_true_iff in D. destruct D as [_ D].
        now apply negb_true_iff in D. }
      clear D.
      destruct (isinstance c JavascriptVariable && next) eqn:Ev.
      { destruct (Minify.output_as_string root fuel s (p ++ [i]) c)
          as [k| |]; try discriminate Hrun.
        cbn [bind] in Hrun.
        apply IHcs in Hrun; [|discriminate].
        apply andb_true_iff in Ev. destruct Ev as [_ ->].
        rewrite (Hnext eq_refl) in *.
        exact (declares_below_trans (declares_below_declare p i s scope k)
                 Hrun). }
      destruct (isinstance c JavascriptScope).
      { destruct (Minify.find_variables root fuel c (p ++ [i]) (p ++ [i])
                    false s) as [s1| |] eqn:Ec; try discriminate Hrun.
        cbn [bind] in Hrun. apply IH in Ec.
        apply IHcs in Hrun; [|discriminate].
        exact (declares_below_trans
                 (@declares_below_child p i false b s s1 Ec) Hrun). }
      destruct (isinstance c JavascriptWhiteSpace).
      { now apply IHcs in Hrun. }
      destruct (isinstance c Token).
      { destruct (Minify.find_variables root fuel c (p ++ [i]) scope
                    true s) as [s1| |] eqn:Ec; try discriminate Hrun.
        cbn [bind] in Hrun. apply IH in Ec.
        apply IHcs in Hrun; [|discriminate].
        exact (declares_below_trans
                 (@declares_below_child p i true b s s1 Ec) Hrun). }
      apply IHcs in Hrun; [exact Hrun | discriminate]. }
  apply (Hloop _ _ _ _ _ (fun E => False_ind _ (Bool.diff_false_true E)) H).
Qed.

(** X17.  The pass that collects [var] and [function] declarations writes
    symbol tables only, and it never enters a token that sits directly in
    the root node: what is declared at the top level of a script is in no
    symbol table, so the renaming leaves it alone. *)
Theorem top_level_declarations_are_never_entered
  (root : node) (fuel : nat) (js_node : node) (st st' : attrs)
  (Hrun : Minify.find_variables root fuel js_node [] [] true st = Ok st') :
  varname st' = varname st /\
  link_to st' = link_to st /\
  forall scope i,
    In [i] (map snd (symbol_table st' scope)) ->
    In [i] (map snd (symbol_table st scope)).
Proof.
  apply find_variables_declares_below in Hrun.
  destruct Hrun as (V & L & T).
  split; [exact V|]. split; [exact L|].
  intros scope i H. destruct (T scope [i] H) as [H'|(j & r & E & Hr)];
    [exact H'|].
  cbn [app] in E. injection E as _ E. symmetry in E.
  destruct (Hr eq_refl E).
Qed.

Lemma top_level_declarations_are_never_entered_witness :
  varname (declare no_attrs [4] "y" [4; 2]) = varname no_attrs /\
  link_to (declare no_attrs [4] "y" [4; 2]) = link_to no_attrs /\
  forall scope i,
    In [i] (map snd (symbol_table (declare no_attrs [4] "y" [4; 2]) scope)) ->
    In [i] (map snd (symbol_table no_attrs scope)).
Proof.
  apply (@top_level_declarations_are_never_entered
           ScriptTokens.declarations_at_two_levels 20
           ScriptTokens.declarations_at_two_levels no_attrs
           (declare no_attrs [4] "y" [4; 2])).
  vm_compute. reflexivity.
Defined.

Lemma links_to_declared_refl st globals :
  links_to_declared st st globals globals.
Proof.
  repeat split.
  - exists []. now rewrite app_nil_r.
  - intros q t H. now left.
Qed.

Lemma links_to_declared_trans st1 st2 st3 g1 g2 g3 :
  links_to_declared st1 st2 g1 g2 -> links_to_declared st2 st3 g2 g3 ->
  links_to_declared st1 st3 g1 g3.
Proof.
  intros (T1 & V1 & (m1 & G1) & L1) (T2 & V2 & (m2 & G2) & L2).
  split; [congruence|]. split; [congruence|]. split.
  - exists (m1 ++ m2). subst. now rewrite app_assoc.
  - intros q t H. destruct (L2 q t H) as [H2|(scope & H2)].
    + apply L1, H2.
    + right. exists scope. now rewrite <- T1.
Qed.

Lemma innermost_declaration_declared st n parent_scopes token :
  Minify.innermost_declaration st n parent_scopes = Some token ->
  exists scope, In token (map snd (symbol_table st scope)).
Proof.
  induction parent_scopes as [|s rest IH]; cbn [Minify.innermost_declaration];
    [discriminate|].
  destruct (lookup n (symbol_table st s)) as [t|] eqn:E; [|exact IH].
  intros H. injection H as <-. exists s.
  apply lookup_In in E. apply (in_map snd) in E. exact E.
Qed.

Lemma find_free_variables_links_to_declared root fuel :
  forall js_node p parent_scopes st globals st' globals',
    Minify.find_free_variables root fuel js_node p parent_scopes st globals
    = Ok (st', globals') ->
    links_to_declared st st' globals globals'.
Proof.
  induction fuel as [|fuel IH]; intros n p ps st g st' g' H; [discriminate|].
  cbn [Minify.find_free_variables] in H.
  match type of H with
  | ?f 0 (children_of n) false st g = Ok (st', g') =>
      assert (Hloop : forall cs i skip s gl s' gl',
                 f i cs skip s gl = Ok (s', gl') ->
                 links_to_declared s s' gl gl')
  end.
  { induction cs as [|c rest IHcs]; intros i skip s gl s' gl' Hrun.
    - injection Hrun as <- <-. apply links_to_declared_refl.
    - cbv beta iota fix in Hrun.
      destruct (isinstance c JavascriptOperator).
      { destruct (Minify.output_as_string root fuel s (p ++ [i]) c)
          as [o| |]; try discriminate Hrun.
        cbn [bind] in Hrun. now apply IHcs in Hrun. }
      destruct (isinstance c JavascriptVariable).
      { destruct (negb skip); [|now apply IHcs in Hrun].
        destruct (Minify.output_as_string root fuel s (p ++ [i]) c)
          as [k| |]; try discriminate Hrun.
        cbn [bind] in Hrun.
        destruct (Minify.innermost_declaration s k ps) as [token|] eqn:E.
        - apply IHcs in Hrun.
          refine (links_to_declared_trans _ Hrun).
          repeat split.
          + exists []. now rewrite app_nil_r.
          + intros q t Hq. cbn [link_to_variable link_to] in Hq.
            unfold update in Hq. destruct (ref_eqb q (p ++ [i])).
            * injection Hq as <-. right.
              exact (innermost_declaration_declared _ _ _ E).
            * now left.
        - apply IHcs in Hrun.
          refine (links_to_declared_trans _ Hrun).
          repeat split.
          + now exists [k].
          + intros q t Hq. now left. }
      destruct (isinstance c JavascriptScope).
      { destruct (Minify.find_free_variables root fuel c (p ++ [i])
                    ((p ++ [i]) :: ps) s gl) as [[s1 g1]| |] eqn:Ec;
          try discriminate Hrun.
        cbn [bind] in Hrun. apply IH in Ec. apply IHcs in Hrun.
        exact (links_to_declared_trans Ec Hrun). }
      destruct (isinstance c Token).
      { destruct (Minify.find_free_variables root fuel c (p ++ [i]) ps s gl)
          as [[s1 g1]| |] eqn:Ec; try discriminate Hrun.
        cbn [bind] in Hrun. apply IH in Ec. apply IHcs in Hrun.
        exact (links_to_declared_trans Ec Hrun). }
      now apply IHcs in Hrun. }
  exact (Hloop _ _ _ _ _ _ _ H).
Qed.

(** X18.  The pass over the uses of names writes links and the list of free
    names, nothing else: symbol tables and names are as before, the list of
    free names is only added to at its end, and every link it sets points
    to a token that a symbol table names. *)
Theorem uses_are_linked_to_declaring_tokens
  (root : node) (fuel : nat) (js_node : node) (p : ref)
  (parent_scopes : list ref) (st st' : attrs)
  (global_variable_names globals' : list string)
  (Hrun : Minify.find_free_variables root fuel js_node p parent_scopes st
            global_variable_names = Ok (st', globals')) :
  symbol_table st' = symbol_table st /\
  varname st' = varname st /\
  (exists more, globals' = global_variable_names ++ more) /\
  forall q t,
    link_to st' q = Some t ->
    link_to st q = Some t \/
    exists scope, In t (map snd (symbol_table st scope)).
Proof. exact (find_free_variables_links_to_declared _ _ _ _ _ _ _ Hrun). Qed.

Lemma uses_are_linked_to_declaring_tokens_witness :
  symbol_table
    (link_to_variable (declare (declare no_attrs [8] "a" [4]) [8] "b" [6])
       [8; 2] [4])
  = symbol_table (declare (declare no_attrs [8] "a" [4]) [8] "b" [6]) /\
  varname
    (link_to_variable (declare (declare no_attrs [8] "a" [4]) [8] "b" [6])
       [8; 2] [4])
  = varname (declare (declare no_attrs [8] "a" [4]) [8] "b" [6]) /\
  (exists more, ["f"; "a"; "b"] = [] ++ more) /\
  forall q t,
    link_to
      (link_to_variable (declare (declare no_attrs [8] "a" [4]) [8] "b" [6])
         [8; 2] [4]) q = Some t ->
    link_to (declare (declare no_attrs [8] "a" [4]) [8] "b" [6]) q = Some t \/
    exists scope,
      In t (map snd
              (symbol_table
                 (declare (declare no_attrs [8] "a" [4]) [8] "b" [6]) scope)).
Proof.
  apply (@uses_are_linked_to_declaring_tokens
           ScriptTokens.function_with_parameters 20
           ScriptTokens.function_with_parameters [] [[]]
           (declare (declare no_attrs [8] "a" [4]) [8] "b" [6])
           (link_to_variable
              (declare (declare no_attrs [8] "a" [4]) [8] "b" [6]) [8; 2] [4])
           [] ["f"; "a"; "b"]).
  vm_compute. reflexivity.
Defined.

(* ================================================================== *)
(** ** [_minify_variable_names]: the four passes together *)

Lemma find_variables_tables root fuel :
  forall js_node p scope in_root_node st st',
    Minify.find_variables root fuel js_node p scope in_root_node st = Ok st' ->
    forall s, (in_root_node = true \/ s <> scope) ->
              (forall i r, s <> p ++ i :: r) ->
              symbol_table st' s = symbol_table st s.
Proof.
  induction fuel as [|fuel IH]; intros n p scope b st st' H; [discriminate|].
  cbn [Minify.find_variables] in H.
  match type of H with
  | ?f 0 (children_of n) false st = Ok st' =>
      assert (Hloop : forall cs i next s s',
                 (next = true -> b = false) ->
                 f i cs next s = Ok s' ->
                 forall sc, (b = true \/ sc <> scope) ->
                            (forall j r, sc <> p ++ j :: r) ->
                            symbol_table s' sc = symbol_table s sc)
  end.
  { induction cs as [|c rest IHcs]; intros i next s s' Hnext Hrun sc Hsc Hp.
    - now injection Hrun as <-.
    - cbv beta iota fix in Hrun.
      match type of Hrun with
      | bind ?m _ = _ => destruct m as [declares| |] eqn:D;
                         try discriminate Hrun
      end.
      cbn [bind] in Hrun. destruct declares.
      { apply (IHcs _ _ _ _) with (sc := sc) in Hrun;
          [exact Hrun | | exact Hsc | exact Hp]. intros _.
        destruct (isinstance c JavascriptKeyword); [|discriminate D].
        destruct (Minify.output_as_string root fuel s (p ++ [i]) c)
          as [k| |]; try discriminate D.
        cbn [bind] in D. injection D as D.
        apply andb_true_iff in D. destruct D as [_ D].
        now apply negb_true_iff in D. }
      clear D.
      destruct (isinstance c JavascriptVariable && next) eqn:Ev.
      { destruct (Minify.output_as_string root fuel s (p ++ [i]) c)
          as [k| |]; try discriminate Hrun.
        cbn [bind] in Hrun.
        apply (IHcs _ _ _ _) with (sc := sc) in Hrun;
          [| discriminate | exact Hsc | exact Hp].
        rewrite Hrun. cbn [declare symbol_table]. unfold update.
        destruct (ref_eqb sc scope) eqn:E; [|reflexivity].
        apply ref_eqb_eq in E. apply andb_true_iff in Ev.
        destruct Ev as [_ ->]. rewrite (Hnext eq_refl) in Hsc.
        destruct Hsc as [Hsc|Hsc]; [discriminate Hsc | contradiction]. }
      destruct (isinstance c JavascriptScope).
      { destruct (Minify.find_variables root fuel c (p ++ [i]) (p ++ [i])
                    false s) as [s1| |] eqn:Ec; try discriminate Hrun.
        cbn [bind] in Hrun.
        apply (IHcs _ _ _ _) with (sc := sc) in Hrun;
          [| discriminate | exact Hsc | exact Hp].
        rewrite Hrun. apply (IH _ _ _ _ _ _ Ec).
        - right. exact (Hp i []).
        - intros j r. rewrite <- app_assoc. exact (Hp i (j :: r)). }
      destruct (isinstance c JavascriptWhiteSpace).
      { now apply (IHcs _ _ _ _) with (sc := sc) in Hrun. }
      destruct (isinstance c Token).
      { destruct (Minify.find_variables root fuel c (p ++ [i]) scope
                    true s) as [s1| |] eqn:Ec; try discriminate Hrun.
        cbn [bind] in Hrun.
        apply (IHcs _ _ _ _) with (sc := sc) in Hrun;
          [| discriminate | exact Hsc | exact Hp].
        rewrite Hrun. apply (IH _ _ _ _ _ _ Ec).
        - now left.
        - intros j r. rewrite <- app_assoc. exact (Hp i (j :: r)). }
      apply (IHcs _ _ _ _) with (sc := sc) in Hrun;
        [exact Hrun | discriminate | exact Hsc | exact Hp]. }
  intros s Hs Hp.
  apply (Hloop _ _ _ _ _ (fun E => False_ind _ (Bool.diff_false_true E)) H);
    assumption.
Qed.

Lemma innermost_declaration_tables st st' n parent_scopes :
  symbol_table st' = symbol_table st ->
  Minify.innermost_declaration st' n parent_scopes
  = Minify.innermost_declaration st n parent_scopes.
Proof.
  intros E. induction parent_scopes as [|s rest IH];
    cbn [Minify.innermost_declaration]; [reflexivity|].
  now rewrite E, IH.
Qed.

(** Where the pass over the uses sets links: at tokens below the node, and
    at a direct child only to what the search through the scopes around
    finds. *)
Lemma find_free_variables_links_below root fuel :
  forall js_node p parent_scopes st globals st' globals',
    Minify.find_free_variables root fuel js_node p parent_scopes st globals
    = Ok (st', globals') ->
    forall q t,
      link_to st' q = Some t ->
      link_to st q = Some t \/
      exists i r, q = p ++ i :: r /\
        (r = [] ->
         exists n, Minify.innermost_declaration st n parent_scopes = Some t).
Proof.
  induction fuel as [|fuel IH]; intros n p ps st g st' g' H; [discriminate|].
  cbn [Minify.find_free_variables] in H.
  match type of H with
  | ?f 0 (children_of n) false st g = Ok (st', g') =>
      assert (Hloop : forall cs i skip s gl s' gl',
                 f i cs skip s gl = Ok (s', gl') ->
                 symbol_table s' = symbol_table s /\
                 forall q t,
                   link_to s' q = Some t ->
                   link_to s q = Some t \/
                   exists j r, q = p ++ j :: r /\
                     (r = [] ->
                      exists m,
                        Minify.innermost_declaration s m ps = Some t))
  end.
  { induction cs as [|c rest IHcs]; intros i skip s gl s' gl' Hrun.
    - injection Hrun as <- <-. split; [reflexivity|]. intros q t Hq. now left.
    - cbv beta iota fix in Hrun.
      destruct (isinstance c JavascriptOperator).
      { destruct (Minify.output_as_string root fuel s (p ++ [i]) c)
          as [o| |]; try discriminate Hrun.
        cbn [bind] in Hrun. now apply IHcs in Hrun. }
      destruct (isinstance c JavascriptVariable).
      { destruct (negb skip); [|now apply IHcs in Hrun].
        destruct (Minify.output_as_string root fuel s (p ++ [i]) c)
          as [k| |]; try discriminate Hrun.
        cbn [bind] in Hrun.
        destruct (Minify.innermost_declaration s k ps) as [token|] eqn:E.
        - apply IHcs in Hrun. destruct Hrun as (T & L).
          split; [exact T|]. intros q t Hq.
          destruct (L q t Hq) as [Hq'|(j & r & -> & Hr)].
          + cbn [link_to_variable link_to] in Hq'. unfold update in Hq'.
            destruct (ref_eqb q (p ++ [i])) eqn:Eq; [|now left].
            apply ref_eqb_eq in Eq. injection Hq' as <-. right.
            exists i, []. split; [exact Eq|]. intros _. now exists k.
          + right. exists j, r. split; [reflexivity|]. intros Hnil.
            destruct (Hr Hnil) as (m & Hm). exists m.
            rewrite <- Hm. symmetry.
            now apply innermost_declaration_tables.
        - now apply IHcs in Hrun. }
      destruct (isinstance c JavascriptScope).
      { destruct (Minify.find_free_variables root fuel c (p ++ [i])
                    ((p ++ [i]) :: ps) s gl) as [[s1 g1]| |] eqn:Ec;
          try discriminate Hrun.
        cbn [bind] in Hrun.
        pose proof (find_free_variables_links_to_declared _ _ _ _ _ _ _ Ec)
          as (T1 & _).
        apply IHcs in Hrun. destruct Hrun as (T & L).
        split; [congruence|]. intros q t Hq.
        destruct (L q t Hq) as [Hq'|(j & r & -> & Hr)].
        + destruct (IH _ _ _ _ _ _ _ Ec q t Hq') as [H0|(j & r & -> & _)];
            [now left | right].
          exists i, (j :: r). split; [now rewrite <- app_assoc | discriminate].
        + right. exists j, r. split; [reflexivity|]. intros Hnil.
          destruct (Hr Hnil) as (m & Hm). exists m.
          now rewrite <- (@innermost_declaration_tables s s1 m ps T1). }
      destruct (isinstance c Token).
      { destruct (Minify.find_free_variables root fuel c (p ++ [i]) ps s gl)
          as [[s1 g1]| |] eqn:Ec; try discriminate Hrun.
        cbn [bind] in Hrun.
        pose proof (find_free_variables_links_to_declared _ _ _ _ _ _ _ Ec)
          as (T1 & _).
        apply IHcs in Hrun. destruct Hrun as (T & L).
        split; [congruence|]. intros q t Hq.
        destruct (L q t Hq) as [Hq'|(j & r & -> & Hr)].
        + destruct (IH _ _ _ _ _ _ _ Ec q t Hq') as [H0|(j & r & -> & _)];
            [now left | right].
          exists i, (j :: r). split; [now rewrite <- app_assoc | discriminate].
        + right. exists j, r. split; [reflexivity|]. intros Hnil.
          destruct (Hr Hnil) as (m & Hm). exists m.
          now rewrite <- (@innermost_declaration_tables s s1 m ps T1). }
      now apply IHcs in Hrun. }
  intros q t Hq. exact (proj2 (Hloop _ _ _ _ _ _ _ H) q t Hq).
Qed.

Lemma rename_symbols_named symbols :
  forall avoid_names st avoid_names' st' q v,
    Minify.rename_symbols symbols avoid_names st = Ok (avoid_names', st') ->
    varname st' q = Some v ->
    varname st q = Some v \/ In q (map snd symbols).
Proof.
  induction symbols as [|[s token] rest IH]; intros a st a' st' q v H Hq.
  - injection H as _ <-. now left.
  - cbn [Minify.rename_symbols] in H.
    destruct (generate_varname_returns a) as (k & E & _).
    rewrite E in H. cbn [bind] in H.
    destruct (IH _ _ _ _ q v H Hq) as [H'|H']; [|right; now right].
    cbn [set_variable_name varname] in H'. unfold update in H'.
    destruct (ref_eqb q token) eqn:Eq; [|now left].
    apply ref_eqb_eq in Eq. right. now left.
Qed.

Lemma rename_variables_named fuel :
  forall js_node p avoid_names st st' q v,
    Minify.rename_variables fuel js_node p avoid_names st = Ok st' ->
    varname st' q = Some v ->
    varname st q = Some v \/
    exists scope, In q (map snd (symbol_table st scope)).
Proof.
  induction fuel as [|fuel IH]; intros n p a st st' q v H Hq; [discriminate|].
  cbn [Minify.rename_variables] in H.
  destruct (Minify.rename_symbols (symbol_table st p) a st)
    as [[a1 st1]| |] eqn:E; try discriminate.
  cbn [bind] in H.
  destruct (rename_symbols_keeps _ _ _ E) as (T1 & _).
  assert (Hloop : varname st1 q = Some v \/
                  exists scope, In q (map snd (symbol_table st1 scope))).
  { revert H. generalize 0 at 1. generalize st1.
    induction (children_of n) as [|c cs IHcs]; intros s i H.
    - injection H as <-. now left.
    - destruct (isinstance c Token).
      + destruct (Minify.rename_variables fuel c (p ++ [i]) a1 s)
          as [s'| |] eqn:Ec; try discriminate.
        cbn [bind] in H. apply IHcs in H.
        destruct (rename_variables_keeps _ _ _ _ _ Ec) as (Tc & _).
        destruct H as [H|(scope & H)].
        * exact (IH _ _ _ _ _ _ _ Ec H).
        * right. exists scope. now rewrite <- Tc.
      + now apply IHcs in H. }
  destruct Hloop as [H1|(scope & H1)].
  - destruct (rename_symbols_named _ _ _ _ E H1) as [H0|H0]; [now left|].
    right. now exists p.
  - right. exists scope. now rewrite <- T1.
Qed.

(** The four passes of a run that returns. *)
Lemma _minify_variable_names_passes fuel js_node st st' :
  Minify._minify_variable_names fuel js_node st = Ok st' ->
  exists st1 st2 st3 globals,
    Minify.find_variables js_node fuel js_node [] [] true st = Ok st1 /\
    Minify.find_variables_2 js_node fuel js_node [] st1 = Ok st2 /\
    Minify.find_free_variables js_node fuel js_node [] [[]] st2 []
    = Ok (st3, globals) /\
    Minify.rename_variables fuel js_node [] globals st3 = Ok st'.
Proof.
  unfold Minify._minify_variable_names. intros H.
  destruct (Minify.find_variables js_node fuel js_node [] [] true st)
    as [st1| |] eqn:E1; try discriminate H. cbn [bind] in H.
  destruct (Minify.find_variables_2 js_node fuel js_node [] st1)
    as [st2| |] eqn:E2; try discriminate H. cbn [bind] in H.
  destruct (Minify.find_free_variables js_node fuel js_node [] [[]] st2 [])
    as [[st3 globals]| |] eqn:E3; try discriminate H. cbn [bind] in H.
  exists st1, st2, st3, globals. repeat split; assumption.
Qed.

(** X19.  After [_minify_variable_names] on a tree without attributes,
    only tokens that a symbol table names have a new name, and every link
    points to such a token. *)
Theorem minifier_names_and_links_declared_tokens_only
  (fuel : nat) (js_node : node) (st' : attrs)
  (Hrun : Minify._minify_variable_names fuel js_node no_attrs = Ok st') :
  (forall q v, varname st' q = Some v ->
     exists scope, In q (map snd (symbol_table st' scope))) /\
  (forall q t, link_to st' q = Some t ->
     exists scope, In t (map snd (symbol_table st' scope))).
Proof.
  destruct (@_minify_variable_names_passes _ _ _ _ Hrun)
    as (st1 & st2 & st3 & globals & H1 & H2 & H3 & H4).
  apply find_variables_declares_below in H1. destruct H1 as (V1 & L1 & _).
  unfold Minify.find_variables_2 in H2.
  apply find_variables_2_loop_keeps in H2. destruct H2 as (V2 & L2 & _).
  apply find_free_variables_links_to_declared in H3.
  destruct H3 as (T3 & V3 & _ & L3).
  destruct (rename_variables_keeps _ _ _ _ _ H4) as (T4 & L4 & _).
  split.
  - intros q v Hq.
    destruct (@rename_variables_named _ _ _ _ _ _ q v H4 Hq)
      as [H0|(scope & H0)].
    + rewrite V3, V2, V1 in H0. discriminate H0.
    + exists scope. now rewrite T4.
  - intros q t Hq. rewrite L4 in Hq.
    destruct (L3 q t Hq) as [H0|(scope & H0)].
    + rewrite L2, L1 in H0. discriminate H0.
    + exists scope. now rewrite T4, T3.
Qed.

(** X20.  What stands directly in the root of a script is outside the
    renaming, function parameters apart: after [_minify_variable_names] on
    a tree without attributes the symbol table of the root is empty, no
    token directly in the root is linked to another one, and such a token
    has a new name only if the table of a direct child of the root names
    it, which is where the parameters of a top-level function are
    declared. *)
Theorem top_level_names_are_outside_the_renaming
  (fuel : nat) (js_node : node) (st' : attrs)
  (Hrun : Minify._minify_variable_names fuel js_node no_attrs = Ok st') :
  symbol_table st' [] = [] /\
  (forall i, link_to st' [i] = None) /\
  (forall i v, varname st' [i] = Some v ->
     exists j, In [i] (map snd (symbol_table st' [j]))).
Proof.
  destruct (@_minify_variable_names_passes _ _ _ _ Hrun)
    as (st1 & st2 & st3 & globals & H1 & H2 & H3 & H4).
  pose proof (@find_variables_tables _ _ _ _ _ _ _ _ H1) as T1.
  apply find_variables_declares_below in H1. destruct H1 as (V1 & L1 & D1).
  unfold Minify.find_variables_2 in H2.
  apply find_variables_2_loop_keeps in H2. destruct H2 as (V2 & L2 & T2).
  pose proof (find_free_variables_links_below _ _ _ _ _ _ _ H3) as B3.
  apply find_free_variables_links_to_declared in H3.
  destruct H3 as (T3 & V3 & _ & _).
  pose proof (fun q v => @rename_variables_named _ _ _ _ _ _ q v H4) as N4.
  destruct (rename_variables_keeps _ _ _ _ _ H4) as (T4 & L4 & _).
  assert (Troot : symbol_table st2 [] = []).
  { rewrite T2 by (intros j; cbn [app]; discriminate).
    rewrite T1; [reflexivity | now left |].
    intros i r. cbn [app]. discriminate. }
  split; [now rewrite T4, T3|]. split.
  - intros i. rewrite L4.
    destruct (link_to st3 [i]) as [t|] eqn:E; [exfalso | reflexivity].
    destruct (B3 _ _ E) as [H0|(j & r & Eq & Hr)].
    + rewrite L2, L1 in H0. discriminate H0.
    + cbn [app] in Eq. injection Eq as _ Eq.
      destruct (Hr (eq_sym Eq)) as (n & Hn).
      cbn [Minify.innermost_declaration] in Hn.
      rewrite Troot in Hn. discriminate Hn.
  - intros i v Hv.
    destruct (N4 _ _ Hv) as [H0|(scope & H0)].
    + rewrite V3, V2, V1 in H0. discriminate H0.
    + rewrite T3 in H0.
      assert (Hscope : (exists j, scope = [j]) \/ forall j, scope <> [] ++ [j]).
      { destruct scope as [|j [|k rest]].
        - right. intros j. discriminate.
        - left. now exists j.
        - right. intros j'. discriminate. }
      destruct Hscope as [(j & ->)|Hscope].
      * exists j. now rewrite T4, T3.
      * rewrite (T2 _ Hscope) in H0.
        destruct (D1 _ _ H0) as [[]|(k & r & Eq & Hr)].
        cbn [app] in Eq. injection Eq as _ Eq.
        destruct (Hr eq_refl (eq_sym Eq)).
Qed.

Lemma minifier_names_and_links_declared_tokens_only_witness :
  (forall q v, varname function_with_parameters_renamed q = Some v ->
     exists scope,
       In q (map snd (symbol_table function_with_parameters_renamed scope))) /\
  (forall q t, link_to function_with_parameters_renamed q = Some t ->
     exists scope,
       In t (map snd (symbol_table function_with_parameters_renamed scope))).
Proof.
  apply (@minifier_names_and_links_declared_tokens_only 20
           ScriptTokens.function_with_parameters
           function_with_parameters_renamed).
  vm_compute. reflexivity.
Defined.

Lemma top_level_names_are_outside_the_renaming_witness :
  symbol_table function_with_parameters_renamed [] = [] /\
  (forall i, link_to function_with_parameters_renamed [i] = None) /\
  (forall i v, varname function_with_parameters_renamed [i] = Some v ->
     exists j,
       In [i] (map snd (symbol_table function_with_parameters_renamed [j]))).
Proof.
  apply (@top_level_names_are_outside_the_renaming 20
           ScriptTokens.function_with_parameters
           function_with_parameters_renamed).
  vm_compute. reflexivity.
Defined.

(* ================================================================== *)
(** ** The parameter pass at the end of the children *)

Section ParameterPassEnd.

Variable root : node.
Variable fuel : nat.
Variable p : ref.

(** Skipping whitespace runs off the end of the list when nothing else
    follows. *)
Lemma skip_whitespace_runs_off spaces :
  Forall (fun c => isinstance c JavascriptWhiteSpace = true) spaces ->
  forall done n,
    length spaces < n ->
    Minify.skip_whitespace (done ++ spaces) n (length done) = Raise IndexError.
Proof.
  induction 1 as [|c spaces Hc _ IH]; intros done n Hn.
  - destruct n as [|n]; [lia|]. cbn [Minify.skip_whitespace].
    unfold Minify.current_node. rewrite app_nil_r.
    rewrite (proj2 (nth_error_None done (length done)) (Nat.le_refl _)).
    reflexivity.
  - destruct n as [|n]; [cbn [length] in Hn; lia|].
    cbn [Minify.skip_whitespace]. unfold Minify.current_node.
    rewrite nth_error_app2 by lia. rewrite Nat.sub_diag.
    cbn [nth_error bind]. rewrite Hc.
    replace (done ++ c :: spaces) with ((done ++ [c]) ++ spaces)
      by (now rewrite <- app_assoc).
    replace (S (length done)) with (length (done ++ [c]))
      by (rewrite length_app; cbn [length]; lia).
    apply IH. cbn [length] in Hn. lia.
Qed.

Lemma find_variables_2_loop_runs_off kw spaces st todo :
  Forall (fun c => isinstance c JavascriptKeyword = false) todo ->
  isinstance kw JavascriptKeyword = true ->
  Forall (fun c => isinstance c JavascriptWhiteSpace = true) spaces ->
  forall done n,
    Minify.output_as_string root fuel st (p ++ [length done + length todo]) kw
    = Ok "function" ->
    length todo + length spaces + 1 < n ->
    Minify.find_variables_2_loop root fuel p (done ++ todo ++ kw :: spaces)
      n (length done) st
    = Raise IndexError.
Proof.
  intros Htodo Hkw Hspaces.
  induction Htodo as [|c todo Hc _ IH]; intros done n Hout Hn.
  - destruct n as [|n]; [lia|]. cbn [app length] in *.
    rewrite Nat.add_0_r in Hout.
    cbn [Minify.find_variables_2_loop].
    assert (Hlt : (length done <? length (done ++ kw :: spaces)) = true).
    { apply Nat.ltb_lt. rewrite length_app. cbn [length]. lia. }
    rewrite Hlt. unfold Minify.current_node at 1.
    rewrite nth_error_app2 by lia. rewrite Nat.sub_diag.
    cbn [nth_error bind]. rewrite Hkw, Hout. cbn [bind].
    rewrite String.eqb_refl.
    replace (done ++ kw :: spaces) with ((done ++ [kw]) ++ spaces)
      by (now rewrite <- app_assoc).
    replace (S (length done)) with (length (done ++ [kw]))
      by (rewrite length_app; cbn [length]; lia).
    rewrite (skip_whitespace_runs_off Hspaces) by lia.
    reflexivity.
  - destruct n as [|n]; [lia|]. cbn [app length] in *.
    cbn [Minify.find_variables_2_loop].
    assert (Hlt : (length done <? length (done ++ c :: todo ++ kw :: spaces))
                  = true).
    { apply Nat.ltb_lt. rewrite length_app. cbn [length]. lia. }
    rewrite Hlt. unfold Minify.current_node at 1.
    rewrite nth_error_app2 by lia. rewrite Nat.sub_diag.
    cbn [nth_error bind]. rewrite Hc. cbn [bind].
    replace (done ++ c :: todo ++ kw :: spaces)
      with ((done ++ [c]) ++ todo ++ kw :: spaces)
      by (now rewrite <- app_assoc).
    replace (S (length done)) with (length (done ++ [c]))
      by (rewrite length_app; cbn [length]; lia).
    apply IH; [|lia].
    rewrite length_app. cbn [length].
    replace (length done + 1 + length todo)
      with (length done + S (length todo)) by lia.
    exact Hout.
Qed.

End ParameterPassEnd.

(** X21.  A [function] keyword after which nothing but whitespace follows
    in the same node ends the pass over the parameters with an
    [IndexError], not with a [CompileException]: the helper that skips
    whitespace reads the current child without looking at the length of the
    list.  No keyword stands before the [function] keyword here, so the
    pass gets to it. *)
Theorem function_keyword_at_the_end_is_an_index_error
  (root : node) (fuel : nat) (p : ref) (h : header)
  (before : list node) (kw : node) (spaces : list node)
  (extra : list (nat * list node)) (st : attrs)
  (Hbefore : Forall (fun c => isinstance c JavascriptKeyword = false) before)
  (Hkw : isinstance kw JavascriptKeyword = true)
  (Hout : Minify.output_as_string root fuel st (p ++ [length before]) kw
          = Ok "function")
  (Hspaces : Forall (fun c => isinstance c JavascriptWhiteSpace = true) spaces)
  (Hfuel : length before + length spaces + 1 < fuel) :
  Minify.find_variables_2 root fuel (Tok h (before ++ kw :: spaces) extra) p st
  = Raise IndexError.
Proof.
  unfold Minify.find_variables_2. cbn [children_of].
  apply (@find_variables_2_loop_runs_off root fuel p kw spaces st before
           Hbefore Hkw Hspaces [] fuel); [exact Hout | exact Hfuel].
Qed.

Lemma function_keyword_at_the_end_is_an_index_error_witness :
  Minify.find_variables_2
    (ScriptTokens.root
       [ScriptTokens.variable 1 "x"; ScriptTokens.operator 2 "=";
        ScriptTokens.keyword 3 "function"; ScriptTokens.whitespace 11 " "])
    20
    (ScriptTokens.root
       [ScriptTokens.variable 1 "x"; ScriptTokens.operator 2 "=";
        ScriptTokens.keyword 3 "function"; ScriptTokens.whitespace 11 " "])
    [] no_attrs
  = Raise IndexError.
Proof.
  apply (@function_keyword_at_the_end_is_an_index_error
           (ScriptTokens.root
              [ScriptTokens.variable 1 "x"; ScriptTokens.operator 2 "=";
               ScriptTokens.keyword 3 "function";
               ScriptTokens.whitespace 11 " "])
           20 [] (new_token "root" 1 1 "script.js")
           [ScriptTokens.variable 1 "x"; ScriptTokens.operator 2 "="]
           (ScriptTokens.keyword 3 "function")
           [ScriptTokens.whitespace 11 " "] [] no_attrs).
  - repeat constructor.
  - reflexivity.
  - reflexivity.
  - repeat constructor.
  - cbn. lia.
Defined.

(* ================================================================== *)
(** ** Whitespace compression changes blanks only *)
























(* ================================================================== *)
(** ** The name generator and the reserved word [case] *)

Section CaseCounter.

Import Minify.

(** Counters are told apart by their rank. *)
Lemma rank_injective c1 :
  forall c2, digits c1 -> digits c2 -> rank c1 = rank c2 -> c1 = c2.
Proof.
  induction c1 as [|d c1 IH]; intros c2 H1 H2 E.
  - destruct c2 as [|e c2]; [reflexivity|]. cbn [rank] in E. lia.
  - destruct c2 as [|e c2]; [cbn [rank] in E; lia|].
    cbn [rank] in E.
    pose proof (Forall_inv H1) as Hd. pose proof (Forall_inv H2) as He.
    cbn beta in Hd, He.
    assert (R : rank c1 = rank c2) by lia.
    f_equal; [lia|].
    exact (IH c2 (Forall_inv_tail H1) (Forall_inv_tail H2) R).
Qed.

(** The loop reaches every counter, after as many rounds as its rank
    says. *)
Lemma counter_of_rank c :
  digits c -> c <> [] -> counter (rank c - 1) = c.
Proof.
  intros Hd Hne.
  destruct (counter_rank (rank c - 1)) as (R & D & _).
  apply (rank_injective D Hd). rewrite R.
  destruct c as [|d c]; [contradiction|]. cbn [rank]. lia.
Qed.

Lemma candidate_case : candidate (rank [2; 0; 18; 4] - 1) = "case".
Proof.
  unfold candidate. rewrite counter_of_rank.
  - reflexivity.
  - repeat constructor; lia.
  - discriminate.
Qed.

End CaseCounter.

(** X23.  The name generator hands out the reserved word [case].  The
    list [__JS_KEYWORDS] spells it [gcase], so nothing keeps the loop from
    stopping at the counter [2, 0, 18, 4], which stands for [case]: when
    all candidates before it are taken and [case] itself is not in the
    list to avoid, [case] is the new name. *)
Theorem reserved_word_case_is_handed_out (avoid_names : list string)
  (Hused : forall j, S j < Minify.rank [2; 0; 18; 4] ->
             In (Minify.candidate j) (avoid_names ++ JS.__JS_KEYWORDS))
  (Hfree : ~ In "case" avoid_names) :
  Minify.generate_varname avoid_names
  = Ok ("case", avoid_names ++ JS.__JS_KEYWORDS).
Proof.
  destruct (generate_varname_returns avoid_names)
    as (k & E & Hk & Hkw & Hmin).
  rewrite E. rewrite <- candidate_case.
  assert (Hcase : ~ In (Minify.candidate (Minify.rank [2; 0; 18; 4] - 1))
                      (avoid_names ++ JS.__JS_KEYWORDS)).
  { rewrite candidate_case. intros H. apply in_app_or in H.
    destruct H as [H|H]; [exact (Hfree H)|].
    apply mem_In in H. vm_compute in H. discriminate H. }
  assert (Hpos : 0 < Minify.rank [2; 0; 18; 4]) by (cbn [Minify.rank]; lia).
  destruct (Nat.lt_trichotomy k (Minify.rank [2; 0; 18; 4] - 1))
    as [Hlt|[->|Hgt]].
  - exfalso. assert (Hin : In (Minify.candidate k)
                             (avoid_names ++ JS.__JS_KEYWORDS))
      by (apply Hused; lia).
    apply in_app_or in Hin. destruct Hin as [Hin|Hin];
      [exact (Hk Hin) | exact (Hkw Hin)].
  - reflexivity.
  - exfalso. apply Hcase. apply Hmin. exact Hgt.
Qed.

Lemma reserved_word_case_is_handed_out_witness :
  Minify.generate_varname
    (map Minify.candidate (seq 0 (Minify.rank [2; 0; 18; 4] - 1)))
  = Ok ("case",
        map Minify.candidate (seq 0 (Minify.rank [2; 0; 18; 4] - 1))
        ++ JS.__JS_KEYWORDS).
Proof.
  apply (@reserved_word_case_is_handed_out
           (map Minify.candidate (seq 0 (Minify.rank [2; 0; 18; 4] - 1)))).
  - intros j Hj. apply in_or_app. left. apply in_map. apply in_seq. lia.
  - intros H. apply in_map_iff in H. destruct H as (j & Ej & Hj).
    rewrite <- candidate_case in Ej. apply candidate_injective in Ej.
    apply in_seq in Hj. lia.
Defined.
